(** * Gaussian mixtures under a variance-preserving diffusion: [diffuse/mixture.py]

    The Python module works on JAX arrays.  This development embeds the
    array operations the module calls (shapes, row-major buffers, NumPy
    broadcasting, [vmap], reductions, gathers) as executable definitions,
    translates the density, distribution function, transform and sampler of
    the module line by line on top of them ([display_histogram], which
    only calls the plotting library, is left out), and then proves their
    properties.

    Scalars are kept abstract ([Scalar]): the same translation is read over
    the real numbers (exact arithmetic) and over binary64 floats.  What the
    module calls in JAX beyond array arithmetic (the exponential, the normal
    distribution function and density, the Cholesky factorisation, the
    random generator) is a parameter of the functions that call it. *)

From Stdlib Require Import Floats.
From Stdlib Require Import List Arith Bool Lia PeanoNat.
From Stdlib Require Import Reals Lra.
From Stdlib Require Uint63.
Import ListNotations.

Set Implicit Arguments.

(** ** Exceptions and fallible computations *)

(** The exceptions of the array operations, by the operation that raises
    them (the Python class of each depends on the version of JAX). *)
Inductive error : Type :=
| VmapError         (* jax.vmap: a mapped argument of rank 0, mapped axes of different sizes *)
| BroadcastError    (* shapes that cannot be broadcast together *)
| ContractionError  (* matmul, einsum: contracted axes of different sizes, wrong rank *)
| RankError         (* [shape[-1]], [len], an index or a reduction on a 0-d array *)
| ArgumentError.    (* a library function refuses its arguments *)

Inductive result (A : Type) : Type :=
| Ok (a : A)
| Err (e : error).

Arguments Ok {A} a.
Arguments Err {A} e.

Definition bind {A B : Type} (r : result A) (k : A -> result B) : result B :=
  match r with
  | Ok a => k a
  | Err e => Err e
  end.

Notation "x <- e ;; k" := (bind e (fun x => k))
  (at level 61, e at next level, right associativity).
Notation "' p <- e ;; k" := (bind e (fun p => k))
  (at level 61, p pattern, e at next level, right associativity).

Fixpoint mapM {A B : Type} (f : A -> result B) (l : list A) : result (list B) :=
  match l with
  | [] => Ok []
  | a :: l' => b <- f a ;; bs <- mapM f l' ;; Ok (b :: bs)
  end.

(** ** Shapes and multi-indices *)

Definition size (s : list nat) : nat := fold_right Nat.mul 1 s.

(** Row-major offset of a multi-index in a buffer of shape [s]. *)
Fixpoint ravel (s idx : list nat) : nat :=
  match s, idx with
  | _ :: s', i :: idx' => i * size s' + ravel s' idx'
  | _, _ => 0
  end.

(** All multi-indices of shape [s], in row-major order. *)
Fixpoint indices (s : list nat) : list (list nat) :=
  match s with
  | [] => [[]]
  | n :: s' => flat_map (fun i => map (cons i) (indices s')) (seq 0 n)
  end.

(** [in_shape idx s]: [idx] addresses an element of an array of shape [s]. *)
Definition in_shape (idx s : list nat) : Prop := Forall2 lt idx s.

(** ** Arrays *)

Class Dflt (A : Type) : Type := dflt : A.
#[export] Instance Dflt_nat : Dflt nat := 0.

Record ndarray (A : Type) : Type := mk_nd { shape : list nat; data : list A }.

Arguments mk_nd {A} shape data.

(** The buffer has one cell per index. *)
Definition wf {A : Type} (a : ndarray A) : Prop := length (data a) = size (shape a).

Definition ndim {A : Type} (a : ndarray A) : nat := length (shape a).

Definition get {A : Type} `{Dflt A} (a : ndarray A) (idx : list nat) : A :=
  nth (ravel (shape a) idx) (data a) dflt.

Definition build {A : Type} (s : list nat) (f : list nat -> A) : ndarray A :=
  mk_nd s (map f (indices s)).

Definition scalar {A : Type} (x : A) : ndarray A := mk_nd [] [x].

(** The value of a 0-d array. *)
Definition item {A : Type} `{Dflt A} (a : ndarray A) : A := get a [].

(** ** Broadcasting (the NumPy rule) *)

(** Pad a shape with leading 1s up to rank [n]. *)
Definition pad (n : nat) (s : list nat) : list nat := repeat 1 (n - length s) ++ s.

Definition bdim (a b : nat) : option nat :=
  if a =? b then Some a
  else if a =? 1 then Some b
  else if b =? 1 then Some a
  else None.

Fixpoint bzip (s1 s2 : list nat) : option (list nat) :=
  match s1, s2 with
  | [], [] => Some []
  | a :: s1', b :: s2' =>
      match bdim a b, bzip s1' s2' with
      | Some d, Some s => Some (d :: s)
      | _, _ => None
      end
  | _, _ => None
  end.

Definition broadcast_shapes (s1 s2 : list nat) : option (list nat) :=
  let n := Nat.max (length s1) (length s2) in
  bzip (pad n s1) (pad n s2).

(** Index into an operand of shape [s] for the result index [idx]: the
    leading axes the operand lacks are dropped, an axis of size 1 is read
    at 0. *)
Fixpoint bsel (s idx : list nat) : list nat :=
  match s, idx with
  | n :: s', i :: idx' => (if n =? 1 then 0 else i) :: bsel s' idx'
  | _, _ => []
  end.

Definition bidx (s idx : list nat) : list nat :=
  bsel s (skipn (length idx - length s) idx).

Section Elementwise.
Context {A : Type} `{Dflt A}.

Definition nd_map (f : A -> A) (a : ndarray A) : ndarray A :=
  build (shape a) (fun idx => f (get a idx)).

Definition nd_map2 (f : A -> A -> A) (a b : ndarray A) : result (ndarray A) :=
  match broadcast_shapes (shape a) (shape b) with
  | Some s =>
      Ok (build s (fun idx => f (get a (bidx (shape a) idx)) (get b (bidx (shape b) idx))))
  | None => Err BroadcastError
  end.

(** [a[k]]: the [k]-th slice along axis 0. *)
Definition slice0 (a : ndarray A) (k : nat) : ndarray A :=
  build (tl (shape a)) (fun idx => get a (k :: idx)).

(** Remove every axis of size 1. *)
Definition squeeze (a : ndarray A) : ndarray A :=
  mk_nd (filter (fun n => negb (n =? 1)) (shape a)) (data a).

(** [a.shape[-1]]. *)
Definition last_dim (a : ndarray A) : result nat :=
  match rev (shape a) with
  | n :: _ => Ok n
  | [] => Err RankError
  end.

(** [len(a)]. *)
Definition len (a : ndarray A) : result nat :=
  match shape a with
  | n :: _ => Ok n
  | [] => Err RankError
  end.
End Elementwise.

(** ** Scalars and the numerical library *)

(** The arithmetic of array elements; [f_half] is the literal [0.5]. *)
Class Scalar (F : Type) : Type := {
  f_zero : F;
  f_one : F;
  f_half : F;
  f_add : F -> F -> F;
  f_sub : F -> F -> F;
  f_mul : F -> F -> F;
  f_div : F -> F -> F;
  f_neg : F -> F;
  f_sqrt : F -> F
}.

#[export] Instance Dflt_scalar {F : Type} {S : Scalar F} : Dflt F := @f_zero F S.

(** What the module takes from JAX and is not defined in it, one interface
    for each collaborator. *)

(** Elementwise [jnp.exp]. *)
Class ExpFn (F : Type) : Type := { f_exp : F -> F }.

(** Elementwise [jax.scipy.stats.norm.cdf]. *)
Class NormalCdf (F : Type) : Type := { norm_cdf : F -> F }.

(** [jax.scipy.stats.multivariate_normal.pdf(x, mean, cov)]. *)
Class NormalPdf (F : Type) : Type := {
  mvn_pdf : ndarray F -> ndarray F -> ndarray F -> result (ndarray F)
}.

(** [jnp.linalg.cholesky]. *)
Class Factor (F : Type) : Type := { cholesky : ndarray F -> result (ndarray F) }.

(** The functional random number generator over keys: [jax.random.split(key)],
    [jax.random.choice(key, a, shape, p)], [jax.random.normal(key, shape)]. *)
Class Random (F key : Type) : Type := {
  random_split : key -> key * key;
  random_choice : key -> ndarray nat -> list nat -> ndarray F -> result (ndarray nat);
  random_normal : key -> list nat -> result (ndarray F)
}.

Section Arrays.
Context {F : Type} `{Scalar F}.

(** [jnp.sum] of a list of elements, from 0. *)
Definition fsum (l : list F) : F := fold_left f_add l f_zero.

Definition nd_add : ndarray F -> ndarray F -> result (ndarray F) := nd_map2 f_add.
Definition nd_sub : ndarray F -> ndarray F -> result (ndarray F) := nd_map2 f_sub.
Definition nd_mul : ndarray F -> ndarray F -> result (ndarray F) := nd_map2 f_mul.
Definition nd_div : ndarray F -> ndarray F -> result (ndarray F) := nd_map2 f_div.
Definition nd_neg : ndarray F -> ndarray F := nd_map f_neg.
Definition nd_sqrt : ndarray F -> ndarray F := nd_map f_sqrt.

(** [a ** 2]: an integer power, computed as a product. *)
Definition nd_square : ndarray F -> ndarray F := nd_map (fun x => f_mul x x).

(** [jnp.eye(n)]. *)
Definition eye (n : nat) : ndarray F :=
  build [n; n] (fun idx =>
    match idx with
    | [i; j] => if i =? j then f_one else f_zero
    | _ => f_zero
    end).

(** [jnp.sum(a, axis=0)]. *)
Definition nd_sum0 (a : ndarray F) : result (ndarray F) :=
  match shape a with
  | k :: s => Ok (build s (fun idx => fsum (map (fun i => get a (i :: idx)) (seq 0 k))))
  | [] => Err RankError
  end.

(** The size of the mapped axis 0 of a [vmap] argument. *)
Definition axis0 (a : ndarray F) : result nat :=
  match shape a with
  | k :: _ => Ok k
  | [] => Err VmapError
  end.

(** The results of the per-slice calls stacked along a new axis 0.  The
    body is traced once (at slice 0) for the shape of one result. *)
Definition stacked (k : nat) (body : nat -> result (ndarray F)) : result (ndarray F) :=
  r0 <- body 0 ;;
  rs <- mapM body (seq 0 k) ;;
  Ok (build (k :: shape r0) (fun idx =>
        match idx with
        | i :: idx' => get (nth i rs r0) idx'
        | [] => f_zero
        end)).

(** [jax.vmap(f)(a, b)], all arguments mapped along axis 0. *)
Definition vmap2 (f : ndarray F -> ndarray F -> result (ndarray F))
    (a b : ndarray F) : result (ndarray F) :=
  ka <- axis0 a ;;
  kb <- axis0 b ;;
  if ka =? kb
  then stacked ka (fun k => f (slice0 a k) (slice0 b k))
  else Err VmapError.

(** [jax.vmap(f)(a, b, c)]. *)
Definition vmap3 (f : ndarray F -> ndarray F -> ndarray F -> result (ndarray F))
    (a b c : ndarray F) : result (ndarray F) :=
  ka <- axis0 a ;;
  kb <- axis0 b ;;
  kc <- axis0 c ;;
  if (ka =? kb) && (kb =? kc)
  then stacked ka (fun k => f (slice0 a k) (slice0 b k) (slice0 c k))
  else Err VmapError.

(** [a @ b] ([jnp.matmul]): a 1-d left operand is a row, a 1-d right
    operand a column, the leading axes are broadcast, the added axes are
    removed from the result. *)
Definition matmul (a b : ndarray F) : result (ndarray F) :=
  let a1 := ndim a =? 1 in
  let b1 := ndim b =? 1 in
  let sa := if a1 then 1 :: shape a else shape a in
  let sb := if b1 then shape b ++ [1] else shape b in
  match rev sa, rev sb with
  | ka :: m :: ra, n :: kb :: rb =>
      let ba := rev ra in
      let bb := rev rb in
      match broadcast_shapes ba bb with
      | Some batch =>
          if ka =? kb then
            let nb := length batch in
            let out := batch ++ (if a1 then [] else [m]) ++ (if b1 then [] else [n]) in
            Ok (build out (fun idx =>
                  let bi := firstn nb idx in
                  let rest := skipn nb idx in
                  let i := if a1 then 0 else hd 0 rest in
                  let j := if b1 then 0 else last rest 0 in
                  fsum (map (fun l =>
                          f_mul (get a (bidx ba bi ++ (if a1 then [l] else [i; l])))
                                (get b (bidx bb bi ++ (if b1 then [l] else [l; j]))))
                        (seq 0 ka))))
          else Err ContractionError
      | None => Err BroadcastError
      end
  | _, _ => Err RankError
  end.

(** [a[idx]] for an integer array [idx]: a gather along axis 0; an index
    past the end is clamped. *)
Definition take (a : ndarray F) (idx : ndarray nat) : result (ndarray F) :=
  match shape a with
  | n :: s =>
      let r := ndim idx in
      Ok (build (shape idx ++ s) (fun i =>
            get a (Nat.min (get idx (firstn r i)) (n - 1) :: skipn r i)))
  | [] => Err RankError
  end.

(** [jnp.einsum("nij, ni->nj", a, b)]: [out[n, j] = sum_i a[n, i, j] * b[n, i]];
    a size-1 axis of one operand is broadcast against the other's. *)
Definition einsum_nij_ni_nj (a b : ndarray F) : result (ndarray F) :=
  match shape a, shape b with
  | [n; i; j], [n'; i'] =>
      match bdim n n', bdim i i' with
      | Some nn, Some ii =>
          Ok (build [nn; j] (fun idx =>
                match idx with
                | [p; q] =>
                    fsum (map (fun r =>
                            f_mul (get a (bsel (shape a) [p; r; q]))
                                  (get b (bsel (shape b) [p; r])))
                          (seq 0 ii))
                | _ => f_zero
                end))
      | _, _ => Err ContractionError
      end
  | _, _ => Err ContractionError
  end.
End Arrays.

(** [jnp.arange(k)]. *)
Definition arange (k : nat) : ndarray nat := mk_nd [k] (seq 0 k).

(** ** The module [diffuse/mixture.py] *)

(** The noise schedule of the SDE: [sde.beta.integrate(t, s)]. *)
Record Schedule (F : Type) : Type := {
  integrate : ndarray F -> ndarray F -> result (ndarray F)
}.

Record SDE (F : Type) : Type := { beta : Schedule F }.

(** [class MixState(NamedTuple)]. *)
Record MixState (F : Type) : Type := {
  means : ndarray F;
  cov : ndarray F;
  mix_weights : ndarray F
}.

Section Mixture.
Context {F key : Type} `{Scalar F}.
Context `{ExpFn F} `{NormalCdf F} `{NormalPdf F} `{Factor F} `{Random F key}.

(** The closure [single_cdf] of [cdf_mixtr], with its captured [x]. *)
Definition single_cdf (x mean std weight : ndarray F) : result (ndarray F) :=
  d <- nd_sub x mean ;;
  q <- nd_div d std ;;
  nd_mul weight (nd_map norm_cdf q).

Definition cdf_mixtr (mix_state : MixState F) (x : ndarray F) : result (ndarray F) :=
  let '(Build_MixState means covs weights) := mix_state in
  let stds := nd_sqrt covs in
  cdfs <- vmap3 (single_cdf x) means stds weights ;;
  s <- nd_sum0 cdfs ;;
  Ok (squeeze s).

(** The closure [pdf_multivariate_normal] of [pdf_mixtr]. *)
Definition pdf_multivariate_normal (x mean sigma : ndarray F) : result (ndarray F) :=
  mvn_pdf x mean sigma.

Definition pdf_mixtr (mix_state : MixState F) (x : ndarray F) : result (ndarray F) :=
  let '(Build_MixState means sigmas weights) := mix_state in
  pdf <- vmap2 (pdf_multivariate_normal x) means sigmas ;;
  matmul weights pdf.

Definition transform_mixture_params (state : MixState F) (sde : SDE F) (t : ndarray F)
    : result (ndarray F * ndarray F * ndarray F) :=
  let '(Build_MixState means covs weights) := state in
  int_b <- integrate (beta sde) t (scalar f_zero) ;;
  e <- nd_mul (scalar (f_neg f_half)) int_b ;;
  let alpha := nd_map f_exp e in
  beta_ <- nd_sub (scalar f_one) (nd_map f_exp (nd_neg int_b)) ;;
  means' <- nd_mul alpha means ;;
  c1 <- nd_mul (nd_square alpha) covs ;;
  d <- last_dim covs ;;
  c2 <- nd_mul beta_ (eye d) ;;
  covs' <- nd_add c1 c2 ;;
  Ok (means', covs', weights).

Definition rho_t (x t : ndarray F) (init_mix_state : MixState F) (sde : SDE F)
    : result (ndarray F) :=
  '(means, covs, weights) <- transform_mixture_params init_mix_state sde t ;;
  pdf_mixtr (Build_MixState means covs weights) x.

Definition cdf_t (x t : ndarray F) (init_mix_state : MixState F) (sde : SDE F)
    : result (ndarray F) :=
  '(means, covs, weights) <- transform_mixture_params init_mix_state sde t ;;
  cdf_mixtr (Build_MixState means covs weights) x.

Definition sampler_mixtr (k : key) (state : MixState F) (N : nat) : result (ndarray F) :=
  let '(Build_MixState mu sigma weights) := state in
  d <- last_dim mu ;;
  let '(key1, key2) := random_split k in
  n <- len weights ;;
  idx <- random_choice key1 (arange n) [N] weights ;;
  noise <- random_normal key2 [N; d] ;;
  chol <- cholesky sigma ;;
  g <- take chol idx ;;
  noise_scaled <- einsum_nij_ni_nj g noise ;;
  m <- take mu idx ;;
  nd_add m noise_scaled.
End Mixture.

(** ** The initial mixture *)

(** The literal [0.1]. *)
Class Tenth (F : Type) : Type := f_tenth : F.

(** [jax.random.uniform(key, shape, minval=lo, maxval=hi)] for integer
    bounds, and [key + n], the arithmetic on keys that [init_mixture] uses
    to derive the keys of its second and third draws. *)
Class RandomInit (F key : Type) : Type := {
  random_uniform : key -> list nat -> Z -> Z -> result (ndarray F);
  key_add : key -> nat -> key
}.

Section InitMixture.
Context {F key : Type} `{Scalar F} `{Tenth F} `{Random F key} `{RandomInit F key}.

(** [a.transpose(0, 2, 1)]. *)
Definition transpose_021 (a : ndarray F) : result (ndarray F) :=
  match shape a with
  | [k; i; j] =>
      Ok (build [k; j; i] (fun idx =>
            match idx with
            | [p; q; r] => get a [p; r; q]
            | _ => f_zero
            end))
  | _ => Err ArgumentError
  end.

(** [jnp.sum(a)], over all the elements. *)
Definition nd_sum (a : ndarray F) : ndarray F := scalar (fsum (data a)).

Definition init_mixture (k : key) (d : nat) : result (MixState F) :=
  let n_mixt := 3 in
  means <- random_uniform k [n_mixt; d] (-3)%Z 3%Z ;;
  chol <- random_normal (key_add k 1) [n_mixt; d; d] ;;
  chol_t <- transpose_021 chol ;;
  prod <- matmul chol chol_t ;;
  covs <- nd_mul (scalar f_tenth) prod ;;
  mix_weights <- random_uniform (key_add k 2) [n_mixt] 0%Z 1%Z ;;
  mix_weights' <- nd_div mix_weights (nd_sum mix_weights) ;;
  Ok (Build_MixState means covs mix_weights').
End InitMixture.

(** ** Plotting the trajectories *)

#[export] Instance Dflt_Z : Dflt Z := 0%Z.

(** What [display_trajectories] raises: the exceptions of Python itself
    beside those of the library calls. *)
Inductive display_error : Type :=
| ZeroDivisionError        (* i / (m - 1) *)
| UnpackError              (* P, N = Y.shape *)
| IterationError           (* for ... in a 0-d array *)
| LibraryError (e : error).

(** One call of [plt.plot(line, c=[red, green, blue], alpha=0.3, linewidth=0.5)]. *)
Record plot_call (F : Type) : Type := {
  line : ndarray F;
  red : float;
  green : Z;
  blue : float;
  line_alpha : float;
  linewidth : float
}.

(** The array expressions of [display_trajectories], which only call the
    library: [jnp.round(jnp.linspace(a, b, m)).astype(jnp.int32)],
    [jnp.argsort(Y[:, -1])], [sorted_idx[idxs]] and [Y[idx, :]]. *)
Class Plotting (F : Type) : Type := {
  linspace_indices : Z -> Z -> Z -> result (ndarray Z);
  column_argsort : ndarray F -> result (ndarray Z);
  index_gather : ndarray Z -> ndarray Z -> result (ndarray Z);
  row_of : ndarray F -> ndarray Z -> result (ndarray F)
}.

(** [float(z)] for a Python integer below [2^53] in absolute value. *)
Definition py_float (z : Z) : float :=
  match z with
  | Z0 => 0%float
  | Zpos _ => PrimFloat.of_uint63 (Uint63.of_Z z)
  | Zneg p => PrimFloat.opp (PrimFloat.of_uint63 (Uint63.of_Z (Zpos p)))
  end.

(** [a / b] on Python integers: a float, or [ZeroDivisionError]. *)
Definition true_div (a b : Z) : option float :=
  if (b =? 0)%Z then None else Some (PrimFloat.div (py_float a) (py_float b)).

Section DisplayTrajectories.
Context {F : Type} `{Plotting F}.

(** The body of the loop over [enumerate(I)], from the counter [i], on the
    lines plotted so far: the lines plotted at the end, and the exception
    that stopped the loop if one did. *)
Fixpoint plot_lines (Y : ndarray F) (m : Z) (items : list (ndarray Z)) (i : Z)
    (plotted : list (plot_call F)) : list (plot_call F) * option display_error :=
  match items with
  | [] => (plotted, None)
  | idx :: rest =>
      match true_div i (m - 1) with
      | None => (plotted, Some ZeroDivisionError)
      | Some color_marker =>
          match row_of Y idx with
          | Err e => (plotted, Some (LibraryError e))
          | Ok r =>
              plot_lines Y m rest (i + 1)
                (plotted ++ [{| line := r;
                                red := color_marker;
                                green := 0;
                                blue := PrimFloat.sub 1 color_marker;
                                line_alpha := 0x1.3333333333333p-2;
                                linewidth := 0.5 |}])
          end
      end
  end.

Definition display_trajectories (Y : ndarray F) (m : Z) (plotted : list (plot_call F))
    : list (plot_call F) * option display_error :=
  match shape Y with
  | [P; N] =>
      match linspace_indices 0 (Z.of_nat P - 1) m with
      | Err e => (plotted, Some (LibraryError e))
      | Ok idxs =>
          match column_argsort Y with
          | Err e => (plotted, Some (LibraryError e))
          | Ok sorted_idx =>
              match index_gather sorted_idx idxs with
              | Err e => (plotted, Some (LibraryError e))
              | Ok I' =>
                  match shape I' with
                  | [] => (plotted, Some IterationError)
                  | n :: _ => plot_lines Y m (map (slice0 I') (seq 0 n)) 0 plotted
                  end
              end
          end
      end
  | _ => (plotted, Some UnpackError)
  end.
End DisplayTrajectories.

(** ** The two readings of the scalars *)

(** Exact arithmetic over the real numbers. *)
#[export] Instance Scalar_R : Scalar R := {
  f_zero := 0%R;
  f_one := 1%R;
  f_half := (/ 2)%R;
  f_add := Rplus;
  f_sub := Rminus;
  f_mul := Rmult;
  f_div := Rdiv;
  f_neg := Ropp;
  f_sqrt := sqrt
}.

(** IEEE 754 binary64 arithmetic, round to nearest even. *)
#[export] Instance Scalar_float : Scalar float := {
  f_zero := 0%float;
  f_one := 1%float;
  f_half := 0.5%float;
  f_add := PrimFloat.add;
  f_sub := PrimFloat.sub;
  f_mul := PrimFloat.mul;
  f_div := PrimFloat.div;
  f_neg := PrimFloat.opp;
  f_sqrt := PrimFloat.sqrt
}.

(** ** Quantities the specification names *)

(** [K] components in dimension [D]: the shapes of the three arrays of a
    state agree. *)
Definition consistent_shapes {A : Type} (st : MixState A) : Prop :=
  exists K D : nat,
    shape (means st) = [K; D] /\
    shape (cov st) = [K; D; D] /\
    shape (mix_weights st) = [K].

(** The [k]-th element of the buffer of an array: the mean, the variance
    or the weight of component [k] of a univariate mixture. *)
Definition entry {A : Type} `{Dflt A} (a : ndarray A) (k : nat) : A := nth k (data a) dflt.

(** A mixture of [K] univariate components: the three arrays are vectors
    of length [K], or the means have shape [[K; 1]] and the covariances
    shape [[K; 1; 1]] (dimension 1, as [init_mixture] builds them). *)
Definition univariate {A : Type} (st : MixState A) (K : nat) : Prop :=
  shape (mix_weights st) = [K] /\
  ((shape (means st) = [K] /\ shape (cov st) = [K]) \/
   (shape (means st) = [K; 1] /\ shape (cov st) = [K; 1; 1])).

Section SpecTerms.
Context {F : Type} `{Scalar F} `{ExpFn F} `{NormalCdf F}.

(** [alpha = exp(-0.5 * int_b)]. *)
Definition alpha_of (int_b : F) : F := f_exp (f_mul (f_neg f_half) int_b).

(** [variance_noise = 1 - exp(-int_b)]. *)
Definition variance_noise_of (int_b : F) : F := f_sub f_one (f_exp (f_neg int_b)).

(** The entry [(i, j)] of the identity matrix. *)
Definition identity_entry (i j : nat) : F := if i =? j then f_one else f_zero.

(** Coordinate [j] of [mean_k + L_k @ noise_n] for [k = idx[n]], as the
    specification writes sample [n] in dimension [D]. *)
Definition specified_sample (mu chol noise : ndarray F) (idx : ndarray nat)
    (D n j : nat) : F :=
  f_add (get mu [get idx [n]; j])
        (fsum (map (fun i => f_mul (get chol [get idx [n]; j; i]) (get noise [n; i]))
                   (seq 0 D))).

(** [sum_k weight_k * NormalCDF((x - mean_k) / sqrt(variance_k))] over the
    [K] components, as the specification writes the distribution function
    of a mixture of univariate normal laws. *)
Definition mixture_cdf (weight mean variance : nat -> F) (K : nat) (x : F) : F :=
  fsum (map (fun k =>
          f_mul (weight k) (norm_cdf (f_div (f_sub x (mean k)) (f_sqrt (variance k)))))
        (seq 0 K)).
End SpecTerms.

(** ** Monotone functions and limits at infinity *)

Definition nondecreasing (f : R -> R) : Prop :=
  forall a b : R, (a <= b)%R -> (f a <= f b)%R.

(** [f x] tends to [l] along a direction, [ord M x] reading "[x] is beyond
    [M]". *)
Definition limit_along (ord : R -> R -> Prop) (f : R -> R) (l : R) : Prop :=
  forall eps : R, (0 < eps)%R ->
    exists M : R, forall x : R, ord M x -> (Rabs (f x - l) < eps)%R.

(** [f x] tends to [l] as [x] tends to plus infinity. *)
Definition limit_at_plus_inf (f : R -> R) (l : R) : Prop :=
  forall eps : R, (0 < eps)%R ->
    exists M : R, forall x : R, (M < x)%R -> (Rabs (f x - l) < eps)%R.

(** [f x] tends to [l] as [x] tends to minus infinity. *)
Definition limit_at_minus_inf (f : R -> R) (l : R) : Prop :=
  forall eps : R, (0 < eps)%R ->
    exists M : R, forall x : R, (x < M)%R -> (Rabs (f x - l) < eps)%R.

(** [l] holds in its slice [k] the Cholesky factor of slice [k] of [a], of
    size [D]: lower triangular, of positive diagonal, with
    [l @ l^T = a]. *)
Definition cholesky_of (l a : ndarray R) (k D : nat) : Prop :=
  (forall i j, i < D -> j < D -> i < j -> get l [k; i; j] = 0%R) /\
  (forall i, i < D -> (0 < get l [k; i; i])%R) /\
  (forall i j, i < D -> j < D ->
     fsum (map (fun r => (get l [k; i; r] * get l [k; j; r])%R) (seq 0 D))
     = get a [k; i; j]).

(** The quadratic form [x^T c_k x] of the matrix [k] of a batch of [D x D]
    matrices. *)
Definition quadratic_form (c : ndarray R) (k D : nat) (x : nat -> R) : R :=
  fsum (map (fun i =>
          fsum (map (fun j => (x i * get c [k; i; j] * x j)%R) (seq 0 D)))
        (seq 0 D)).

(** ** A reference library over the reals

    One concrete library, on which the theorems below are exercised: the
    real exponential, the density of the univariate normal law, the
    Cholesky-Banachiewicz factorisation and a counter-based generator in
    place of [jax.random]. *)

Section Cholesky.
Context {F : Type} `{Scalar F}.

(** Sum of the products of the common prefix of two rows. *)
Definition dot_prefix (u v : list F) : F :=
  fsum (map (fun p => f_mul (fst p) (snd p)) (combine u v)).

(** Row [i] of the factor, from the rows above it. *)
Definition chol_row (a : nat -> nat -> F) (i : nat) (rows : list (list F)) : list F :=
  fold_left
    (fun r j =>
       let lj := if j <? i then nth j rows [] else r in
       let s := dot_prefix r lj in
       r ++ [if j <? i
             then f_div (f_sub (a i j) s) (nth j lj f_zero)
             else f_sqrt (f_sub (a i i) s)])
    (seq 0 (S i)) [].

Definition chol_rows (a : nat -> nat -> F) (n : nat) : list (list F) :=
  fold_left (fun rows i => rows ++ [chol_row a i rows]) (seq 0 n) [].

(** The lower-triangular factor of every matrix of a batch. *)
Definition cholesky_factor (a : ndarray F) : result (ndarray F) :=
  match rev (shape a) with
  | n :: m :: _ =>
      if n =? m then
        Ok (build (shape a) (fun idx =>
              let b := firstn (ndim a - 2) idx in
              let i := nth (ndim a - 2) idx 0 in
              let j := nth (ndim a - 1) idx 0 in
              nth j (nth i (chol_rows (fun p q => get a (b ++ [p; q])) n) []) f_zero))
      else Err ArgumentError
  | _ => Err ArgumentError
  end.
End Cholesky.

(** Density of the normal law of mean [m] and variance [v] at [x]. *)
Definition normal_pdf (x m v : R) : R :=
  (exp (- ((x - m) * (x - m)) / (2 * v)) / R_sqrt.sqrt (2 * PI * v))%R.

(** The density of a one-dimensional normal vector; other dimensions are
    outside this reference library. *)
Definition mvn_pdf_1d (x mean sigma : ndarray R) : result (ndarray R) :=
  match shape x, shape mean, shape sigma with
  | [1], [1], [1; 1] => Ok (scalar (normal_pdf (get x [0]) (get mean [0]) (get sigma [0; 0])))
  | _, _, _ => Err ArgumentError
  end.

(** A distribution function, of the uniform law on [[-1, 1]]: it stands
    for the normal one where an example needs a computable one. *)
Definition ramp_cdf (x : R) : R := Rmax 0 (Rmin 1 ((x + 1) / 2)).

(** A counter-based generator: the draws of a key are numbered from it. *)
Definition counter_split (k : nat) : nat * nat := (2 * k + 1, 2 * k + 2).

Definition counter_choice {F : Type} (k : nat) (a : ndarray nat) (s : list nat)
    (p : ndarray F) : result (ndarray nat) :=
  match shape a, shape p with
  | [n], [n'] =>
      if n =? n'
      then Ok (build s (fun idx => get a ((k + ravel s idx) mod n :: nil)))
      else Err ArgumentError
  | _, _ => Err ArgumentError
  end.

Definition counter_normal (k : nat) (s : list nat) : result (ndarray R) :=
  Ok (build s (fun idx => INR (S (k + ravel s idx)))).

#[export] Instance ExpFn_R : ExpFn R := {| f_exp := exp |}.
#[export] Instance NormalCdf_R : NormalCdf R := {| norm_cdf := ramp_cdf |}.
#[export] Instance NormalPdf_R : NormalPdf R := {| mvn_pdf := mvn_pdf_1d |}.
#[export] Instance Factor_R : Factor R := {| cholesky := cholesky_factor |}.
#[export] Instance Random_R : Random R nat := {|
  random_split := counter_split;
  random_choice := counter_choice;
  random_normal := counter_normal
|}.

(** The same distribution function in binary64 arithmetic; a NaN fails
    both comparisons and comes out of the last branch as a NaN. *)
Definition ramp_cdf_float (x : float) : float :=
  if PrimFloat.ltb x (-1)%float then 0%float
  else if PrimFloat.ltb 1%float x then 1%float
  else ((x + 1) / 2)%float.

#[export] Instance NormalCdf_float : NormalCdf float := {| norm_cdf := ramp_cdf_float |}.

(** The literal [0.1] and uniform draws for the examples: the draws of a
    key lie strictly between the bounds, and [key + n] is the addition of
    counters. *)
#[export] Instance Tenth_R : Tenth R := (/ 10)%R.

Definition uniform_draw (k : nat) (s : list nat) (lo hi : Z) : ndarray R :=
  build s (fun idx => (IZR lo + (IZR hi - IZR lo) / INR (S (S (k + ravel s idx))))%R).

Definition counter_uniform (k : nat) (s : list nat) (lo hi : Z) : result (ndarray R) :=
  Ok (uniform_draw k s lo hi).

(** The array that [counter_normal] returns. *)
Definition normal_draw (k : nat) (s : list nat) : ndarray R :=
  build s (fun idx => INR (S (k + ravel s idx))).

#[export] Instance RandomInit_R : RandomInit R nat := {|
  random_uniform := counter_uniform;
  key_add := Nat.add
|}.

(** Array expressions of the plotting helper for the examples: [m] copies
    of the first bound, the order of the rows as they are, and gathers
    that read the index given (stored as a natural number). *)
#[export] Instance Plotting_R : Plotting R := {|
  linspace_indices := fun a b m => Ok (mk_nd [Z.to_nat m] (repeat a (Z.to_nat m)));
  column_argsort := fun Y => Ok (build (firstn 1 (shape Y)) (fun idx => Z.of_nat (hd 0 idx)));
  index_gather := fun a idx =>
    Ok (build (shape idx) (fun i => get a [Z.to_nat (get idx i)]));
  row_of := fun Y idx =>
    Ok (build (skipn 1 (shape Y)) (fun j => get Y (Z.to_nat (item idx) :: j)))
|}.

(** The schedule of constant rate 1: its integral from [s] to [t] is [t - s]. *)
Definition unit_schedule : Schedule R := {| integrate := fun t s => nd_sub t s |}.
Definition unit_sde : SDE R := {| beta := unit_schedule |}.

(** ** Mixture states used as examples *)

(** One component in dimension 1: mean 0, covariance 1, weight 1. *)
Definition standard_state : MixState R := {|
  means := mk_nd [1; 1] [0%R];
  cov := mk_nd [1; 1; 1] [1%R];
  mix_weights := mk_nd [1] [1%R]
|}.

(** One component in dimension 2 with correlated coordinates: its
    covariance [[1, 1], [1, 2]] has the Cholesky factor [[1, 0], [1, 1]]. *)
Definition skew_state : MixState R := {|
  means := mk_nd [1; 2] [0; 0]%R;
  cov := mk_nd [1; 2; 2] [1; 1; 1; 2]%R;
  mix_weights := mk_nd [1] [1%R]
|}.


(** Two univariate components in binary64, the second one of variance 0. *)
Definition degenerate_state : MixState float := {|
  means := mk_nd [2] [0; 1]%float;
  cov := mk_nd [2] [1; 0]%float;
  mix_weights := mk_nd [2] [0.5; 0.5]%float
|}.

(** Two components in dimension 2. *)
Definition two_by_two_state : MixState R := {|
  means := mk_nd [2; 2] [0; 0; 1; 2]%R;
  cov := mk_nd [2; 2; 2] [1; 0; 0; 1; 2; 1; 1; 2]%R;
  mix_weights := mk_nd [2] [/ 4; 3 / 4]%R
|}.

(** Two univariate components given as three vectors, of variances 1 and 4. *)
Definition variance_vector_state : MixState R := {|
  means := mk_nd [2] [0; 1]%R;
  cov := mk_nd [2] [1; 4]%R;
  mix_weights := mk_nd [2] [/ 2; / 2]%R
|}.

(** States with a covariance array that is no batch of square matrices: a
    0-d array, a [2 x 3] matrix, a [1 x 2] row. *)
Definition scalar_covariance_state : MixState R := {|
  means := mk_nd [1; 1] [0%R];
  cov := scalar 1%R;
  mix_weights := mk_nd [1] [1%R]
|}.

Definition rectangular_state : MixState R := {|
  means := mk_nd [1; 2] [0; 0]%R;
  cov := mk_nd [1; 2; 3] [1; 0; 0; 0; 1; 0]%R;
  mix_weights := mk_nd [1] [1%R]
|}.

Definition row_covariance_state : MixState R := {|
  means := mk_nd [1; 2] [0; 0]%R;
  cov := mk_nd [1; 1; 2] [1; 2]%R;
  mix_weights := mk_nd [1] [1%R]
|}.

(** Two components in dimension 1, in the layout of [init_mixture]. *)
Definition two_component_state : MixState R := {|
  means := mk_nd [2; 1] [0; 1]%R;
  cov := mk_nd [2; 1; 1] [1; 4]%R;
  mix_weights := mk_nd [2] [/ 2; / 2]%R
|}.

(** A density for the examples at a batch of points in dimension 1: one
    value for each row of [x]. *)
Definition mvn_pdf_1d_batch (x mean sigma : ndarray R) : result (ndarray R) :=
  match shape x, shape mean, shape sigma with
  | [n; 1], [1], [1; 1] =>
      Ok (build [n] (fun idx =>
            normal_pdf (get x (idx ++ [0])) (get mean [0]) (get sigma [0; 0])))
  | _, _, _ => Err ArgumentError
  end.

Definition NormalPdf_batch : NormalPdf R := {| mvn_pdf := mvn_pdf_1d_batch |}.

(** One component in dimension 2 with independent coordinates of
    variance 1. *)
Definition diagonal_state : MixState R := {|
  means := mk_nd [1; 2] [0; 0]%R;
  cov := mk_nd [1; 2; 2] [1; 0; 0; 1]%R;
  mix_weights := mk_nd [1] [1%R]
|}.

(** Means in dimension 3 beside covariances in dimension 2. *)
Definition crossed_state : MixState R := {|
  means := mk_nd [1; 3] [0; 0; 0]%R;
  cov := mk_nd [1; 2; 2] [1; 0; 0; 1]%R;
  mix_weights := mk_nd [1] [1%R]
|}.

(** Two trajectories of two steps. *)
Definition two_trajectories : ndarray R := mk_nd [2; 2] [0; 1; 2; 3]%R.


(* ================================================================== *)
(** * Properties of the array operations *)

(** ** Row-major indexing *)

Lemma length_indices (s : list nat) : length (indices s) = size s.
Proof.
  induction s as [|n s IH]; simpl; [reflexivity|].
  generalize 0 as a.
  induction n as [|n IHn]; intros a; simpl; [reflexivity|].
  rewrite length_app, length_map, IH, IHn. reflexivity.
Qed.

Lemma nth_flat_map_seq {A : Type} (g : nat -> list A) (m : nat) (d : A) :
  (forall i, length (g i) = m) ->
  forall n a i r, i < n -> r < m ->
    nth (i * m + r) (flat_map g (seq a n)) d = nth r (g (a + i)) d.
Proof.
  intros Hg n; induction n as [|n IH]; intros a i r Hi Hr; [lia|].
  simpl. destruct i as [|i].
  - simpl. rewrite app_nth1 by (rewrite Hg; exact Hr).
    now rewrite Nat.add_0_r.
  - rewrite app_nth2 by (rewrite Hg; simpl; lia).
    rewrite Hg. replace (S i * m + r - m) with (i * m + r) by (simpl; lia).
    rewrite IH by lia. f_equal. f_equal. lia.
Qed.

Lemma in_shape_length (idx s : list nat) : in_shape idx s -> length idx = length s.
Proof. intros Hv; induction Hv; simpl; congruence. Qed.

Lemma ravel_lt (s idx : list nat) : in_shape idx s -> ravel s idx < size s.
Proof.
  intros Hv; induction Hv as [|i n idx s Hi Hv IH]; simpl; [lia|].
  fold (size s). nia.
Qed.

Lemma nth_ravel_indices (s idx d : list nat) :
  in_shape idx s -> nth (ravel s idx) (indices s) d = idx.
Proof.
  intros Hv; induction Hv as [|i n idx s Hi Hv IH]; [reflexivity|].
  simpl. rewrite nth_flat_map_seq with (m := size s).
  - simpl. rewrite nth_indep with (d' := i :: d)
      by (rewrite length_map, length_indices; now apply ravel_lt).
    rewrite (map_nth (cons i)). now rewrite IH.
  - intros j. now rewrite length_map, length_indices.
  - exact Hi.
  - now apply ravel_lt.
Qed.

Lemma in_indices (s idx : list nat) : In idx (indices s) -> in_shape idx s.
Proof.
  revert idx; induction s as [|n s IH]; intros idx; simpl.
  - intros [<-|[]]. constructor.
  - rewrite in_flat_map. intros (i & Hi & Hin).
    apply in_map_iff in Hin. destruct Hin as (idx' & <- & Hin).
    apply in_seq in Hi. constructor; [lia | now apply IH].
Qed.

Lemma flat_map_seq_blocks (m n a : nat) :
  flat_map (fun i => seq (i * m) m) (seq a n) = seq (a * m) (n * m).
Proof.
  revert a; induction n as [|n IH]; intros a; simpl; [reflexivity|].
  rewrite IH, seq_app. f_equal. f_equal. simpl. lia.
Qed.

Lemma map_ravel_indices (s : list nat) : map (ravel s) (indices s) = seq 0 (size s).
Proof.
  induction s as [|n s IH]; [reflexivity|].
  simpl. fold (size s).
  change (seq 0 (n * size s)) with (seq (0 * size s) (n * size s)).
  rewrite <- (flat_map_seq_blocks (size s) n 0).
  rewrite flat_map_concat_map, concat_map, map_map, <- flat_map_concat_map.
  apply flat_map_ext. intros i.
  rewrite map_map. simpl.
  rewrite <- (map_map (ravel s) (fun r => i * size s + r)), IH.
  clear. generalize (i * size s) as b. generalize (size s) as m. intros m b.
  replace (seq b m) with (seq (b + 0) m) by (now rewrite Nat.add_0_r).
  generalize 0 as c.
  induction m as [|m IHm]; intros c; simpl; [reflexivity|].
  f_equal. rewrite IHm. now rewrite Nat.add_succ_r.
Qed.

Lemma map_nth_seq_id {A : Type} (l : list A) (d : A) :
  map (fun r => nth r l d) (seq 0 (length l)) = l.
Proof.
  apply nth_ext with (d := d) (d' := d).
  - now rewrite length_map, length_seq.
  - intros n Hn. rewrite length_map, length_seq in Hn.
    rewrite nth_indep with (d' := nth 0 l d)
      by now rewrite length_map, length_seq.
    rewrite (map_nth (fun r => nth r l d) (seq 0 (length l)) 0 n).
    now rewrite seq_nth.
Qed.

(** ** [build] and [get] *)

Section BuildGet.
Context {A : Type} `{Dflt A}.

Lemma get_build (s : list nat) (f : list nat -> A) (idx : list nat) :
  in_shape idx s -> get (build s f) idx = f idx.
Proof.
  intros Hv. unfold get, build; simpl.
  rewrite nth_indep with (d' := f [])
    by (rewrite length_map, length_indices; now apply ravel_lt).
  rewrite map_nth. now rewrite nth_ravel_indices.
Qed.

Lemma build_ext (s : list nat) (f g : list nat -> A) :
  (forall idx, in_shape idx s -> f idx = g idx) -> build s f = build s g.
Proof.
  intros Hfg. unfold build. f_equal. apply map_ext_in.
  intros idx Hin. apply Hfg. now apply in_indices.
Qed.

Lemma wf_build (s : list nat) (f : list nat -> A) : wf (build s f).
Proof. unfold wf, build; simpl. now rewrite length_map, length_indices. Qed.

Lemma build_get_id (a : ndarray A) : wf a -> build (shape a) (get a) = a.
Proof.
  destruct a as [s d]; unfold wf, build, get; simpl; intros Hwf. f_equal.
  rewrite <- (map_map (ravel s) (fun r => nth r d dflt)).
  rewrite map_ravel_indices, <- Hwf. apply map_nth_seq_id.
Qed.

Lemma get_scalar (x : A) (idx : list nat) : get (scalar x) idx = x.
Proof. unfold get, scalar; simpl. now destruct idx. Qed.
End BuildGet.

(** ** Broadcasting *)

Lemma bdim_refl (a : nat) : bdim a a = Some a.
Proof. unfold bdim. now rewrite Nat.eqb_refl. Qed.

Lemma bdim_1_r (a : nat) : bdim a 1 = Some a.
Proof.
  unfold bdim. destruct (a =? 1) eqn:E; [|reflexivity].
  apply Nat.eqb_eq in E. now subst.
Qed.

Lemma bdim_1_l (b : nat) : bdim 1 b = Some b.
Proof.
  unfold bdim. destruct (1 =? b) eqn:E; [|reflexivity].
  apply Nat.eqb_eq in E. now subst.
Qed.

Lemma bzip_refl (s : list nat) : bzip s s = Some s.
Proof. induction s as [|a s IH]; simpl; [reflexivity|]. now rewrite bdim_refl, IH. Qed.

Lemma bzip_ones_r (s : list nat) : bzip s (repeat 1 (length s)) = Some s.
Proof. induction s as [|a s IH]; simpl; [reflexivity|]. now rewrite bdim_1_r, IH. Qed.

Lemma bzip_ones_l (s : list nat) : bzip (repeat 1 (length s)) s = Some s.
Proof. induction s as [|a s IH]; simpl; [reflexivity|]. now rewrite bdim_1_l, IH. Qed.

Lemma broadcast_shapes_refl (s : list nat) : broadcast_shapes s s = Some s.
Proof.
  unfold broadcast_shapes, pad. rewrite Nat.max_id, Nat.sub_diag. simpl.
  apply bzip_refl.
Qed.

Lemma broadcast_shapes_nil_r (s : list nat) : broadcast_shapes s [] = Some s.
Proof.
  unfold broadcast_shapes, pad. simpl. rewrite Nat.max_0_r, Nat.sub_diag, Nat.sub_0_r.
  simpl. rewrite app_nil_r. apply bzip_ones_r.
Qed.

Lemma broadcast_shapes_nil_l (s : list nat) : broadcast_shapes [] s = Some s.
Proof.
  unfold broadcast_shapes, pad. simpl. rewrite Nat.sub_diag, Nat.sub_0_r.
  simpl. rewrite app_nil_r. apply bzip_ones_l.
Qed.

Lemma bsel_self (s idx : list nat) : in_shape idx s -> bsel s idx = idx.
Proof.
  intros Hv; induction Hv as [|i n idx s Hi Hv IH]; [reflexivity|].
  simpl. rewrite IH. destruct (n =? 1) eqn:E; [|reflexivity].
  apply Nat.eqb_eq in E. f_equal. lia.
Qed.

Lemma bidx_self (s idx : list nat) : in_shape idx s -> bidx s idx = idx.
Proof.
  intros Hv. unfold bidx. rewrite (in_shape_length Hv), Nat.sub_diag. simpl.
  now apply bsel_self.
Qed.

Lemma bidx_nil (idx : list nat) : bidx [] idx = [].
Proof. reflexivity. Qed.

(** Against a shape of ones of no greater rank, a shape is unchanged and
    the operand is read at index 0 along each of its axes. *)
Lemma broadcast_shapes_ones_r (s : list nat) (m : nat) :
  m <= length s -> broadcast_shapes s (repeat 1 m) = Some s.
Proof.
  intros Hm. unfold broadcast_shapes, pad. rewrite repeat_length.
  rewrite Nat.max_l by exact Hm. rewrite Nat.sub_diag. cbn [repeat app].
  rewrite <- repeat_app. replace (length s - m + m) with (length s) by lia.
  apply bzip_ones_r.
Qed.

Lemma bsel_ones (m : nat) (idx : list nat) :
  m <= length idx -> bsel (repeat 1 m) idx = repeat 0 m.
Proof.
  revert idx; induction m as [|m IH]; intros idx Hm; [reflexivity|].
  destruct idx as [|i idx]; [simpl in Hm; lia|].
  cbn. rewrite IH by (simpl in Hm; lia). reflexivity.
Qed.

Lemma bidx_ones (m : nat) (idx : list nat) :
  m <= length idx -> bidx (repeat 1 m) idx = repeat 0 m.
Proof.
  intros Hm. unfold bidx. apply bsel_ones.
  rewrite length_skipn, repeat_length. lia.
Qed.

Section Map2.
Context {A : Type} `{Dflt A}.

Lemma nd_map2_ones_r (f : A -> A -> A) (a b : ndarray A) (m : nat) :
  shape b = repeat 1 m -> m <= ndim a ->
  nd_map2 f a b = Ok (build (shape a) (fun idx => f (get a idx) (get b (repeat 0 m)))).
Proof.
  intros Hb Hm. unfold nd_map2. rewrite Hb, (broadcast_shapes_ones_r _ Hm).
  f_equal. apply build_ext. intros idx Hv.
  rewrite (bidx_self Hv), bidx_ones; [reflexivity|].
  rewrite (in_shape_length Hv). exact Hm.
Qed.

Lemma nd_map2_scalar_l (f : A -> A -> A) (a b : ndarray A) :
  shape a = [] ->
  nd_map2 f a b = Ok (build (shape b) (fun idx => f (item a) (get b idx))).
Proof.
  intros Ha. unfold nd_map2. rewrite Ha, broadcast_shapes_nil_l.
  f_equal. apply build_ext. intros idx Hv.
  now rewrite bidx_nil, (bidx_self Hv).
Qed.

Lemma nd_map2_scalar_r (f : A -> A -> A) (a b : ndarray A) :
  shape b = [] ->
  nd_map2 f a b = Ok (build (shape a) (fun idx => f (get a idx) (item b))).
Proof.
  intros Hb. unfold nd_map2. rewrite Hb, broadcast_shapes_nil_r.
  f_equal. apply build_ext. intros idx Hv.
  now rewrite bidx_nil, (bidx_self Hv).
Qed.

Lemma nd_map2_same (f : A -> A -> A) (a b : ndarray A) :
  shape a = shape b ->
  nd_map2 f a b = Ok (build (shape a) (fun idx => f (get a idx) (get b idx))).
Proof.
  intros Hab. unfold nd_map2. rewrite <- Hab, broadcast_shapes_refl.
  f_equal. apply build_ext. intros idx Hv.
  now rewrite (bidx_self Hv).
Qed.
End Map2.

(** A batch of square matrices against one square matrix: the matrix is
    repeated over the batch. *)
Lemma broadcast_shapes_batch (k d : nat) :
  broadcast_shapes [k; d; d] [d; d] = Some [k; d; d].
Proof.
  unfold broadcast_shapes, pad; simpl.
  now rewrite bdim_1_r, !bdim_refl.
Qed.

Lemma bidx_batch (d k i j : nat) : i < d -> j < d -> bidx [d; d] [k; i; j] = [i; j].
Proof.
  intros Hi Hj. unfold bidx; simpl.
  destruct (d =? 1) eqn:E; [|reflexivity].
  apply Nat.eqb_eq in E. repeat f_equal; lia.
Qed.

(** ** The array operations on concrete arrays *)

Example broadcast_shapes_ok : broadcast_shapes [3; 1; 1] [4] = Some [3; 1; 4].
Proof. reflexivity. Qed.

Example broadcast_shapes_refused : broadcast_shapes [2; 3] [3; 3] = None.
Proof. reflexivity. Qed.

Example nd_add_column_row :
  nd_add (mk_nd [2; 1] [10; 20]%float) (mk_nd [3] [1; 2; 3]%float)
  = Ok (mk_nd [2; 3] [11; 12; 13; 21; 22; 23]%float).
Proof. vm_compute. reflexivity. Qed.

Example squeeze_singletons :
  squeeze (mk_nd [1; 3; 1] [1; 2; 3]%float) = mk_nd [3] [1; 2; 3]%float.
Proof. reflexivity. Qed.

Example nd_sum0_rows :
  nd_sum0 (mk_nd [2; 3] [1; 2; 3; 4; 5; 6]%float) = Ok (mk_nd [3] [5; 7; 9]%float).
Proof. vm_compute. reflexivity. Qed.

Example matmul_vector_matrix :
  matmul (mk_nd [2] [1; 2]%float) (mk_nd [2; 3] [1; 2; 3; 4; 5; 6]%float)
  = Ok (mk_nd [3] [9; 12; 15]%float).
Proof. vm_compute. reflexivity. Qed.

Example matmul_refused :
  matmul (mk_nd [2] [1; 2]%float) (mk_nd [3] [1; 2; 3]%float) = Err ContractionError.
Proof. reflexivity. Qed.

Example take_clamps :
  take (mk_nd [2; 2] [1; 2; 3; 4]%float) (mk_nd [3] [0; 1; 5])
  = Ok (mk_nd [3; 2] [1; 2; 3; 4; 3; 4]%float).
Proof. vm_compute. reflexivity. Qed.

(** The contraction of [einsum("nij, ni->nj")] runs over the rows of the
    matrix: on [[1, 0], [1, 1]] and [(3, 4)] it gives [(7, 4)]. *)
Example einsum_contracts_rows :
  einsum_nij_ni_nj (mk_nd [1; 2; 2] [1; 0; 1; 1]%float) (mk_nd [1; 2] [3; 4]%float)
  = Ok (mk_nd [1; 2] [7; 4]%float).
Proof. vm_compute. reflexivity. Qed.

Example cholesky_factor_3x3 :
  cholesky_factor (mk_nd [3; 3] [4; 12; -16; 12; 37; -43; -16; -43; 98]%float)
  = Ok (mk_nd [3; 3] [2; 0; 0; 6; 1; 0; -8; 5; 3]%float).
Proof. vm_compute. reflexivity. Qed.

(** ** Operations on 0-d arrays *)

Section ZeroDim.
Context {A : Type} `{Dflt A}.

Lemma nd_map2_item (f : A -> A -> A) (a b : ndarray A) :
  shape a = [] -> shape b = [] -> nd_map2 f a b = Ok (scalar (f (item a) (item b))).
Proof.
  intros Ha Hb. unfold nd_map2. rewrite Ha, Hb. reflexivity.
Qed.

Lemma nd_map_item (f : A -> A) (a : ndarray A) :
  shape a = [] -> nd_map f a = scalar (f (item a)).
Proof. intros Ha. unfold nd_map. rewrite Ha. reflexivity. Qed.

Lemma item_scalar (x : A) : item (scalar x) = x.
Proof. reflexivity. Qed.
End ZeroDim.

Ltac in_shape_tac := unfold in_shape; repeat constructor; (assumption || lia).

(* ================================================================== *)
(** * The mixture transform *)

Section Transform.
Context {F : Type} `{Scalar F} `{ExpFn F}.

(** What the transform returns at a scalar time, for any means array and
    a batch of square covariance matrices. *)
Lemma transform_scalar_time (st : MixState F) (sde : SDE F) (t int_b : ndarray F)
    (K D : nat) :
  integrate (beta sde) t (scalar f_zero) = Ok int_b ->
  shape int_b = [] ->
  shape (cov st) = [K; D; D] ->
  transform_mixture_params st sde t =
    Ok (build (shape (means st))
          (fun idx => f_mul (alpha_of (item int_b)) (get (means st) idx)),
        build [K; D; D]
          (fun idx =>
             f_add (f_mul (f_mul (alpha_of (item int_b)) (alpha_of (item int_b)))
                          (get (cov st) idx))
                   (f_mul (variance_noise_of (item int_b))
                          (get (eye D) (bidx [D; D] idx)))),
        mix_weights st).
Proof.
  intros Hint Hs Hc. destruct st as [mu cv w]; simpl in *.
  unfold transform_mixture_params. rewrite Hint. cbn [bind].
  unfold nd_mul at 1. rewrite (nd_map2_item _ (scalar (f_neg f_half)) int_b eq_refl Hs).
  cbn [bind]. rewrite item_scalar.
  unfold nd_neg, nd_sub. rewrite (nd_map_item f_neg int_b Hs).
  rewrite !(nd_map_item f_exp (scalar _) eq_refl), !item_scalar.
  rewrite (nd_map2_item f_sub (scalar f_one) (scalar _) eq_refl eq_refl).
  cbn [bind]. rewrite !item_scalar.
  fold (alpha_of (item int_b)). fold (variance_noise_of (item int_b)).
  unfold nd_mul at 1. rewrite (nd_map2_scalar_l _ (scalar _) mu eq_refl).
  cbn [bind]. rewrite item_scalar.
  unfold nd_square. rewrite (nd_map_item _ (scalar _) eq_refl), item_scalar.
  unfold nd_mul at 1. rewrite (nd_map2_scalar_l _ (scalar _) cv eq_refl).
  cbn [bind]. rewrite item_scalar, Hc.
  unfold last_dim. rewrite Hc. cbn [rev app bind].
  unfold nd_mul. rewrite (nd_map2_scalar_l _ (scalar _) (eye D) eq_refl).
  cbn [bind]. rewrite item_scalar.
  unfold nd_add, nd_map2. cbn [shape build eye]. rewrite broadcast_shapes_batch.
  cbn [bind]. f_equal. f_equal. f_equal. apply build_ext. intros idx Hv.
  rewrite (bidx_self Hv), (get_build _ Hv). f_equal.
  assert (Hv2 : in_shape (bidx [D; D] idx) [D; D]).
  { inversion Hv as [|k ? idx1 ? Hk Hv1]; subst.
    inversion Hv1 as [|i ? idx2 ? Hi Hv2]; subst.
    inversion Hv2 as [|j ? idx3 ? Hj Hv3]; subst.
    inversion Hv3; subst. rewrite bidx_batch by assumption. in_shape_tac. }
  now rewrite (get_build _ Hv2).
Qed.

(** C1. At a scalar time [t], with [int_b = sde.beta.integrate(t, 0)],
    [alpha = exp(-0.5 * int_b)] and [variance_noise = 1 - exp(-int_b)],
    [transform_mixture_params] returns, for [K] components in dimension
    [D], the means [alpha * means] and the covariances
    [alpha^2 * covariances + variance_noise * Identity(D)], entry by
    entry, in arrays of the shapes of the inputs. *)
Theorem transform_mixture_params_closed_form
    (st : MixState F) (sde : SDE F) (t int_b : ndarray F) (K D : nat) :
  integrate (beta sde) t (scalar f_zero) = Ok int_b ->
  shape int_b = [] ->
  shape (means st) = [K; D] ->
  shape (cov st) = [K; D; D] ->
  exists means' covs' weights',
    transform_mixture_params st sde t = Ok (means', covs', weights') /\
    shape means' = [K; D] /\
    shape covs' = [K; D; D] /\
    (forall k d, k < K -> d < D ->
       get means' [k; d] = f_mul (alpha_of (item int_b)) (get (means st) [k; d])) /\
    (forall k i j, k < K -> i < D -> j < D ->
       get covs' [k; i; j] =
         f_add (f_mul (f_mul (alpha_of (item int_b)) (alpha_of (item int_b)))
                      (get (cov st) [k; i; j]))
               (f_mul (variance_noise_of (item int_b)) (identity_entry i j))).
Proof.
  intros Hint Hs Hm Hc.
  rewrite (transform_scalar_time st sde t Hint Hs Hc), Hm.
  do 3 eexists. split; [reflexivity|].
  split; [reflexivity|]. split; [reflexivity|]. split.
  - intros k d Hk Hd. rewrite get_build by in_shape_tac. reflexivity.
  - intros k i j Hk Hi Hj. rewrite get_build by in_shape_tac.
    rewrite bidx_batch by assumption.
    unfold eye. rewrite get_build by in_shape_tac. reflexivity.
Qed.

(** C3. Whatever the state, the schedule and the time, a result of
    [transform_mixture_params] carries the weights of its input
    unchanged; and at a scalar time, on a batch of square covariance
    matrices, there is such a result. *)
Theorem transform_mixture_params_weights
    (st : MixState F) (sde : SDE F) (t : ndarray F) :
  (forall means' covs' weights',
      transform_mixture_params st sde t = Ok (means', covs', weights') ->
      weights' = mix_weights st) /\
  (forall int_b K D,
      integrate (beta sde) t (scalar f_zero) = Ok int_b ->
      shape int_b = [] ->
      shape (cov st) = [K; D; D] ->
      exists means' covs',
        transform_mixture_params st sde t = Ok (means', covs', mix_weights st)).
Proof.
  split.
  - intros m c w. destruct st as [mu cv wt]; simpl.
    unfold transform_mixture_params.
    repeat match goal with
           | |- bind ?e _ = Ok _ -> _ => destruct e; cbn [bind]; [|discriminate]
           end.
    intros [= _ _ <-]. reflexivity.
  - intros int_b K D Hint Hs Hc.
    rewrite (transform_scalar_time st sde t Hint Hs Hc). eauto.
Qed.
End Transform.

Section TransformReal.
Context `{ExpFn R}.
Local Open Scope R_scope.

(** C4. In exact arithmetic, with a library exponential that maps 0 to 1
    and a schedule whose integral from 0 to 0 is 0, the transform at
    [t = 0] returns the means, the covariances and the weights of its
    input. *)
Theorem transform_mixture_params_at_zero (st : MixState R) (sde : SDE R) (K D : nat) :
  f_exp 0 = 1 ->
  integrate (beta sde) (scalar 0) (scalar 0) = Ok (scalar 0) ->
  wf (means st) ->
  wf (cov st) ->
  shape (cov st) = [K; D; D] ->
  transform_mixture_params st sde (scalar 0) = Ok (means st, cov st, mix_weights st).
Proof.
  intros Hexp Hint Hwm Hwc Hc.
  rewrite (@transform_scalar_time R Scalar_R _ st sde (scalar 0) (scalar 0) K D
             Hint eq_refl Hc).
  rewrite item_scalar.
  assert (Ha : alpha_of 0 = 1).
  { unfold alpha_of; simpl. now rewrite Rmult_0_r. }
  assert (Hv : variance_noise_of 0 = 0).
  { unfold variance_noise_of; simpl. rewrite Ropp_0, Hexp. lra. }
  rewrite Ha, Hv. f_equal. f_equal. f_equal.
  - etransitivity; [|exact (build_get_id Hwm)]. apply build_ext.
    intros idx _. simpl. lra.
  - etransitivity; [|exact (build_get_id Hwc)]. rewrite Hc. apply build_ext.
    intros idx _. simpl. lra.
Qed.
End TransformReal.

(** The closed form on two components in dimension 2, at time 1 under the
    schedule of rate 1. *)
Lemma transform_mixture_params_closed_form_witness :
  exists means' covs' weights',
    transform_mixture_params two_by_two_state unit_sde (scalar 1%R)
      = Ok (means', covs', weights') /\
    shape means' = [2; 2] /\
    shape covs' = [2; 2; 2] /\
    (forall k d, k < 2 -> d < 2 ->
       get means' [k; d]
       = f_mul (alpha_of (item (scalar (1 - 0)%R))) (get (means two_by_two_state) [k; d])) /\
    (forall k i j, k < 2 -> i < 2 -> j < 2 ->
       get covs' [k; i; j] =
         f_add (f_mul (f_mul (alpha_of (item (scalar (1 - 0)%R)))
                             (alpha_of (item (scalar (1 - 0)%R))))
                      (get (cov two_by_two_state) [k; i; j]))
               (f_mul (variance_noise_of (item (scalar (1 - 0)%R))) (identity_entry i j))).
Proof.
  apply (@transform_mixture_params_closed_form R Scalar_R ExpFn_R
           two_by_two_state unit_sde (scalar 1%R) (scalar (1 - 0)%R) 2 2);
    reflexivity.
Defined.

Lemma transform_mixture_params_weights_witness :
  (forall means' covs' weights',
      transform_mixture_params two_by_two_state unit_sde (scalar 1%R)
        = Ok (means', covs', weights') ->
      weights' = mix_weights two_by_two_state) /\
  exists means' covs',
    transform_mixture_params two_by_two_state unit_sde (scalar 1%R)
      = Ok (means', covs', mix_weights two_by_two_state).
Proof.
  destruct (transform_mixture_params_weights two_by_two_state unit_sde (scalar 1%R))
    as [Hframe Hres].
  split; [exact Hframe|].
  apply (Hres (scalar (1 - 0)%R) 2 2); reflexivity.
Defined.

Lemma transform_mixture_params_at_zero_witness :
  transform_mixture_params two_by_two_state unit_sde (scalar 0%R)
  = Ok (means two_by_two_state, cov two_by_two_state, mix_weights two_by_two_state).
Proof.
  apply (@transform_mixture_params_at_zero ExpFn_R two_by_two_state unit_sde 2 2).
  - exact exp_0.
  - simpl. unfold nd_sub, nd_map2; simpl. unfold build; simpl.
    unfold scalar, get; simpl. do 3 f_equal. apply Rminus_0_r.
  - reflexivity.
  - reflexivity.
  - reflexivity.
Defined.

(* ================================================================== *)
(** * The vectorised map and the reduction over components *)

Lemma mapM_ok {A B : Type} (f : A -> result B) (g : A -> B) (l : list A) :
  (forall a, In a l -> f a = Ok (g a)) -> mapM f l = Ok (map g l).
Proof.
  induction l as [|a l IH]; intros Hf; simpl; [reflexivity|].
  rewrite (Hf a) by now left. cbn [bind].
  rewrite IH by (intros b Hb; apply Hf; now right). reflexivity.
Qed.

Section Stacked.
Context {F : Type} `{Scalar F}.

(** When every per-slice call returns an array of shape [s], the stacked
    result has shape [k :: s] and holds the results in order. *)
Lemma stacked_ok (k : nat) (body : nat -> result (ndarray F)) (r : nat -> ndarray F)
    (s : list nat) :
  (forall i, body i = Ok (r i)) ->
  (forall i, shape (r i) = s) ->
  stacked k body =
    Ok (build (k :: s) (fun idx =>
          match idx with
          | i :: idx' => get (r i) idx'
          | [] => f_zero
          end)).
Proof.
  intros Hb Hs. unfold stacked. rewrite Hb. cbn [bind].
  rewrite (mapM_ok body r) by (intros; apply Hb). cbn [bind].
  rewrite Hs. f_equal. apply build_ext. intros idx Hv.
  inversion Hv as [|i n idx' s' Hi Hv']; subst.
  rewrite map_nth, seq_nth by exact Hi. reflexivity.
Qed.

Lemma nd_sum0_build (k : nat) (s : list nat) (g : list nat -> F) :
  nd_sum0 (build (k :: s) g) =
    Ok (build s (fun idx => fsum (map (fun i => g (i :: idx)) (seq 0 k)))).
Proof.
  unfold nd_sum0. cbn [shape build]. f_equal. apply build_ext. intros idx Hv.
  f_equal. apply map_ext_in. intros i Hi. apply in_seq in Hi.
  apply get_build. constructor; [lia | exact Hv].
Qed.

Lemma squeeze_build_one (s : list nat) (g : list nat -> F) :
  squeeze (build (1 :: s) g) = squeeze (build s (fun idx => g (0 :: idx))).
Proof.
  unfold squeeze, build; simpl. f_equal.
  now rewrite app_nil_r, map_map.
Qed.

Lemma slice0_vector (a : ndarray F) (k i : nat) :
  shape a = [k] -> slice0 a i = scalar (get a [i]).
Proof. intros Ha. unfold slice0. rewrite Ha. reflexivity. Qed.
End Stacked.

(* ================================================================== *)
(** * The distribution function of the mixture *)

Section Cdf.
Context {F : Type} `{Scalar F} `{NormalCdf F}.

(** One component with a scalar mean, standard deviation and weight. *)
Lemma single_cdf_scalars (x mean std weight : ndarray F) :
  shape mean = [] -> shape std = [] -> shape weight = [] ->
  single_cdf x mean std weight =
    Ok (build (shape x) (fun idx =>
          f_mul (item weight)
                (norm_cdf (f_div (f_sub (get x idx) (item mean)) (item std))))).
Proof.
  intros Hm Hs Hw. unfold single_cdf, nd_sub, nd_div, nd_mul.
  rewrite (nd_map2_scalar_r f_sub x mean Hm). cbn [bind].
  rewrite (nd_map2_scalar_r f_div _ std Hs). cbn [bind shape build].
  rewrite (nd_map2_scalar_l f_mul weight _ Hw).
  unfold nd_map. cbn [shape build]. f_equal. apply build_ext. intros idx Hv.
  now rewrite !(get_build _ Hv).
Qed.

(** The mixture of [K] univariate components given as three vectors. *)
Lemma cdf_mixtr_vectors (st : MixState F) (x : ndarray F) (K : nat) :
  shape (means st) = [K] ->
  shape (cov st) = [K] ->
  shape (mix_weights st) = [K] ->
  cdf_mixtr st x =
    Ok (squeeze (build (shape x) (fun idx =>
          mixture_cdf (fun k => get (mix_weights st) [k])
                      (fun k => get (means st) [k])
                      (fun k => get (cov st) [k]) K (get x idx)))).
Proof.
  destruct st as [mu cv w]; cbn [means cov mix_weights]. intros Hm Hc Hw.
  unfold cdf_mixtr, vmap3, axis0, nd_sqrt, nd_map.
  cbn [shape build]. rewrite Hm, Hc, Hw. cbn [bind]. rewrite !Nat.eqb_refl. cbn [andb].
  erewrite stacked_ok with (s := shape x).
  2:{ intros i. rewrite (slice0_vector mu i Hm), (slice0_vector w i Hw).
      rewrite (slice0_vector (build [K] _) i eq_refl).
      apply single_cdf_scalars; reflexivity. }
  2:{ intros i. reflexivity. }
  cbn [bind]. rewrite nd_sum0_build. cbn [bind]. f_equal. f_equal.
  apply build_ext. intros idx Hv. unfold mixture_cdf. f_equal.
  apply map_ext_in. intros k Hk.
  apply in_seq in Hk. rewrite (get_build _ Hv), !item_scalar.
  rewrite get_build by in_shape_tac. reflexivity.
Qed.

(** One component in the layout of dimension 1: a mean of shape [[1]] and
    a covariance of shape [[1; 1]], at a scalar query point. *)
Lemma single_cdf_dim1_scalar (x mean std weight : ndarray F) :
  shape x = [] -> shape mean = [1] -> shape std = [1; 1] -> shape weight = [] ->
  single_cdf x mean std weight =
    Ok (mk_nd [1; 1]
          [f_mul (item weight)
                 (norm_cdf (f_div (f_sub (item x) (get mean [0])) (get std [0; 0])))]).
Proof.
  intros Hx Hm Hs Hw. unfold single_cdf, nd_sub, nd_div, nd_mul, nd_map2, nd_map.
  rewrite Hx, Hm. cbn. rewrite Hs. cbn. rewrite Hw. cbn.
  unfold item, get. rewrite Hx, Hm, Hs, Hw. reflexivity.
Qed.

(** The same component at a vector of query points. *)
Lemma single_cdf_dim1_vector (x mean std weight : ndarray F) (N : nat) :
  shape x = [N] -> shape mean = [1] -> shape std = [1; 1] -> shape weight = [] ->
  single_cdf x mean std weight =
    Ok (build [1; N] (fun idx =>
          f_mul (item weight)
                (norm_cdf (f_div (f_sub (get x (tl idx)) (get mean [0]))
                                 (get std [0; 0]))))).
Proof.
  intros Hx Hm Hs Hw. unfold single_cdf, nd_sub, nd_div, nd_mul.
  unfold nd_map2 at 1. rewrite Hx, Hm.
  unfold broadcast_shapes, pad; cbn [length Nat.max Nat.sub repeat app bzip].
  rewrite bdim_1_r. cbn [bind].
  unfold nd_map2 at 1. cbn [shape build]. rewrite Hs.
  unfold broadcast_shapes, pad; cbn [length Nat.max Nat.sub repeat app bzip].
  rewrite !bdim_1_r. cbn [bind].
  rewrite (nd_map2_scalar_l f_mul weight _ Hw).
  unfold nd_map. cbn [shape build]. f_equal. apply build_ext. intros idx Hv.
  inversion Hv as [|z ? idx1 ? Hz Hv1]; subst.
  inversion Hv1 as [|n ? idx2 ? Hn Hv2]; subst. inversion Hv2; subst.
  assert (z = 0) by lia; subst z.
  rewrite !(get_build _ Hv). f_equal. f_equal.
  assert (Hb : bidx [N] [0; n] = [n]).
  { unfold bidx; simpl. destruct (N =? 1) eqn:E; [|reflexivity].
    apply Nat.eqb_eq in E. f_equal. lia. }
  rewrite Hb, get_build by in_shape_tac.
  rewrite (bidx_self (s := [N]) (idx := [n])) by in_shape_tac.
  reflexivity.
Qed.

(** The same component at an array of query points of rank 2 or more. *)
Lemma single_cdf_dim1_array (x mean std weight : ndarray F) :
  2 <= ndim x -> shape mean = [1] -> shape std = [1; 1] -> shape weight = [] ->
  single_cdf x mean std weight =
    Ok (build (shape x) (fun idx =>
          f_mul (item weight)
                (norm_cdf (f_div (f_sub (get x idx) (get mean [0])) (get std [0; 0]))))).
Proof.
  intros Hx Hm Hs Hw. unfold single_cdf, nd_sub, nd_div, nd_mul.
  rewrite (nd_map2_ones_r f_sub x mean (m := 1) Hm) by lia. cbn [bind].
  rewrite (nd_map2_ones_r f_div _ std (m := 2) Hs) by exact Hx.
  cbn [bind shape build].
  rewrite (nd_map2_scalar_l f_mul weight _ Hw).
  unfold nd_map. cbn [shape build repeat]. f_equal. apply build_ext. intros idx Hv.
  now rewrite !(get_build _ Hv).
Qed.

Lemma slice0_dim1_mean (a : ndarray F) (k i : nat) :
  shape a = [k; 1] -> slice0 a i = mk_nd [1] [get a [i; 0]].
Proof. intros Ha. unfold slice0. rewrite Ha. reflexivity. Qed.

Lemma slice0_dim1_cov (a : ndarray F) (k i : nat) :
  shape a = [k; 1; 1] -> slice0 a i = mk_nd [1; 1] [get a [i; 0; 0]].
Proof. intros Ha. unfold slice0. rewrite Ha. reflexivity. Qed.

(** The mixture in the layout of dimension 1 (means of shape [[K; 1]],
    covariances of shape [[K; 1; 1]]), at a scalar query point. *)
Lemma cdf_mixtr_dim1_scalar (st : MixState F) (x : ndarray F) (K : nat) :
  shape (means st) = [K; 1] ->
  shape (cov st) = [K; 1; 1] ->
  shape (mix_weights st) = [K] ->
  shape x = [] ->
  cdf_mixtr st x =
    Ok (scalar (mixture_cdf (fun k => get (mix_weights st) [k])
                            (fun k => get (means st) [k; 0])
                            (fun k => get (cov st) [k; 0; 0]) K (item x))).
Proof.
  destruct st as [mu cv w]; cbn [means cov mix_weights]. intros Hm Hc Hw Hx.
  unfold cdf_mixtr, vmap3, axis0, nd_sqrt, nd_map.
  cbn [shape build]. rewrite Hm, Hc, Hw. cbn [bind]. rewrite !Nat.eqb_refl. cbn [andb].
  erewrite stacked_ok with (s := [1; 1]).
  2:{ intros i. rewrite (slice0_dim1_mean mu i Hm), (slice0_vector w i Hw).
      rewrite (slice0_dim1_cov (build [K; 1; 1] _) i eq_refl).
      apply single_cdf_dim1_scalar; [exact Hx | reflexivity..]. }
  2:{ intros i. reflexivity. }
  cbn [bind]. rewrite nd_sum0_build. cbn [bind]. unfold squeeze, build, scalar.
  cbn. f_equal. f_equal. f_equal. unfold mixture_cdf. f_equal.
  apply map_ext_in. intros k Hk. apply in_seq in Hk.
  pose proof (@get_build F _ [K; 1; 1] (fun idx => f_sqrt (get cv idx)) [k; 0; 0]) as Hg.
  unfold build in Hg. cbn in Hg. cbn. rewrite Hg by in_shape_tac. reflexivity.
Qed.

(** The same mixture at a vector of [N] query points. *)
Lemma cdf_mixtr_dim1_vector (st : MixState F) (x : ndarray F) (K N : nat) :
  shape (means st) = [K; 1] ->
  shape (cov st) = [K; 1; 1] ->
  shape (mix_weights st) = [K] ->
  shape x = [N] ->
  cdf_mixtr st x =
    Ok (squeeze (build [N] (fun idx =>
          mixture_cdf (fun k => get (mix_weights st) [k])
                      (fun k => get (means st) [k; 0])
                      (fun k => get (cov st) [k; 0; 0]) K (get x idx)))).
Proof.
  destruct st as [mu cv w]; cbn [means cov mix_weights]. intros Hm Hc Hw Hx.
  unfold cdf_mixtr, vmap3, axis0, nd_sqrt, nd_map.
  cbn [shape build]. rewrite Hm, Hc, Hw. cbn [bind]. rewrite !Nat.eqb_refl. cbn [andb].
  erewrite stacked_ok with (s := [1; N]).
  2:{ intros i. rewrite (slice0_dim1_mean mu i Hm), (slice0_vector w i Hw).
      rewrite (slice0_dim1_cov (build [K; 1; 1] _) i eq_refl).
      apply single_cdf_dim1_vector; [exact Hx | reflexivity..]. }
  2:{ intros i. reflexivity. }
  cbn [bind]. rewrite nd_sum0_build. cbn [bind]. rewrite squeeze_build_one.
  f_equal. f_equal. apply build_ext. intros idx Hv.
  assert (Hv1 : in_shape (0 :: idx) [1; N]) by (constructor; [lia | exact Hv]).
  unfold mixture_cdf. f_equal. apply map_ext_in. intros k Hk. apply in_seq in Hk.
  rewrite (get_build _ Hv1). cbn [tl]. rewrite !item_scalar.
  pose proof (@get_build F _ [K; 1; 1] (fun idx => f_sqrt (get cv idx)) [k; 0; 0]) as Hg.
  unfold build in Hg. cbn in Hg. cbn. rewrite Hg by in_shape_tac. reflexivity.
Qed.

(** The same mixture at an array of query points of rank 2 or more. *)
Lemma cdf_mixtr_dim1_array (st : MixState F) (x : ndarray F) (K : nat) :
  shape (means st) = [K; 1] ->
  shape (cov st) = [K; 1; 1] ->
  shape (mix_weights st) = [K] ->
  2 <= ndim x ->
  cdf_mixtr st x =
    Ok (squeeze (build (shape x) (fun idx =>
          mixture_cdf (fun k => get (mix_weights st) [k])
                      (fun k => get (means st) [k; 0])
                      (fun k => get (cov st) [k; 0; 0]) K (get x idx)))).
Proof.
  destruct st as [mu cv w]; cbn [means cov mix_weights]. intros Hm Hc Hw Hx.
  unfold cdf_mixtr, vmap3, axis0, nd_sqrt, nd_map.
  cbn [shape build]. rewrite Hm, Hc, Hw. cbn [bind]. rewrite !Nat.eqb_refl. cbn [andb].
  erewrite stacked_ok with (s := shape x).
  2:{ intros i. rewrite (slice0_dim1_mean mu i Hm), (slice0_vector w i Hw).
      rewrite (slice0_dim1_cov (build [K; 1; 1] _) i eq_refl).
      apply single_cdf_dim1_array; [exact Hx | reflexivity..]. }
  2:{ intros i. reflexivity. }
  cbn [bind]. rewrite nd_sum0_build. cbn [bind]. f_equal. f_equal.
  apply build_ext. intros idx Hv.
  unfold mixture_cdf. f_equal. apply map_ext_in. intros k Hk. apply in_seq in Hk.
  rewrite (get_build _ Hv), !item_scalar.
  pose proof (@get_build F _ [K; 1; 1] (fun idx => f_sqrt (get cv idx)) [k; 0; 0]) as Hg.
  unfold build in Hg. cbn in Hg. cbn. rewrite Hg by in_shape_tac. reflexivity.
Qed.

Lemma get_entry1 (a : ndarray F) (K k : nat) : shape a = [K] -> get a [k] = entry a k.
Proof.
  intros Ha. unfold get, entry. rewrite Ha. simpl.
  now rewrite Nat.mul_1_r, Nat.add_0_r.
Qed.

Lemma get_entry2 (a : ndarray F) (K k : nat) :
  shape a = [K; 1] -> get a [k; 0] = entry a k.
Proof.
  intros Ha. unfold get, entry. rewrite Ha. simpl.
  now rewrite Nat.mul_1_r, Nat.add_0_r.
Qed.

Lemma get_entry3 (a : ndarray F) (K k : nat) :
  shape a = [K; 1; 1] -> get a [k; 0; 0] = entry a k.
Proof.
  intros Ha. unfold get, entry. rewrite Ha. simpl.
  now rewrite Nat.mul_1_r, Nat.add_0_r.
Qed.

Lemma mixture_cdf_ext (w w' m m' v v' : nat -> F) (K : nat) (x : F) :
  (forall k, k < K -> w k = w' k) ->
  (forall k, k < K -> m k = m' k) ->
  (forall k, k < K -> v k = v' k) ->
  mixture_cdf w m v K x = mixture_cdf w' m' v' K x.
Proof.
  intros Hw Hm Hv. unfold mixture_cdf. f_equal. apply map_ext_in.
  intros k Hk. apply in_seq in Hk. rewrite Hw, Hm, Hv by lia. reflexivity.
Qed.

(** The result of [cdf_mixtr] on a univariate mixture, in either layout,
    at a query array of any shape. *)
Lemma cdf_mixtr_univariate (st : MixState F) (x : ndarray F) (K : nat) :
  univariate st K ->
  cdf_mixtr st x =
    Ok (squeeze (build (shape x) (fun idx =>
          mixture_cdf (entry (mix_weights st)) (entry (means st)) (entry (cov st))
                      K (get x idx)))).
Proof.
  intros [Hw [[Hm Hc] | [Hm Hc]]].
  - rewrite (cdf_mixtr_vectors st x Hm Hc Hw). do 2 f_equal.
    apply build_ext. intros idx _. apply mixture_cdf_ext; intros k _.
    + apply (get_entry1 _ k Hw).
    + apply (get_entry1 _ k Hm).
    + apply (get_entry1 _ k Hc).
  - destruct (shape x) as [|N [|M sx]] eqn:Ex.
    + rewrite (cdf_mixtr_dim1_scalar st x Hm Hc Hw Ex). f_equal.
      unfold squeeze, build, scalar; cbn. do 2 f_equal.
      apply mixture_cdf_ext; intros k _.
      * apply (get_entry1 _ k Hw).
      * apply (get_entry2 _ k Hm).
      * apply (get_entry3 _ k Hc).
    + rewrite (cdf_mixtr_dim1_vector st x Hm Hc Hw Ex). do 2 f_equal.
      apply build_ext. intros idx _. apply mixture_cdf_ext; intros k _.
      * apply (get_entry1 _ k Hw).
      * apply (get_entry2 _ k Hm).
      * apply (get_entry3 _ k Hc).
    + assert (Hx : 2 <= ndim x) by (unfold ndim; rewrite Ex; simpl; lia).
      rewrite (cdf_mixtr_dim1_array st x Hm Hc Hw Hx), Ex. do 2 f_equal.
      apply build_ext. intros idx _. apply mixture_cdf_ext; intros k _.
      * apply (get_entry1 _ k Hw).
      * apply (get_entry2 _ k Hm).
      * apply (get_entry3 _ k Hc).
Qed.

(** C6. On a mixture of [K] univariate components, at a query point or an
    array of query points [x], [cdf_mixtr] returns
    [sum_k weight_k * NormalCDF((x - mean_k) / sqrt(variance_k))] at every
    point of [x], the covariance entries being used as variances, in an
    array from which the axes of size 1 are removed. *)
Theorem cdf_mixtr_weighted_sum (st : MixState F) (x : ndarray F) (K : nat) :
  univariate st K ->
  exists c : ndarray F,
    cdf_mixtr st x = Ok (squeeze c) /\
    shape c = shape x /\
    forall idx, in_shape idx (shape x) ->
      get c idx =
        fsum (map (fun k =>
                f_mul (entry (mix_weights st) k)
                      (norm_cdf (f_div (f_sub (get x idx) (entry (means st) k))
                                       (f_sqrt (entry (cov st) k)))))
              (seq 0 K)).
Proof.
  intros Hu. rewrite (cdf_mixtr_univariate x Hu).
  eexists. split; [reflexivity|]. split; [reflexivity|].
  intros idx Hv. rewrite (get_build _ Hv). reflexivity.
Qed.
End Cdf.


(* ================================================================== *)
(** * The distribution function at a diffusion time *)

Section CdfTime.
Context {F : Type} `{Scalar F} `{ExpFn F} `{NormalCdf F}.

(** X3. For a mixture of [K] components in dimension 1 and a scalar time,
    [cdf_t] is the distribution function of the mixture of the same
    weights whose component [k] has mean [alpha * mean_k] and variance
    [alpha^2 * variance_k + variance_noise * 1]. *)
Theorem cdf_t_dimension_one (x t int_b : ndarray F) (st : MixState F) (sde : SDE F)
    (K : nat) :
  shape (means st) = [K; 1] ->
  shape (cov st) = [K; 1; 1] ->
  shape (mix_weights st) = [K] ->
  integrate (beta sde) t (scalar f_zero) = Ok int_b ->
  shape int_b = [] ->
  cdf_t x t st sde =
    Ok (squeeze (build (shape x) (fun idx =>
          mixture_cdf
            (entry (mix_weights st))
            (fun k => f_mul (alpha_of (item int_b)) (entry (means st) k))
            (fun k => f_add (f_mul (f_mul (alpha_of (item int_b)) (alpha_of (item int_b)))
                                   (entry (cov st) k))
                            (f_mul (variance_noise_of (item int_b)) f_one))
            K (get x idx)))).
Proof.
  intros Hm Hc Hw Hint Hs. unfold cdf_t.
  rewrite (transform_scalar_time st sde t Hint Hs Hc), Hm. cbn [bind].
  erewrite cdf_mixtr_univariate with (K := K).
  2:{ split; [exact Hw | right; split; reflexivity]. }
  cbn [means cov mix_weights]. do 2 f_equal. apply build_ext. intros idx _.
  apply mixture_cdf_ext; intros k Hk.
  - reflexivity.
  - rewrite <- (get_entry2 (build [K; 1] _) k eq_refl), <- (get_entry2 _ k Hm).
    rewrite get_build by in_shape_tac. reflexivity.
  - rewrite <- (get_entry3 (build [K; 1; 1] _) k eq_refl), <- (get_entry3 _ k Hc).
    rewrite get_build by in_shape_tac. reflexivity.
Qed.
End CdfTime.

Lemma cdf_t_dimension_one_witness :
  cdf_t (mk_nd [3] [-1; 0; 1]%R) (scalar 1%R) standard_state unit_sde =
    Ok (squeeze (build [3] (fun idx =>
          mixture_cdf
            (entry (mix_weights standard_state))
            (fun k => f_mul (alpha_of (item (scalar (1 - 0)%R)))
                            (entry (means standard_state) k))
            (fun k => f_add (f_mul (f_mul (alpha_of (item (scalar (1 - 0)%R)))
                                          (alpha_of (item (scalar (1 - 0)%R))))
                                   (entry (cov standard_state) k))
                            (f_mul (variance_noise_of (item (scalar (1 - 0)%R))) f_one))
            1 (get (mk_nd [3] [-1; 0; 1]%R) idx)))).
Proof.
  apply (@cdf_t_dimension_one R Scalar_R ExpFn_R NormalCdf_R
           (mk_nd [3] [-1; 0; 1]%R) (scalar 1%R) (scalar (1 - 0)%R)
           standard_state unit_sde 1); reflexivity.
Defined.

(* ================================================================== *)
(** * Monotonicity and limits of the distribution function *)

Section RealSums.
Local Open Scope R_scope.

Lemma fsum_cons (a : R) (l : list R) : fsum (a :: l) = a + fsum l.
Proof.
  unfold fsum; simpl. rewrite Rplus_0_l.
  revert a. induction l as [|b l IH]; intros a; simpl; [lra|].
  rewrite (IH (a + b)), Rplus_0_l, (IH b). lra.
Qed.

Lemma fsum_nil : fsum (@nil R) = 0.
Proof. reflexivity. Qed.

Lemma fsum_le (A : Type) (f g : A -> R) (l : list A) :
  (forall a, In a l -> f a <= g a) -> fsum (map f l) <= fsum (map g l).
Proof.
  induction l as [|a l IH]; intros Hfg; [cbn; lra|].
  cbn [map]. rewrite !fsum_cons.
  apply Rplus_le_compat; [apply Hfg; now left | apply IH; intros; apply Hfg; now right].
Qed.

(** Limits along a direction: [ord M x] reads "[x] is beyond [M]". *)
Section Direction.
Variable ord : R -> R -> Prop.
Hypothesis directed : forall M1 M2, exists M, forall x, ord M x -> ord M1 x /\ ord M2 x.

Lemma limit_along_const (c : R) : limit_along ord (fun _ => c) c.
Proof.
  intros eps He. exists 0. intros x _.
  replace (c - c) with 0 by lra. now rewrite Rabs_R0.
Qed.

Lemma limit_along_plus (f g : R -> R) (a b : R) :
  limit_along ord f a -> limit_along ord g b ->
  limit_along ord (fun x => f x + g x) (a + b).
Proof.
  intros Hf Hg eps He.
  destruct (Hf (eps / 2)) as [M1 H1]; [lra|].
  destruct (Hg (eps / 2)) as [M2 H2]; [lra|].
  destruct (directed M1 M2) as [M HM]. exists M. intros x Hx.
  destruct (HM x Hx) as [Hx1 Hx2].
  specialize (H1 x Hx1). specialize (H2 x Hx2).
  replace (f x + g x - (a + b)) with ((f x - a) + (g x - b)) by lra.
  eapply Rle_lt_trans; [apply Rabs_triang | lra].
Qed.

Lemma limit_along_scale (w : R) (f : R -> R) (a : R) :
  limit_along ord f a -> limit_along ord (fun x => w * f x) (w * a).
Proof.
  intros Hf eps He.
  destruct (Req_dec w 0) as [-> | Hw].
  - exists 0. intros x _. replace (0 * f x - 0 * a) with 0 by lra.
    now rewrite Rabs_R0.
  - assert (Hpos : 0 < Rabs w) by now apply Rabs_pos_lt.
    destruct (Hf (eps / Rabs w)) as [M HM].
    { now apply Rdiv_lt_0_compat. }
    exists M. intros x Hx. specialize (HM x Hx).
    replace (w * f x - w * a) with (w * (f x - a)) by lra.
    rewrite Rabs_mult.
    apply Rmult_lt_compat_l with (r := Rabs w) in HM; [|exact Hpos].
    replace (Rabs w * (eps / Rabs w)) with eps in HM by (field; lra).
    exact HM.
Qed.

Lemma limit_along_fsum (A : Type) (t : A -> R -> R) (lim : A -> R) (l : list A) :
  (forall a, In a l -> limit_along ord (t a) (lim a)) ->
  limit_along ord (fun x => fsum (map (fun a => t a x) l)) (fsum (map lim l)).
Proof.
  induction l as [|a l IH]; intros Ht; cbn [map].
  - rewrite fsum_nil. intros eps He. exists 0. intros x _.
    replace (0 - 0) with 0 by lra. now rewrite Rabs_R0.
  - rewrite fsum_cons.
    assert (Ha : limit_along ord (t a) (lim a)) by (apply Ht; now left).
    assert (Hl : limit_along ord (fun x => fsum (map (fun a => t a x) l))
                   (fsum (map lim l)))
      by (apply IH; intros; apply Ht; now right).
    intros eps He. destruct (limit_along_plus Ha Hl He) as [M HM].
    exists M. intros x Hx. rewrite fsum_cons. now apply HM.
Qed.
End Direction.

Lemma directed_plus : forall M1 M2, exists M, forall x, M < x -> M1 < x /\ M2 < x.
Proof.
  intros M1 M2. exists (Rmax M1 M2). intros x Hx.
  pose proof (Rmax_l M1 M2). pose proof (Rmax_r M1 M2). lra.
Qed.

Lemma directed_minus :
  forall M1 M2, exists M, forall x, (fun m y => y < m) M x ->
    (fun m y => y < m) M1 x /\ (fun m y => y < m) M2 x.
Proof.
  intros M1 M2. exists (Rmin M1 M2). intros x Hx. simpl in *.
  pose proof (Rmin_l M1 M2). pose proof (Rmin_r M1 M2). lra.
Qed.

Lemma affine_increasing (m s a b : R) : 0 < s -> a <= b -> (a - m) / s <= (b - m) / s.
Proof.
  intros Hs Hab. unfold Rdiv. apply Rmult_le_compat_r; [|lra].
  left. now apply Rinv_0_lt_compat.
Qed.

Lemma limit_plus_affine (f : R -> R) (l m s : R) :
  0 < s -> limit_at_plus_inf f l -> limit_at_plus_inf (fun x => f ((x - m) / s)) l.
Proof.
  intros Hs Hf eps He. destruct (Hf eps He) as [M HM].
  exists (m + s * M). intros x Hx. apply HM.
  apply Rmult_lt_reg_r with (r := s); [exact Hs|].
  unfold Rdiv. rewrite Rmult_assoc, Rinv_l by lra. lra.
Qed.

Lemma limit_minus_affine (f : R -> R) (l m s : R) :
  0 < s -> limit_at_minus_inf f l -> limit_at_minus_inf (fun x => f ((x - m) / s)) l.
Proof.
  intros Hs Hf eps He. destruct (Hf eps He) as [M HM].
  exists (m + s * M). intros x Hx. apply HM.
  apply Rmult_lt_reg_r with (r := s); [exact Hs|].
  unfold Rdiv. rewrite Rmult_assoc, Rinv_l by lra. lra.
Qed.
End RealSums.

Section CdfReal.
Context `{NormalCdf R}.
Local Open Scope R_scope.

Lemma mixture_cdf_nondecreasing (w m v : nat -> R) (K : nat) :
  (forall k, (k < K)%nat -> 0 <= w k) ->
  (forall k, (k < K)%nat -> 0 < v k) ->
  nondecreasing norm_cdf ->
  nondecreasing (mixture_cdf w m v K).
Proof.
  intros Hw Hv Hphi a b Hab. unfold mixture_cdf. apply fsum_le.
  intros k Hk. apply in_seq in Hk. cbn.
  apply Rmult_le_compat_l; [apply Hw; lia|].
  apply Hphi. apply affine_increasing; [|exact Hab].
  apply sqrt_lt_R0. apply Hv. lia.
Qed.

Lemma mixture_cdf_limit (ord : R -> R -> Prop) (w m v : nat -> R) (K : nat) (l : R) :
  (forall M1 M2, exists M, forall x, ord M x -> ord M1 x /\ ord M2 x) ->
  (forall k, (k < K)%nat ->
     limit_along ord (fun x => norm_cdf ((x - m k) / R_sqrt.sqrt (v k))) l) ->
  limit_along ord (mixture_cdf w m v K) (fsum (map w (seq 0 K)) * l).
Proof.
  intros Hdir Hphi.
  assert (Hs : fsum (map w (seq 0 K)) * l = fsum (map (fun k => w k * l) (seq 0 K))).
  { generalize (seq 0 K) as ks. induction ks as [|k ks IH]; cbn [map].
    - rewrite fsum_nil. lra.
    - rewrite !fsum_cons, <- IH. lra. }
  rewrite Hs. unfold mixture_cdf.
  apply (limit_along_fsum Hdir
           (fun k x => w k * norm_cdf ((x - m k) / R_sqrt.sqrt (v k)))
           (fun k => w k * l)).
  intros k Hk. apply in_seq in Hk.
  apply limit_along_scale. apply Hphi. lia.
Qed.

(** C7. In exact arithmetic, for a mixture of [K] univariate components
    with non-negative weights of sum 1 and positive variances, and a
    library normal distribution function that is non-decreasing with limits
    0 and 1, [cdf_mixtr] at a scalar point is a function of the point that
    is non-decreasing, tends to 0 at minus infinity and to 1 at plus
    infinity. *)
Theorem cdf_mixtr_monotone_limits (st : MixState R) (K : nat) :
  univariate st K ->
  (forall k, (k < K)%nat -> 0 <= entry (mix_weights st) k) ->
  fsum (map (entry (mix_weights st)) (seq 0 K)) = 1 ->
  (forall k, (k < K)%nat -> 0 < entry (cov st) k) ->
  nondecreasing norm_cdf ->
  limit_at_minus_inf norm_cdf 0 ->
  limit_at_plus_inf norm_cdf 1 ->
  exists c : R -> R,
    (forall x, cdf_mixtr st (scalar x) = Ok (scalar (c x))) /\
    nondecreasing c /\
    limit_at_minus_inf c 0 /\
    limit_at_plus_inf c 1.
Proof.
  intros Hu Hw Hsum Hv Hmono Hlo Hhi.
  exists (mixture_cdf (entry (mix_weights st)) (entry (means st)) (entry (cov st)) K).
  split; [|split; [|split]].
  - intros x.
    rewrite (@cdf_mixtr_univariate R Scalar_R _ st (scalar x) K Hu). reflexivity.
  - now apply mixture_cdf_nondecreasing.
  - assert (Hlim : limit_along (fun m y => y < m)
             (mixture_cdf (entry (mix_weights st)) (entry (means st)) (entry (cov st)) K)
             (fsum (map (entry (mix_weights st)) (seq 0 K)) * 0)).
    { apply mixture_cdf_limit; [exact directed_minus|].
      intros k Hk. apply limit_minus_affine; [|exact Hlo].
      apply sqrt_lt_R0. now apply Hv. }
    rewrite Rmult_0_r in Hlim. exact Hlim.
  - assert (Hlim : limit_along Rlt
             (mixture_cdf (entry (mix_weights st)) (entry (means st)) (entry (cov st)) K)
             (fsum (map (entry (mix_weights st)) (seq 0 K)) * 1)).
    { apply mixture_cdf_limit; [exact directed_plus|].
      intros k Hk. apply limit_plus_affine; [|exact Hhi].
      apply sqrt_lt_R0. now apply Hv. }
    rewrite Hsum, Rmult_1_r in Hlim. exact Hlim.
Qed.
End CdfReal.

(** The distribution function of the reference library. *)
Lemma ramp_cdf_nondecreasing : nondecreasing ramp_cdf.
Proof.
  intros a b Hab. unfold ramp_cdf, Rmax, Rmin.
  repeat destruct Rle_dec; lra.
Qed.

Lemma ramp_cdf_limit_minus : limit_at_minus_inf ramp_cdf 0.
Proof.
  intros eps He. exists (-1)%R. intros x Hx. unfold ramp_cdf, Rmax, Rmin.
  repeat destruct Rle_dec; try lra; rewrite Rminus_0_r; rewrite Rabs_R0; lra.
Qed.

Lemma ramp_cdf_limit_plus : limit_at_plus_inf ramp_cdf 1.
Proof.
  intros eps He. exists 1%R. intros x Hx. unfold ramp_cdf, Rmax, Rmin.
  repeat destruct Rle_dec; try lra;
    (replace (1 - 1)%R with 0%R by lra); rewrite Rabs_R0; lra.
Qed.

Lemma cdf_mixtr_weighted_sum_witness :
  exists c : ndarray R,
    cdf_mixtr standard_state (mk_nd [3] [-1; 0; 1]%R) = Ok (squeeze c) /\
    shape c = [3] /\
    forall idx, in_shape idx [3] ->
      get c idx =
        fsum (map (fun k =>
                f_mul (entry (mix_weights standard_state) k)
                      (norm_cdf (f_div (f_sub (get (mk_nd [3] [-1; 0; 1]%R) idx)
                                              (entry (means standard_state) k))
                                       (f_sqrt (entry (cov standard_state) k)))))
              (seq 0 1)).
Proof.
  apply (@cdf_mixtr_weighted_sum R Scalar_R NormalCdf_R standard_state
           (mk_nd [3] [-1; 0; 1]%R) 1).
  split; [reflexivity | right; split; reflexivity].
Defined.

Lemma cdf_mixtr_monotone_limits_witness :
  exists c : R -> R,
    (forall x, cdf_mixtr standard_state (scalar x) = Ok (scalar (c x))) /\
    nondecreasing c /\
    limit_at_minus_inf c 0 /\
    limit_at_plus_inf c 1.
Proof.
  apply (@cdf_mixtr_monotone_limits NormalCdf_R standard_state 1).
  - split; [reflexivity | right; split; reflexivity].
  - intros k Hk. destruct k; [cbn; lra | lia].
  - cbn. lra.
  - intros k Hk. destruct k; [cbn; lra | lia].
  - exact ramp_cdf_nondecreasing.
  - exact ramp_cdf_limit_minus.
  - exact ramp_cdf_limit_plus.
Defined.

(* ================================================================== *)
(** * The density of the mixture *)

Section StackedPos.
Context {F : Type} `{Scalar F}.

(** With at least one slice, the trace at slice 0 is one of the calls. *)
Lemma stacked_ok_pos (k : nat) (body : nat -> result (ndarray F)) (r : nat -> ndarray F)
    (s : list nat) :
  0 < k ->
  (forall i, i < k -> body i = Ok (r i)) ->
  (forall i, i < k -> shape (r i) = s) ->
  stacked k body =
    Ok (build (k :: s) (fun idx =>
          match idx with
          | i :: idx' => get (r i) idx'
          | [] => f_zero
          end)).
Proof.
  intros Hk Hb Hs. unfold stacked. rewrite (Hb 0 Hk). cbn [bind].
  rewrite (mapM_ok body r) by (intros i Hi; apply in_seq in Hi; apply Hb; lia).
  cbn [bind]. rewrite (Hs 0 Hk). f_equal. apply build_ext. intros idx Hv.
  inversion Hv as [|i n idx' s' Hi Hv']; subst.
  rewrite map_nth, seq_nth by exact Hi. reflexivity.
Qed.

(** The product of two vectors of the same length is their dot product. *)
Lemma matmul_dot (a b : ndarray F) (k : nat) :
  shape a = [k] -> shape b = [k] ->
  matmul a b =
    Ok (scalar (fsum (map (fun l => f_mul (get a [l]) (get b [l])) (seq 0 k)))).
Proof.
  intros Ha Hb. unfold matmul, ndim. rewrite Ha, Hb. cbn.
  rewrite Nat.eqb_refl. reflexivity.
Qed.
End StackedPos.

Section Pdf.
Context {F : Type} `{Scalar F} `{NormalPdf F}.

(** The density of a mixture whose component densities the library
    returns as scalars [p k]. *)
Lemma pdf_mixtr_scalars (st : MixState F) (x : ndarray F) (K : nat) (sm sc : list nat)
    (p : nat -> F) :
  0 < K ->
  shape (means st) = K :: sm ->
  shape (cov st) = K :: sc ->
  shape (mix_weights st) = [K] ->
  (forall k, k < K ->
     mvn_pdf x (slice0 (means st) k) (slice0 (cov st) k) = Ok (scalar (p k))) ->
  pdf_mixtr st x =
    Ok (scalar (fsum (map (fun k => f_mul (get (mix_weights st) [k]) (p k)) (seq 0 K)))).
Proof.
  destruct st as [mu cv w]; cbn [means cov mix_weights].
  intros HK Hm Hc Hw Hp.
  unfold pdf_mixtr, vmap2, axis0, pdf_multivariate_normal.
  rewrite Hm, Hc. cbn [bind]. rewrite Nat.eqb_refl.
  rewrite (stacked_ok_pos (s := []) _ (fun k => scalar (p k)) HK Hp)
    by (intros; reflexivity).
  cbn [bind]. erewrite (matmul_dot (k := K) w _ Hw) by reflexivity.
  do 3 f_equal. apply map_ext_in. intros k Hk. apply in_seq in Hk.
  rewrite get_build by in_shape_tac. reflexivity.
Qed.
End Pdf.

Lemma normal_pdf_standard : normal_pdf 0 0 1 = (1 / R_sqrt.sqrt (2 * PI))%R.
Proof.
  unfold normal_pdf.
  replace (- ((0 - 0) * (0 - 0)) / (2 * 1))%R with 0%R by (field; lra).
  rewrite exp_0. now rewrite Rmult_1_r.
Qed.

(** C5. For [K] components in dimension [D] and a query point [x] of
    length [D], [pdf_mixtr] returns the scalar
    [sum_k weight_k * density_k], where [density_k] is what the library's
    multivariate normal density returns at [x] for the mean and the
    covariance of component [k].  In exact arithmetic, when that density
    at [x = 0] for mean 0 and covariance 1 is the standard normal one, the
    state with one component of mean 0, covariance 1 and weight 1 has
    density [1 / sqrt(2 * pi)] at 0. *)
Theorem pdf_mixtr_weighted_sum :
  (forall (F : Type) (S : Scalar F) (L : NormalPdf F)
          (st : MixState F) (x : ndarray F) (K D : nat) (density : nat -> F),
      0 < K ->
      shape (means st) = [K; D] ->
      shape (cov st) = [K; D; D] ->
      shape (mix_weights st) = [K] ->
      shape x = [D] ->
      (forall k, k < K ->
         mvn_pdf x (slice0 (means st) k) (slice0 (cov st) k) = Ok (scalar (density k))) ->
      pdf_mixtr st x =
        Ok (scalar (fsum (map (fun k => f_mul (get (mix_weights st) [k]) (density k))
                              (seq 0 K))))) /\
  (forall L : NormalPdf R,
      mvn_pdf (mk_nd [1] [0%R]) (mk_nd [1] [0%R]) (mk_nd [1; 1] [1%R])
        = Ok (scalar (normal_pdf 0 0 1)) ->
      pdf_mixtr standard_state (mk_nd [1] [0%R])
        = Ok (scalar (1 / R_sqrt.sqrt (2 * PI))%R)).
Proof.
  split.
  - intros F S L st x K D density HK Hm Hc Hw _ Hp.
    exact (@pdf_mixtr_scalars F S L st x K [D] [D; D] density HK Hm Hc Hw Hp).
  - intros L Hlib.
    rewrite (@pdf_mixtr_scalars R Scalar_R L standard_state (mk_nd [1] [0%R])
               1 [1] [1; 1] (fun _ => normal_pdf 0 0 1));
      [ | lia | reflexivity | reflexivity | reflexivity | ].
    + cbn. rewrite normal_pdf_standard. do 2 f_equal. lra.
    + intros k Hk. assert (k = 0) by lia; subst k. exact Hlib.
Qed.

Lemma pdf_mixtr_weighted_sum_witness :
  pdf_mixtr standard_state (mk_nd [1] [0%R])
    = Ok (scalar (fsum (map (fun k => f_mul (get (mix_weights standard_state) [k])
                                            (normal_pdf 0 0 1)) (seq 0 1)))) /\
  pdf_mixtr standard_state (mk_nd [1] [0%R]) = Ok (scalar (1 / R_sqrt.sqrt (2 * PI))%R).
Proof.
  destruct pdf_mixtr_weighted_sum as [Hgen Hstd]. split.
  - apply (Hgen R Scalar_R NormalPdf_R standard_state (mk_nd [1] [0%R]) 1 1
             (fun _ => normal_pdf 0 0 1)); try reflexivity; try lia.
    intros k Hk. destruct k; [reflexivity | lia].
  - apply (Hstd NormalPdf_R). reflexivity.
Defined.

(* ================================================================== *)
(** * The sampler *)

Section Sampler.
Context {F key : Type} `{Scalar F} `{Factor F} `{Random F key}.

(** What the sampler returns when the library calls succeed: the gathers
    read the component drawn for each sample (clamped to the last one),
    and the contraction runs over the first matrix index of the factor. *)
Lemma sampler_mixtr_entries (k k1 k2 : key) (st : MixState F) (N D K1 K2 K3 : nat)
    (sw : list nat) (idx : ndarray nat) (noise L : ndarray F) :
  shape (means st) = [K1; D] ->
  shape (mix_weights st) = K3 :: sw ->
  random_split k = (k1, k2) ->
  random_choice k1 (arange K3) [N] (mix_weights st) = Ok idx ->
  shape idx = [N] ->
  random_normal k2 [N; D] = Ok noise ->
  shape noise = [N; D] ->
  cholesky (cov st) = Ok L ->
  shape L = [K2; D; D] ->
  sampler_mixtr k st N =
    Ok (build [N; D] (fun i =>
          let n := nth 0 i 0 in
          let j := nth 1 i 0 in
          f_add (get (means st) [Nat.min (get idx [n]) (K1 - 1); j])
                (fsum (map (fun r =>
                         f_mul (get L [Nat.min (get idx [n]) (K2 - 1); r; j])
                               (get noise [n; r]))
                       (seq 0 D))))).
Proof.
  destruct st as [mu sg w]; cbn [means cov mix_weights].
  intros Hm Hw Hsplit Hidx Hsi Hnoise Hsn Hchol HsL.
  unfold sampler_mixtr, last_dim, len. rewrite Hm, Hw. cbn [rev app bind].
  rewrite Hsplit, Hidx. cbn [bind]. rewrite Hnoise. cbn [bind].
  rewrite Hchol. cbn [bind]. unfold take, ndim. rewrite HsL, Hm, Hsi.
  cbn [bind app length]. unfold einsum_nij_ni_nj. cbn [shape build].
  rewrite Hsn, !bdim_refl. cbn [bind].
  unfold nd_add, nd_map2. cbn [shape build]. rewrite broadcast_shapes_refl.
  f_equal. apply build_ext. intros i Hv.
  inversion Hv as [|n ? i1 ? Hn Hv1]; subst.
  inversion Hv1 as [|j ? i2 ? Hj Hv2]; subst. inversion Hv2; subst.
  rewrite (bidx_self Hv), !(get_build _ Hv). cbn [nth firstn skipn].
  f_equal. f_equal. apply map_ext_in. intros r Hr. apply in_seq in Hr.
  rewrite !bsel_self by in_shape_tac.
  rewrite get_build by in_shape_tac. reflexivity.
Qed.

End Sampler.

Lemma sqrt_one_minus_zero : R_sqrt.sqrt (1 - 0) = 1%R.
Proof. rewrite Rminus_0_r. exact sqrt_1. Qed.

(** The reference library on [skew_state], with the key 0. *)
Lemma skew_state_evaluation :
  @random_split R nat _ 0 = (1, 2) /\
  random_choice 1 (arange 1) [1] (mix_weights skew_state) = Ok (mk_nd [1] [0]) /\
  @random_normal R nat _ 2 [1; 2] = Ok (mk_nd [1; 2] [3; 4]%R) /\
  cholesky (cov skew_state) = Ok (mk_nd [1; 2; 2] [1; 0; 1; 1]%R) /\
  sampler_mixtr 0 skew_state 1 = Ok (mk_nd [1; 2] [7; 4]%R).
Proof.
  split; [reflexivity|]. split; [reflexivity|]. split.
  { cbn. unfold counter_normal, build. cbn. do 2 f_equal. repeat (f_equal; try lra). }
  split.
  { cbn. unfold build. cbn. unfold fsum, dot_prefix, get. cbn.
    rewrite !sqrt_one_minus_zero.
    replace (2 - (0 + (1 - 0) / 1 * ((1 - 0) / 1)))%R with 1%R by lra.
    rewrite sqrt_1. do 2 f_equal. repeat (f_equal; try lra). }
  cbn. unfold build. cbn.
  rewrite !sqrt_one_minus_zero.
  replace (2 - (0 + (1 - 0) / 1 * ((1 - 0) / 1)))%R with 1%R by lra.
  rewrite sqrt_1. do 2 f_equal. repeat (f_equal; try lra).
Qed.

Lemma cholesky_of_skew_state :
  cholesky_of (mk_nd [1; 2; 2] [1; 0; 1; 1]%R) (cov skew_state) 0 2.
Proof.
  split; [|split].
  - intros i j Hi Hj Hij.
    destruct i as [|[|i]], j as [|[|j]]; try lia. reflexivity.
  - intros i Hi. destruct i as [|[|i]]; try lia; cbn; lra.
  - intros i j Hi Hj.
    destruct i as [|[|i]], j as [|[|j]]; try lia; cbn; lra.
Qed.

(** The factor of the covariance of [skew_state] is [[1, 0], [1, 1]]. *)
Lemma cholesky_of_skew_entries (l : ndarray R) :
  cholesky_of l (cov skew_state) 0 2 ->
  get l [0; 0; 0] = 1%R /\ get l [0; 0; 1] = 0%R /\
  get l [0; 1; 0] = 1%R /\ get l [0; 1; 1] = 1%R.
Proof.
  intros (Hlow & Hpos & Hprod).
  pose proof (Hlow 0 1 ltac:(lia) ltac:(lia) ltac:(lia)) as H01.
  pose proof (Hpos 0 ltac:(lia)) as P0. pose proof (Hpos 1 ltac:(lia)) as P1.
  pose proof (Hprod 0 0 ltac:(lia) ltac:(lia)) as E00.
  pose proof (Hprod 1 0 ltac:(lia) ltac:(lia)) as E10.
  pose proof (Hprod 1 1 ltac:(lia) ltac:(lia)) as E11.
  cbn in E00, E10, E11.
  change (nth 0 (data l) 0%R) with (get l [0; 0; 0]) in *.
  set (a := get l [0; 0; 0]) in *. set (b := get l [0; 1; 0]) in *.
  set (c := get l [0; 1; 1]) in *. set (z := get l [0; 0; 1]) in *.
  assert (Ha : a = 1%R) by nra.
  assert (Hb : b = 1%R) by nra.
  assert (Hc : c = 1%R) by nra.
  auto.
Qed.

Section SamplerSkew.
Context {key : Type} `{Factor R} `{Random R key}.

(** C2 (the code departs from it).  On the component of covariance
    [[1, 1], [1, 2]], whose Cholesky factor is [L = [[1, 0], [1, 1]]], for
    any key and the noise vector [(z0, z1)] drawn from it, the sampler
    returns [mean + L^T @ noise = (z0 + z1, z1)], while the specified
    [mean + L @ noise] is [(z0, z0 + z1)]: the two differ as soon as the
    noise is not zero. *)
Theorem sampler_mixtr_transposes_factor (k k1 k2 : key) (idx : ndarray nat)
    (noise l : ndarray R) :
  random_split k = (k1, k2) ->
  random_choice k1 (arange 1) [1] (mix_weights skew_state) = Ok idx ->
  shape idx = [1] ->
  get idx [0] = 0 ->
  random_normal k2 [1; 2] = Ok noise ->
  shape noise = [1; 2] ->
  cholesky (cov skew_state) = Ok l ->
  shape l = [1; 2; 2] ->
  cholesky_of l (cov skew_state) 0 2 ->
  exists out,
    sampler_mixtr k skew_state 1 = Ok out /\
    get out [0; 0] = Rplus (get noise [0; 0]) (get noise [0; 1]) /\
    get out [0; 1] = get noise [0; 1] /\
    specified_sample (means skew_state) l noise idx 2 0 0 = get noise [0; 0] /\
    specified_sample (means skew_state) l noise idx 2 0 1
      = Rplus (get noise [0; 0]) (get noise [0; 1]) /\
    (get noise [0; 0] <> 0%R \/ get noise [0; 1] <> 0%R ->
     exists j, (j < 2) /\
       get out [0; j] <> specified_sample (means skew_state) l noise idx 2 0 j).
Proof.
  intros Hsplit Hidx Hsi Hi0 Hnoise Hsn Hchol Hsl Hfac.
  destruct (cholesky_of_skew_entries Hfac) as (L00 & L01 & L10 & L11).
  rewrite (@sampler_mixtr_entries R key Scalar_R _ _ k k1 k2 skew_state 1 2 1 1 1 []
             idx noise l eq_refl eq_refl Hsplit Hidx Hsi Hnoise Hsn Hchol Hsl).
  eexists. split; [reflexivity|].
  assert (O0 : get (build [1; 2] (fun i : list nat =>
                 let n := nth 0 i 0 in
                 let j := nth 1 i 0 in
                 f_add (get (means skew_state) [Nat.min (get idx [n]) (1 - 1); j])
                   (fsum (map (fun r : nat =>
                            f_mul (get l [Nat.min (get idx [n]) (1 - 1); r; j])
                                  (get noise [n; r])) (seq 0 2))))) [0; 0]
               = Rplus (get noise [0; 0]) (get noise [0; 1])).
  { rewrite get_build by in_shape_tac. cbn [nth]. rewrite Hi0.
    cbn [Nat.min Nat.sub seq map]. rewrite !fsum_cons, fsum_nil.
    rewrite L00, L10. cbn. lra. }
  assert (O1 : get (build [1; 2] (fun i : list nat =>
                 let n := nth 0 i 0 in
                 let j := nth 1 i 0 in
                 f_add (get (means skew_state) [Nat.min (get idx [n]) (1 - 1); j])
                   (fsum (map (fun r : nat =>
                            f_mul (get l [Nat.min (get idx [n]) (1 - 1); r; j])
                                  (get noise [n; r])) (seq 0 2))))) [0; 1]
               = get noise [0; 1]).
  { rewrite get_build by in_shape_tac. cbn [nth]. rewrite Hi0.
    cbn [Nat.min Nat.sub seq map]. rewrite !fsum_cons, fsum_nil.
    rewrite L01, L11. cbn. lra. }
  assert (S0 : specified_sample (means skew_state) l noise idx 2 0 0
               = get noise [0; 0]).
  { unfold specified_sample. rewrite Hi0. cbn [seq map].
    rewrite !fsum_cons, fsum_nil, L00, L01. cbn. lra. }
  assert (S1 : specified_sample (means skew_state) l noise idx 2 0 1
               = Rplus (get noise [0; 0]) (get noise [0; 1])).
  { unfold specified_sample. rewrite Hi0. cbn [seq map].
    rewrite !fsum_cons, fsum_nil, L10, L11. cbn. lra. }
  split; [exact O0|]. split; [exact O1|]. split; [exact S0|]. split; [exact S1|].
  intros Hnz.
  destruct (Req_dec (get noise [0; 1]) 0%R) as [Hz1 | Hz1].
  - exists 1. split; [lia|]. rewrite O1, S1. destruct Hnz as [Hz0 | Hz1']; lra.
  - exists 0. split; [lia|]. rewrite O0, S0. lra.
Qed.
End SamplerSkew.

Lemma sampler_mixtr_transposes_factor_witness :
  exists out,
    sampler_mixtr 0 skew_state 1 = Ok out /\
    get out [0; 0] = Rplus (get (mk_nd [1; 2] [3; 4]%R) [0; 0]) (get (mk_nd [1; 2] [3; 4]%R) [0; 1]) /\
    get out [0; 1] = get (mk_nd [1; 2] [3; 4]%R) [0; 1] /\
    specified_sample (means skew_state) (mk_nd [1; 2; 2] [1; 0; 1; 1]%R)
      (mk_nd [1; 2] [3; 4]%R) (mk_nd [1] [0]) 2 0 0
      = get (mk_nd [1; 2] [3; 4]%R) [0; 0] /\
    specified_sample (means skew_state) (mk_nd [1; 2; 2] [1; 0; 1; 1]%R)
      (mk_nd [1; 2] [3; 4]%R) (mk_nd [1] [0]) 2 0 1
      = Rplus (get (mk_nd [1; 2] [3; 4]%R) [0; 0]) (get (mk_nd [1; 2] [3; 4]%R) [0; 1]) /\
    (get (mk_nd [1; 2] [3; 4]%R) [0; 0] <> 0%R \/
     get (mk_nd [1; 2] [3; 4]%R) [0; 1] <> 0%R ->
     exists j, j < 2 /\
       get out [0; j]
       <> specified_sample (means skew_state) (mk_nd [1; 2; 2] [1; 0; 1; 1]%R)
            (mk_nd [1; 2] [3; 4]%R) (mk_nd [1] [0]) 2 0 j).
Proof.
  destruct skew_state_evaluation as (Hsplit & Hidx & Hnoise & Hchol & _).
  apply (@sampler_mixtr_transposes_factor nat Factor_R Random_R 0 1 2
           (mk_nd [1] [0]) (mk_nd [1; 2] [3; 4]%R) (mk_nd [1; 2; 2] [1; 0; 1; 1]%R)).
  - exact Hsplit.
  - exact Hidx.
  - reflexivity.
  - reflexivity.
  - exact Hnoise.
  - reflexivity.
  - exact Hchol.
  - reflexivity.
  - exact cholesky_of_skew_state.
Defined.


Section SamplerFormula.
Context {F key : Type} `{Scalar F} `{Factor F} `{Random F key}.

(** X1. The samples, coordinate by coordinate: sample [n] is
    [mean_k + L_k^T @ noise_n] for the component [k = idx[n]] drawn for it,
    the contraction running over the row index of the factor. *)
Theorem sampler_mixtr_formula (k k1 k2 : key) (st : MixState F) (N D K : nat)
    (idx : ndarray nat) (noise L : ndarray F) :
  shape (means st) = [K; D] ->
  shape (mix_weights st) = [K] ->
  random_split k = (k1, k2) ->
  random_choice k1 (arange K) [N] (mix_weights st) = Ok idx ->
  shape idx = [N] ->
  (forall n, n < N -> get idx [n] < K) ->
  random_normal k2 [N; D] = Ok noise ->
  shape noise = [N; D] ->
  cholesky (cov st) = Ok L ->
  shape L = [K; D; D] ->
  exists out,
    sampler_mixtr k st N = Ok out /\
    shape out = [N; D] /\
    forall n j, n < N -> j < D ->
      get out [n; j] =
        f_add (get (means st) [get idx [n]; j])
              (fsum (map (fun i => f_mul (get L [get idx [n]; i; j]) (get noise [n; i]))
                         (seq 0 D))).
Proof.
  intros Hm Hw Hsplit Hidx Hsi Hrange Hnoise Hsn Hchol HsL.
  rewrite (sampler_mixtr_entries k st Hm Hw Hsplit Hidx Hsi Hnoise Hsn Hchol HsL).
  eexists. split; [reflexivity|]. split; [reflexivity|].
  intros n j Hn Hj. rewrite get_build by in_shape_tac. cbn [nth].
  pose proof (Hrange n Hn) as Hk.
  rewrite Nat.min_l by lia. reflexivity.
Qed.

(** X2. In dimension 1 the factor of a component is one number, and the
    sample is [mean_k + L_k * noise_n], as specified. *)
Theorem sampler_mixtr_dimension_one (k k1 k2 : key) (st : MixState F) (N K : nat)
    (idx : ndarray nat) (noise L : ndarray F) :
  shape (means st) = [K; 1] ->
  shape (mix_weights st) = [K] ->
  random_split k = (k1, k2) ->
  random_choice k1 (arange K) [N] (mix_weights st) = Ok idx ->
  shape idx = [N] ->
  (forall n, n < N -> get idx [n] < K) ->
  random_normal k2 [N; 1] = Ok noise ->
  shape noise = [N; 1] ->
  cholesky (cov st) = Ok L ->
  shape L = [K; 1; 1] ->
  exists out,
    sampler_mixtr k st N = Ok out /\
    shape out = [N; 1] /\
    forall n, n < N ->
      get out [n; 0] = specified_sample (means st) L noise idx 1 n 0.
Proof.
  intros Hm Hw Hsplit Hidx Hsi Hrange Hnoise Hsn Hchol HsL.
  rewrite (sampler_mixtr_entries k st Hm Hw Hsplit Hidx Hsi Hnoise Hsn Hchol HsL).
  eexists. split; [reflexivity|]. split; [reflexivity|].
  intros n Hn. rewrite get_build by in_shape_tac. cbn [nth].
  pose proof (Hrange n Hn) as Hk.
  rewrite Nat.min_l by lia. reflexivity.
Qed.
End SamplerFormula.

Lemma sampler_mixtr_formula_witness :
  exists out,
    sampler_mixtr 0 skew_state 1 = Ok out /\
    shape out = [1; 2] /\
    forall n j, n < 1 -> j < 2 ->
      get out [n; j] =
        f_add (get (means skew_state) [get (mk_nd [1] [0]) [n]; j])
              (fsum (map (fun i =>
                       f_mul (get (mk_nd [1; 2; 2] [1; 0; 1; 1]%R)
                                  [get (mk_nd [1] [0]) [n]; i; j])
                             (get (mk_nd [1; 2] [3; 4]%R) [n; i]))
                     (seq 0 2))).
Proof.
  destruct skew_state_evaluation as (Hsplit & Hidx & Hnoise & Hchol & _).
  apply (@sampler_mixtr_formula R nat Scalar_R Factor_R Random_R 0 1 2 skew_state 1 2 1
           (mk_nd [1] [0]) (mk_nd [1; 2] [3; 4]%R) (mk_nd [1; 2; 2] [1; 0; 1; 1]%R));
    try reflexivity; try assumption.
  intros n Hn. destruct n; [cbn; lia | lia].
Defined.

Lemma standard_state_evaluation :
  @random_split R nat _ 0 = (1, 2) /\
  random_choice 1 (arange 1) [2] (mix_weights standard_state) = Ok (mk_nd [2] [0; 0]) /\
  @random_normal R nat _ 2 [2; 1] = Ok (mk_nd [2; 1] [3; 4]%R) /\
  cholesky (cov standard_state) = Ok (mk_nd [1; 1; 1] [1%R]).
Proof.
  split; [reflexivity|]. split; [reflexivity|]. split.
  { cbn. unfold counter_normal, build. cbn. do 2 f_equal. repeat (f_equal; try lra). }
  cbn. unfold build. cbn. unfold fsum, dot_prefix, get. cbn.
  rewrite sqrt_one_minus_zero. reflexivity.
Qed.

Lemma sampler_mixtr_dimension_one_witness :
  exists out,
    sampler_mixtr 0 standard_state 2 = Ok out /\
    shape out = [2; 1] /\
    forall n, n < 2 ->
      get out [n; 0]
      = specified_sample (means standard_state) (mk_nd [1; 1; 1] [1%R])
          (mk_nd [2; 1] [3; 4]%R) (mk_nd [2] [0; 0]) 1 n 0.
Proof.
  destruct standard_state_evaluation as (Hsplit & Hidx & Hnoise & Hchol).
  apply (@sampler_mixtr_dimension_one R nat Scalar_R Factor_R Random_R 0 1 2
           standard_state 2 1
           (mk_nd [2] [0; 0]) (mk_nd [2; 1] [3; 4]%R) (mk_nd [1; 1; 1] [1%R]));
    try reflexivity; try assumption.
  intros n Hn. destruct n as [|[|n]]; cbn; lia.
Defined.

(* ================================================================== *)
(** * Where mismatched shapes are reported *)








(* ================================================================== *)
(** * A component of variance zero, in binary64 arithmetic *)

Section FloatNaN.
Local Open Scope float_scope.

Lemma nan_of_spec (x : float) : Prim2SF x = S754_nan -> x = nan.
Proof. intros Hx. apply Prim2SF_inj. rewrite Hx. reflexivity. Qed.

Lemma is_zero_spec (v : float) :
  is_zero v = true -> exists s, Prim2SF v = S754_zero s.
Proof.
  unfold is_zero. rewrite FloatAxioms.eqb_spec. change (Prim2SF zero) with (S754_zero false).
  destruct (Prim2SF v) as [s| s | | s m e]; cbn; try discriminate.
  - intros _. now exists s.
  - destruct s; discriminate.
  - destruct s; discriminate.
Qed.

(** [x - x] is a zero, or NaN when [x] is infinite or NaN. *)
Lemma sub_self_spec (x : float) :
  Prim2SF (x - x) = S754_nan \/ exists s, Prim2SF (x - x) = S754_zero s.
Proof.
  rewrite FloatAxioms.sub_spec. destruct (Prim2SF x) as [s| s | | s m e]; cbn.
  - right. destruct s; eauto.
  - left. destruct s; reflexivity.
  - now left.
  - right. exists false. unfold SF64sub, SFsub.
    rewrite Z.sub_diag. reflexivity.
Qed.

Lemma sqrt_zero_spec (v : float) (s : bool) :
  Prim2SF v = S754_zero s -> Prim2SF (PrimFloat.sqrt v) = S754_zero s.
Proof. intros Hv. rewrite FloatAxioms.sqrt_spec, Hv. reflexivity. Qed.

Lemma div_self_zero (x v : float) : is_zero v = true -> (x - x) / PrimFloat.sqrt v = nan.
Proof.
  intros Hv. destruct (@is_zero_spec v Hv) as [s Hs].
  apply nan_of_spec. rewrite FloatAxioms.div_spec, (@sqrt_zero_spec v s Hs).
  destruct (sub_self_spec x) as [-> | [s' ->]]; reflexivity.
Qed.

Lemma mul_nan_r (w : float) : w * nan = nan.
Proof.
  apply nan_of_spec. rewrite FloatAxioms.mul_spec. change (Prim2SF nan) with S754_nan.
  destruct (Prim2SF w); reflexivity.
Qed.

Lemma add_nan_l (y : float) : nan + y = nan.
Proof. apply nan_of_spec. rewrite FloatAxioms.add_spec. reflexivity. Qed.

Lemma add_nan_r (y : float) : y + nan = nan.
Proof.
  apply nan_of_spec. rewrite FloatAxioms.add_spec. change (Prim2SF nan) with S754_nan.
  destruct (Prim2SF y); reflexivity.
Qed.

(** A sum with a NaN term is NaN. *)
Lemma fsum_nan (l1 l2 : list float) : fsum (l1 ++ nan :: l2) = nan.
Proof.
  unfold fsum. rewrite fold_left_app. cbn [fold_left f_add Scalar_float].
  rewrite add_nan_r. induction l2 as [|y l2 IH]; cbn [fold_left]; [reflexivity|].
  now rewrite add_nan_l.
Qed.

Context `{NormalCdf float}.

Lemma mixture_cdf_nan (w m v : nat -> float) (K j : nat) (x : float) :
  (j < K)%nat ->
  is_zero (v j) = true ->
  m j = x ->
  norm_cdf nan = nan ->
  mixture_cdf w m v K x = nan.
Proof.
  intros Hj Hv Hm Hphi. unfold mixture_cdf.
  replace K with (j + S (K - S j))%nat by lia.
  rewrite seq_app, map_app. cbn [seq map Nat.add].
  rewrite Hm. cbn [f_mul f_div f_sub f_sqrt Scalar_float].
  rewrite (@div_self_zero x (v j) Hv), Hphi, mul_nan_r.
  apply fsum_nan.
Qed.

(** C10. [cdf_mixtr] divides by the square root of the variance without
    a guard: in binary64 arithmetic, on a univariate mixture with a
    component of variance zero, and a library distribution function that
    maps NaN to NaN, [cdf_mixtr] raises no error and its result is NaN at
    every query point equal to the mean of that component. *)
Theorem cdf_mixtr_zero_variance (st : MixState float) (x : ndarray float) (K j : nat) :
  univariate st K ->
  (j < K)%nat ->
  is_zero (entry (cov st) j) = true ->
  norm_cdf nan = nan ->
  exists c : ndarray float,
    cdf_mixtr st x = Ok (squeeze c) /\
    shape c = shape x /\
    forall idx, in_shape idx (shape x) ->
      get x idx = entry (means st) j -> get c idx = nan.
Proof.
  intros Hu Hj Hv Hphi. rewrite (cdf_mixtr_univariate x Hu).
  eexists. split; [reflexivity|]. split; [reflexivity|].
  intros idx Hidx Hmean. rewrite (get_build _ Hidx).
  apply mixture_cdf_nan with (j := j); [exact Hj | exact Hv | now symmetry | exact Hphi].
Qed.
End FloatNaN.

(** The distribution function of [degenerate_state] at 0, 1 and 2: the
    component of mean 1 and variance 0 gives [-inf], [0 / 0] and [+inf]
    under the distribution function. *)
Lemma cdf_mixtr_degenerate_state :
  cdf_mixtr degenerate_state (mk_nd [3] [0; 1; 2]%float)
  = Ok (mk_nd [3] [0.25; nan; 1]%float).
Proof. vm_compute. reflexivity. Qed.

Lemma cdf_mixtr_zero_variance_witness :
  exists c : ndarray float,
    cdf_mixtr degenerate_state (mk_nd [3] [0; 1; 2]%float) = Ok (squeeze c) /\
    shape c = [3] /\
    forall idx, in_shape idx [3] ->
      get (mk_nd [3] [0; 1; 2]%float) idx = entry (means degenerate_state) 1 ->
      get c idx = nan.
Proof.
  apply (@cdf_mixtr_zero_variance NormalCdf_float degenerate_state
           (mk_nd [3] [0; 1; 2]%float) 2 1).
  - split; [reflexivity | left; split; reflexivity].
  - lia.
  - reflexivity.
  - reflexivity.
Defined.


(* ================================================================== *)
(** * Broadcasting in general *)

Lemma bdim_sel_l (a b d i : nat) :
  bdim a b = Some d -> i < d -> (if a =? 1 then 0 else i) < a.
Proof.
  unfold bdim. intros Hd Hi.
  destruct (Nat.eqb_spec a b) as [E|E].
  - injection Hd as <-. destruct (Nat.eqb_spec a 1); lia.
  - destruct (Nat.eqb_spec a 1) as [E1|E1]; [lia|].
    destruct (Nat.eqb_spec b 1) as [E2|E2]; [|discriminate].
    injection Hd as <-. exact Hi.
Qed.

Lemma bdim_sel_r (a b d i : nat) :
  bdim a b = Some d -> i < d -> (if b =? 1 then 0 else i) < b.
Proof.
  unfold bdim. intros Hd Hi.
  destruct (Nat.eqb_spec a b) as [E|E].
  - injection Hd as <-. subst b. destruct (Nat.eqb_spec a 1); lia.
  - destruct (Nat.eqb_spec a 1) as [E1|E1].
    + injection Hd as <-. destruct (Nat.eqb_spec b 1); lia.
    + destruct (Nat.eqb_spec b 1) as [E2|E2]; [lia | discriminate].
Qed.

Lemma bzip_in_shape (p1 p2 s idx : list nat) :
  bzip p1 p2 = Some s -> in_shape idx s ->
  in_shape (bsel p1 idx) p1 /\ in_shape (bsel p2 idx) p2.
Proof.
  revert p2 s idx. induction p1 as [|a p1 IH]; intros [|b p2] s idx Hz Hv;
    try discriminate.
  - injection Hz as <-. inversion Hv; subst. split; constructor.
  - cbn [bzip] in Hz.
    destruct (bdim a b) as [d|] eqn:Ed; [|discriminate].
    destruct (bzip p1 p2) as [s'|] eqn:Ez; [|discriminate].
    injection Hz as <-. inversion Hv as [|i d' idx' s'' Hi Hv']; subst.
    destruct (IH p2 s' idx' Ez Hv') as [H1 H2].
    cbn [bsel]. split; constructor; try assumption.
    + eapply bdim_sel_l; eassumption.
    + eapply bdim_sel_r; eassumption.
Qed.

Lemma bzip_length (p1 p2 s : list nat) :
  bzip p1 p2 = Some s -> length s = length p1 /\ length s = length p2.
Proof.
  revert p2 s. induction p1 as [|a p1 IH]; intros [|b p2] s Hz; try discriminate.
  - injection Hz as <-. split; reflexivity.
  - cbn [bzip] in Hz.
    destruct (bdim a b) as [d|]; [|discriminate].
    destruct (bzip p1 p2) as [s'|] eqn:Ez; [|discriminate].
    injection Hz as <-. destruct (IH p2 s' Ez) as [H1 H2].
    cbn [length]. split; congruence.
Qed.

Lemma bsel_ones_app (m : nat) (s idx : list nat) :
  m <= length idx ->
  bsel (repeat 1 m ++ s) idx = repeat 0 m ++ bsel s (skipn m idx).
Proof.
  revert idx. induction m as [|m IH]; intros idx Hm; [reflexivity|].
  destruct idx as [|i idx]; [simpl in Hm; lia|].
  cbn [repeat app bsel skipn Nat.eqb]. rewrite IH by (simpl in Hm; lia). reflexivity.
Qed.

Lemma in_shape_ones_app (m : nat) (a s : list nat) :
  in_shape (repeat 0 m ++ a) (repeat 1 m ++ s) -> in_shape a s.
Proof.
  induction m as [|m IH]; [trivial|].
  cbn [repeat app]. intros Hv. inversion Hv; subst. now apply IH.
Qed.

Lemma pad_in_shape (n : nat) (s idx : list nat) :
  length idx = n -> length s <= n ->
  in_shape (bsel (pad n s) idx) (pad n s) -> in_shape (bidx s idx) s.
Proof.
  intros Hl Hs. unfold pad, bidx. rewrite bsel_ones_app by lia.
  rewrite Hl. apply in_shape_ones_app.
Qed.

(** The index read in each operand of a broadcast is an index of that
    operand. *)
Lemma broadcast_in_shape (s1 s2 s idx : list nat) :
  broadcast_shapes s1 s2 = Some s -> in_shape idx s ->
  in_shape (bidx s1 idx) s1 /\ in_shape (bidx s2 idx) s2.
Proof.
  unfold broadcast_shapes. intros Hz Hv.
  set (n := Nat.max (length s1) (length s2)) in *.
  destruct (@bzip_in_shape _ _ _ _ Hz Hv) as [H1 H2].
  destruct (@bzip_length _ _ _ Hz) as [L1 _].
  assert (Hn : length idx = n).
  { rewrite (in_shape_length Hv), L1. unfold pad.
    rewrite length_app, repeat_length. subst n. lia. }
  split; eapply pad_in_shape; try eassumption; subst n; lia.
Qed.

Section Map2General.
Context {A : Type} `{Dflt A}.

(** An elementwise operation on two arrays built by [build]. *)
Lemma nd_map2_build (f : A -> A -> A) (s1 s2 s : list nat) (g1 g2 : list nat -> A) :
  broadcast_shapes s1 s2 = Some s ->
  nd_map2 f (build s1 g1) (build s2 g2) =
    Ok (build s (fun idx => f (g1 (bidx s1 idx)) (g2 (bidx s2 idx)))).
Proof.
  intros Hb. unfold nd_map2. cbn [shape build]. rewrite Hb.
  f_equal. apply build_ext. intros idx Hv.
  destruct (@broadcast_in_shape _ _ _ _ Hb Hv) as [H1 H2].
  now rewrite (get_build _ H1), (get_build _ H2).
Qed.

Lemma nd_map2_build_l (f : A -> A -> A) (s1 s : list nat) (g1 : list nat -> A)
    (b : ndarray A) :
  broadcast_shapes s1 (shape b) = Some s ->
  nd_map2 f (build s1 g1) b =
    Ok (build s (fun idx => f (g1 (bidx s1 idx)) (get b (bidx (shape b) idx)))).
Proof.
  intros Hb. unfold nd_map2. cbn [shape build]. rewrite Hb.
  f_equal. apply build_ext. intros idx Hv.
  destruct (@broadcast_in_shape _ _ _ _ Hb Hv) as [H1 _].
  now rewrite (get_build _ H1).
Qed.
End Map2General.

(* ================================================================== *)
(** * The transform on other shapes, and what it preserves *)

Section TransformShapes.
Context {F : Type} `{Scalar F} `{ExpFn F}.

(** The transform at a scalar time on covariances of any shape that can
    be broadcast with the identity of their last dimension. *)
Lemma transform_scalar_time_any (st : MixState F) (sde : SDE F) (t int_b : ndarray F)
    (d : nat) (s' : list nat) :
  integrate (beta sde) t (scalar f_zero) = Ok int_b ->
  shape int_b = [] ->
  last_dim (cov st) = Ok d ->
  broadcast_shapes (shape (cov st)) [d; d] = Some s' ->
  transform_mixture_params st sde t =
    Ok (build (shape (means st))
          (fun idx => f_mul (alpha_of (item int_b)) (get (means st) idx)),
        build s'
          (fun idx =>
             f_add (f_mul (f_mul (alpha_of (item int_b)) (alpha_of (item int_b)))
                          (get (cov st) (bidx (shape (cov st)) idx)))
                   (f_mul (variance_noise_of (item int_b))
                          (get (eye d) (bidx [d; d] idx)))),
        mix_weights st).
Proof.
  intros Hint Hs Hd Hb. destruct st as [mu cv w]; simpl in *.
  unfold transform_mixture_params. rewrite Hint. cbn [bind].
  unfold nd_mul at 1. rewrite (nd_map2_item _ (scalar (f_neg f_half)) int_b eq_refl Hs).
  cbn [bind]. rewrite item_scalar.
  unfold nd_neg, nd_sub. rewrite (nd_map_item f_neg int_b Hs).
  rewrite !(nd_map_item f_exp (scalar _) eq_refl), !item_scalar.
  rewrite (nd_map2_item f_sub (scalar f_one) (scalar _) eq_refl eq_refl).
  cbn [bind]. rewrite !item_scalar.
  fold (alpha_of (item int_b)). fold (variance_noise_of (item int_b)).
  unfold nd_mul at 1. rewrite (nd_map2_scalar_l _ (scalar _) mu eq_refl).
  cbn [bind]. rewrite item_scalar.
  unfold nd_square. rewrite (nd_map_item _ (scalar _) eq_refl), item_scalar.
  unfold nd_mul at 1. rewrite (nd_map2_scalar_l _ (scalar _) cv eq_refl).
  cbn [bind]. rewrite item_scalar, Hd. cbn [bind].
  unfold nd_mul. rewrite (nd_map2_scalar_l _ (scalar _) (eye d) eq_refl).
  cbn [bind]. rewrite item_scalar.
  unfold nd_add. cbn [shape eye build].
  rewrite (@nd_map2_build _ _ f_add _ _ _ _ _ Hb). reflexivity.
Qed.

(** The same call when the covariances cannot be broadcast with the
    identity. *)
Lemma transform_scalar_time_refused (st : MixState F) (sde : SDE F) (t int_b : ndarray F)
    (d : nat) :
  integrate (beta sde) t (scalar f_zero) = Ok int_b ->
  shape int_b = [] ->
  last_dim (cov st) = Ok d ->
  broadcast_shapes (shape (cov st)) [d; d] = None ->
  transform_mixture_params st sde t = Err BroadcastError.
Proof.
  intros Hint Hs Hd Hb. destruct st as [mu cv w]; simpl in *.
  unfold transform_mixture_params. rewrite Hint. cbn [bind].
  unfold nd_mul at 1. rewrite (nd_map2_item _ (scalar (f_neg f_half)) int_b eq_refl Hs).
  cbn [bind]. rewrite item_scalar.
  unfold nd_neg, nd_sub. rewrite (nd_map_item f_neg int_b Hs).
  rewrite !(nd_map_item f_exp (scalar _) eq_refl), !item_scalar.
  rewrite (nd_map2_item f_sub (scalar f_one) (scalar _) eq_refl eq_refl).
  cbn [bind]. rewrite !item_scalar.
  unfold nd_mul at 1. rewrite (nd_map2_scalar_l _ (scalar _) mu eq_refl).
  cbn [bind]. rewrite item_scalar.
  unfold nd_square. rewrite (nd_map_item _ (scalar _) eq_refl), item_scalar.
  unfold nd_mul at 1. rewrite (nd_map2_scalar_l _ (scalar _) cv eq_refl).
  cbn [bind]. rewrite item_scalar, Hd. cbn [bind].
  unfold nd_mul. rewrite (nd_map2_scalar_l _ (scalar _) (eye d) eq_refl).
  cbn [bind]. rewrite item_scalar.
  unfold nd_add, nd_map2. cbn [shape eye build]. rewrite Hb. reflexivity.
Qed.

(** X4. The transform reads the last axis of the covariance array as the
    dimension: given the [K] variances of a univariate mixture as a vector
    (the layout [cdf_mixtr] accepts), it returns a [K x K] array whose
    entry [(i, j)] is [alpha^2 * variance_j + variance_noise * Identity(K)(i, j)],
    not [K] variances. *)
Theorem transform_mixture_params_on_variance_vector
    (st : MixState F) (sde : SDE F) (t int_b : ndarray F) (K : nat) :
  integrate (beta sde) t (scalar f_zero) = Ok int_b ->
  shape int_b = [] ->
  shape (cov st) = [K] ->
  exists means' covs',
    transform_mixture_params st sde t = Ok (means', covs', mix_weights st) /\
    shape covs' = [K; K] /\
    forall i j, i < K -> j < K ->
      get covs' [i; j] =
        f_add (f_mul (f_mul (alpha_of (item int_b)) (alpha_of (item int_b)))
                     (get (cov st) [j]))
              (f_mul (variance_noise_of (item int_b)) (identity_entry i j)).
Proof.
  intros Hint Hs Hc.
  assert (Hd : last_dim (cov st) = Ok K) by (unfold last_dim; now rewrite Hc).
  assert (Hb : broadcast_shapes (shape (cov st)) [K; K] = Some [K; K]).
  { rewrite Hc. unfold broadcast_shapes, pad; cbn. now rewrite bdim_1_l, bdim_refl. }
  rewrite (transform_scalar_time_any st sde t Hint Hs Hd Hb).
  do 2 eexists. split; [reflexivity|]. split; [reflexivity|].
  intros i j Hi Hj. rewrite get_build by in_shape_tac. rewrite Hc.
  assert (B1 : bidx [K] [i; j] = [j]).
  { unfold bidx; cbn. destruct (Nat.eqb_spec K 1); [f_equal; lia | reflexivity]. }
  assert (B2 : bidx [K; K] [i; j] = [i; j]) by (apply bidx_self; in_shape_tac).
  rewrite B1, B2. unfold eye. rewrite get_build by in_shape_tac. reflexivity.
Qed.

(** X5. The transform fails when the covariance array has rank 0 (at
    [covs.shape[-1]]), and when its matrices are rectangular, [A x B] with
    [A], [B] different and neither equal to 1 (in the sum with the
    identity); a [1 x B] row is broadcast to a [B x B] matrix instead. *)
Theorem transform_mixture_params_malformed_covariance
    (st : MixState F) (sde : SDE F) (t int_b : ndarray F) :
  integrate (beta sde) t (scalar f_zero) = Ok int_b ->
  shape int_b = [] ->
  (shape (cov st) = [] -> transform_mixture_params st sde t = Err RankError) /\
  (forall K A B, shape (cov st) = [K; A; B] -> A <> B -> A <> 1 -> B <> 1 ->
     transform_mixture_params st sde t = Err BroadcastError) /\
  (forall K B, shape (cov st) = [K; 1; B] ->
     exists means' covs',
       transform_mixture_params st sde t = Ok (means', covs', mix_weights st) /\
       shape covs' = [K; B; B]).
Proof.
  intros Hint Hs. split; [|split].
  - intros Hc. destruct st as [mu cv w]; simpl in *.
    unfold transform_mixture_params. rewrite Hint. cbn [bind].
    unfold nd_mul at 1.
    rewrite (nd_map2_item _ (scalar (f_neg f_half)) int_b eq_refl Hs).
    cbn [bind]. unfold nd_neg, nd_sub. rewrite (nd_map_item f_neg int_b Hs).
    rewrite !(nd_map_item f_exp (scalar _) eq_refl).
    rewrite (nd_map2_item f_sub (scalar f_one) (scalar _) eq_refl eq_refl).
    cbn [bind].
    unfold nd_mul at 1. rewrite (nd_map2_scalar_l _ (scalar _) mu eq_refl).
    cbn [bind].
    unfold nd_square. rewrite (nd_map_item _ (scalar _) eq_refl).
    unfold nd_mul at 1. rewrite (nd_map2_scalar_l _ (scalar _) cv eq_refl).
    cbn [bind]. unfold last_dim. rewrite Hc. reflexivity.
  - intros K A B Hc HAB HA HB.
    apply (transform_scalar_time_refused st sde t (d := B) Hint Hs).
    + unfold last_dim. now rewrite Hc.
    + rewrite Hc. unfold broadcast_shapes, pad; cbn. rewrite bdim_1_r.
      unfold bdim at 1.
      destruct (Nat.eqb_spec A B); [contradiction|].
      destruct (Nat.eqb_spec A 1); [contradiction|].
      destruct (Nat.eqb_spec B 1); [contradiction|]. reflexivity.
  - intros K B Hc.
    assert (Hd : last_dim (cov st) = Ok B) by (unfold last_dim; now rewrite Hc).
    assert (Hb : broadcast_shapes (shape (cov st)) [B; B] = Some [K; B; B]).
    { rewrite Hc. unfold broadcast_shapes, pad; cbn.
      now rewrite bdim_1_r, bdim_1_l, bdim_refl. }
    rewrite (transform_scalar_time_any st sde t Hint Hs Hd Hb).
    do 2 eexists. split; reflexivity.
Qed.

(** X6. The transform keeps covariances symmetric: if every input matrix
    equals its transpose, so does every output matrix. *)
Theorem transform_mixture_params_keeps_symmetry
    (st : MixState F) (sde : SDE F) (t int_b : ndarray F) (K D : nat) :
  integrate (beta sde) t (scalar f_zero) = Ok int_b ->
  shape int_b = [] ->
  shape (cov st) = [K; D; D] ->
  (forall k i j, k < K -> i < D -> j < D ->
     get (cov st) [k; i; j] = get (cov st) [k; j; i]) ->
  exists means' covs',
    transform_mixture_params st sde t = Ok (means', covs', mix_weights st) /\
    forall k i j, k < K -> i < D -> j < D ->
      get covs' [k; i; j] = get covs' [k; j; i].
Proof.
  intros Hint Hs Hc Hsym.
  rewrite (transform_scalar_time st sde t Hint Hs Hc).
  do 2 eexists. split; [reflexivity|].
  intros k i j Hk Hi Hj. rewrite !get_build by in_shape_tac.
  rewrite !bidx_batch by assumption.
  unfold eye. rewrite !get_build by in_shape_tac.
  rewrite (Hsym k i j Hk Hi Hj), (Nat.eqb_sym i j). reflexivity.
Qed.
End TransformShapes.

Lemma transform_mixture_params_on_variance_vector_witness :
  exists means' covs',
    transform_mixture_params variance_vector_state unit_sde (scalar 1%R)
      = Ok (means', covs', mix_weights variance_vector_state) /\
    shape covs' = [2; 2] /\
    forall i j, i < 2 -> j < 2 ->
      get covs' [i; j] =
        f_add (f_mul (f_mul (alpha_of (item (scalar (1 - 0)%R)))
                            (alpha_of (item (scalar (1 - 0)%R))))
                     (get (cov variance_vector_state) [j]))
              (f_mul (variance_noise_of (item (scalar (1 - 0)%R))) (identity_entry i j)).
Proof.
  apply (@transform_mixture_params_on_variance_vector R Scalar_R ExpFn_R
           variance_vector_state unit_sde (scalar 1%R) (scalar (1 - 0)%R) 2);
    reflexivity.
Defined.

Lemma transform_mixture_params_malformed_covariance_witness :
  transform_mixture_params scalar_covariance_state unit_sde (scalar 1%R)
    = Err RankError /\
  transform_mixture_params rectangular_state unit_sde (scalar 1%R)
    = Err BroadcastError /\
  exists means' covs',
    transform_mixture_params row_covariance_state unit_sde (scalar 1%R)
      = Ok (means', covs', mix_weights row_covariance_state) /\
    shape covs' = [1; 2; 2].
Proof.
  split; [|split].
  - apply (proj1 (@transform_mixture_params_malformed_covariance R Scalar_R ExpFn_R
             scalar_covariance_state unit_sde (scalar 1%R) (scalar (1 - 0)%R)
             eq_refl eq_refl)).
    reflexivity.
  - apply (proj1 (proj2 (@transform_mixture_params_malformed_covariance R Scalar_R
             ExpFn_R rectangular_state unit_sde (scalar 1%R) (scalar (1 - 0)%R)
             eq_refl eq_refl)) 1 2 3); [reflexivity | lia | lia | lia].
  - apply (proj2 (proj2 (@transform_mixture_params_malformed_covariance R Scalar_R
             ExpFn_R row_covariance_state unit_sde (scalar 1%R) (scalar (1 - 0)%R)
             eq_refl eq_refl)) 1 2).
    reflexivity.
Defined.

Lemma transform_mixture_params_keeps_symmetry_witness :
  exists means' covs',
    transform_mixture_params two_by_two_state unit_sde (scalar 1%R)
      = Ok (means', covs', mix_weights two_by_two_state) /\
    forall k i j, k < 2 -> i < 2 -> j < 2 ->
      get covs' [k; i; j] = get covs' [k; j; i].
Proof.
  apply (@transform_mixture_params_keeps_symmetry R Scalar_R ExpFn_R
           two_by_two_state unit_sde (scalar 1%R) (scalar (1 - 0)%R) 2 2);
    try reflexivity.
  intros k i j Hk Hi Hj.
  destruct k as [|[|k]], i as [|[|i]], j as [|[|j]]; try lia; reflexivity.
Defined.


Section RealSumsMore.
Local Open Scope R_scope.

Lemma fsum_app (l1 l2 : list R) : fsum (l1 ++ l2) = fsum l1 + fsum l2.
Proof.
  induction l1 as [|a l1 IH]; cbn [app].
  - rewrite fsum_nil. lra.
  - rewrite !fsum_cons, IH. lra.
Qed.

Lemma fsum_linear (A : Type) (a b : R) (f g : A -> R) (l : list A) :
  fsum (map (fun i => a * f i + b * g i) l) = a * fsum (map f l) + b * fsum (map g l).
Proof.
  induction l as [|i l IH]; cbn [map].
  - rewrite fsum_nil. lra.
  - rewrite !fsum_cons, IH. lra.
Qed.

Lemma fsum_ext (A : Type) (f g : A -> R) (l : list A) :
  (forall i, In i l -> f i = g i) -> fsum (map f l) = fsum (map g l).
Proof. intros Hfg. f_equal. now apply map_ext_in. Qed.

Lemma fsum_nonneg (A : Type) (f : A -> R) (l : list A) :
  (forall i, In i l -> 0 <= f i) -> 0 <= fsum (map f l).
Proof.
  induction l as [|i l IH]; intros Hf; cbn [map].
  - rewrite fsum_nil. lra.
  - rewrite fsum_cons.
    assert (0 <= f i) by (apply Hf; now left).
    assert (0 <= fsum (map f l)) by (apply IH; intros; apply Hf; now right). lra.
Qed.

Lemma fsum_zero (A : Type) (f : A -> R) (l : list A) :
  (forall i, In i l -> f i = 0) -> fsum (map f l) = 0.
Proof.
  induction l as [|i l IH]; intros Hf; cbn [map].
  - apply fsum_nil.
  - rewrite fsum_cons, (Hf i) by now left.
    rewrite IH by (intros; apply Hf; now right). lra.
Qed.

(** A sum against a row of the identity picks one term. *)
Lemma fsum_identity_row (g : nat -> R) (D i : nat) :
  (i < D)%nat ->
  fsum (map (fun j => (if (i =? j)%nat then 1 else 0) * g j) (seq 0 D)) = g i.
Proof.
  intros Hi. replace D with (i + S (D - S i))%nat by lia.
  rewrite seq_app, map_app, fsum_app. cbn [seq map Nat.add].
  rewrite fsum_cons, Nat.eqb_refl.
  rewrite !fsum_zero.
  - lra.
  - intros j Hj. apply in_seq in Hj.
    destruct (Nat.eqb_spec i j); [lia | lra].
  - intros j Hj. apply in_seq in Hj.
    destruct (Nat.eqb_spec i j); [lia | lra].
Qed.

Lemma fsum_squares_pos (x : nat -> R) (D i : nat) :
  (i < D)%nat -> x i <> 0 -> 0 < fsum (map (fun j => x j * x j) (seq 0 D)).
Proof.
  intros Hi Hx. replace D with (i + S (D - S i))%nat by lia.
  rewrite seq_app, map_app, fsum_app. cbn [seq map Nat.add]. rewrite fsum_cons.
  assert (0 <= fsum (map (fun j => x j * x j) (seq 0 i)))
    by (apply fsum_nonneg; intros; nra).
  assert (0 <= fsum (map (fun j => x j * x j) (seq (S i) (D - S i))))
    by (apply fsum_nonneg; intros; nra).
  assert (0 < x i * x i) by nra. lra.
Qed.
End RealSumsMore.

Section TransformRealMore.
Context `{ExpFn R}.
Local Open Scope R_scope.

Lemma alpha_of_square (b : R) :
  (forall x y, f_exp (x + y) = f_exp x * f_exp y) ->
  alpha_of b * alpha_of b = f_exp (- b).
Proof.
  intros Hexp. unfold alpha_of; cbn. rewrite <- Hexp. f_equal. lra.
Qed.

Lemma alpha_of_plus (b1 b2 : R) :
  (forall x y, f_exp (x + y) = f_exp x * f_exp y) ->
  alpha_of (b1 + b2) = alpha_of b1 * alpha_of b2.
Proof.
  intros Hexp. unfold alpha_of; cbn. rewrite <- Hexp. f_equal. lra.
Qed.

(** X7. Two transforms in a row are one transform: in exact arithmetic,
    with an exponential that turns sums into products, noising a state over
    a schedule integral [b1] and the result over [b2] returns what noising
    the state over [b1 + b2] returns. *)
Theorem transform_mixture_params_composes (st : MixState R) (sde : SDE R)
    (t1 t2 t12 b1 b2 b12 : ndarray R) (K D : nat) :
  (forall x y, f_exp (x + y) = f_exp x * f_exp y) ->
  integrate (beta sde) t1 (scalar 0) = Ok b1 -> shape b1 = [] ->
  integrate (beta sde) t2 (scalar 0) = Ok b2 -> shape b2 = [] ->
  integrate (beta sde) t12 (scalar 0) = Ok b12 -> shape b12 = [] ->
  item b12 = item b1 + item b2 ->
  shape (cov st) = [K; D; D] ->
  exists means1 covs1 r,
    transform_mixture_params st sde t1 = Ok (means1, covs1, mix_weights st) /\
    transform_mixture_params (Build_MixState means1 covs1 (mix_weights st)) sde t2 = Ok r /\
    transform_mixture_params st sde t12 = Ok r.
Proof.
  intros Hexp H1 S1 H2 S2 H12 S12 Hsum Hc.
  rewrite (@transform_scalar_time R Scalar_R _ st sde t1 b1 K D H1 S1 Hc).
  do 3 eexists. split; [reflexivity|]. split.
  - erewrite (@transform_scalar_time R Scalar_R _ _ sde t2 b2 K D H2 S2)
      by reflexivity.
    reflexivity.
  - rewrite (@transform_scalar_time R Scalar_R _ st sde t12 b12 K D H12 S12 Hc).
    cbn [means cov mix_weights shape build]. rewrite Hsum.
    pose proof (alpha_of_plus (item b1) (item b2) Hexp) as A12.
    pose proof (alpha_of_square (item b1) Hexp) as Q1.
    pose proof (alpha_of_square (item b2) Hexp) as Q2.
    assert (E12 : f_exp (- (item b1 + item b2)) = f_exp (- item b1) * f_exp (- item b2)).
    { rewrite <- Hexp. f_equal. lra. }
    f_equal. f_equal. f_equal.
    + apply build_ext. intros idx Hv. rewrite (get_build _ Hv).
      rewrite A12. cbn. lra.
    + apply build_ext. intros idx Hv. rewrite (get_build _ Hv).
      unfold variance_noise_of. cbn [f_sub f_add f_mul f_one f_neg Scalar_R].
      rewrite E12, <- Q1, <- Q2, A12. lra.
Qed.
End TransformRealMore.

Lemma transform_mixture_params_composes_witness :
  exists means1 covs1 r,
    transform_mixture_params two_by_two_state unit_sde (scalar 1%R)
      = Ok (means1, covs1, mix_weights two_by_two_state) /\
    transform_mixture_params
      (Build_MixState means1 covs1 (mix_weights two_by_two_state)) unit_sde (scalar 2%R)
      = Ok r /\
    transform_mixture_params two_by_two_state unit_sde (scalar 3%R) = Ok r.
Proof.
  apply (@transform_mixture_params_composes ExpFn_R two_by_two_state unit_sde
           (scalar 1%R) (scalar 2%R) (scalar 3%R)
           (scalar (1 - 0)%R) (scalar (2 - 0)%R) (scalar (3 - 0)%R) 2 2);
    try reflexivity.
  - exact exp_plus.
  - cbn. lra.
Defined.

Section TransformEntries.
Context {F : Type} `{Scalar F} `{ExpFn F}.

(** The entries of the covariances that the transform builds at a scalar
    time. *)
Lemma transformed_covariance_entry (c : ndarray F) (a v : F) (K D k i j : nat) :
  k < K -> i < D -> j < D ->
  get (build [K; D; D]
         (fun idx => f_add (f_mul a (get c idx))
                           (f_mul v (get (eye D) (bidx [D; D] idx)))))
      [k; i; j]
  = f_add (f_mul a (get c [k; i; j])) (f_mul v (identity_entry i j)).
Proof.
  intros Hk Hi Hj. rewrite get_build by in_shape_tac.
  rewrite bidx_batch by assumption.
  unfold eye. rewrite get_build by in_shape_tac. reflexivity.
Qed.
End TransformEntries.

Section TransformPositive.
Context `{ExpFn R}.
Local Open Scope R_scope.

Lemma quadratic_form_transformed (c : ndarray R) (a v : R) (K D k : nat) (x : nat -> R) :
  (k < K)%nat ->
  quadratic_form
    (build [K; D; D]
       (fun idx => a * get c idx + v * get (eye D) (bidx [D; D] idx))) k D x
  = a * quadratic_form c k D x + v * fsum (map (fun i => x i * x i) (seq 0 D)).
Proof.
  intros Hk. unfold quadratic_form.
  rewrite <- fsum_linear. apply fsum_ext. intros i Hi. apply in_seq in Hi.
  rewrite <- (fsum_identity_row (fun j => x i * x j) (D := D) (i := i)) by lia.
  rewrite <- fsum_linear. apply fsum_ext. intros j Hj. apply in_seq in Hj.
  pose proof (@transformed_covariance_entry R Scalar_R c a v K D k i j) as E.
  cbn [f_add f_mul Scalar_R] in E. rewrite E by lia.
  unfold identity_entry. cbn [f_one f_zero Scalar_R].
  destruct (i =? j)%nat; lra.
Qed.

(** X8. The transform keeps covariances positive, and regularises them.
    In exact arithmetic, with an exponential that is 1 at 0 and below 1 on
    the negative numbers, and a schedule integral that is not negative:
    if every covariance matrix of the state is positive semi-definite, so
    is every covariance matrix of the result; and when the integral is
    positive, every covariance matrix of the result is positive definite
    (also where the input had a zero variance). *)
Theorem transform_mixture_params_keeps_positive (st : MixState R) (sde : SDE R)
    (t int_b : ndarray R) (K D : nat) :
  f_exp 0 = 1 ->
  (forall x, x < 0 -> f_exp x < 1) ->
  integrate (beta sde) t (scalar 0) = Ok int_b -> shape int_b = [] ->
  0 <= item int_b ->
  shape (cov st) = [K; D; D] ->
  (forall k x, (k < K)%nat -> 0 <= quadratic_form (cov st) k D x) ->
  exists means' covs',
    transform_mixture_params st sde t = Ok (means', covs', mix_weights st) /\
    (forall k x, (k < K)%nat -> 0 <= quadratic_form covs' k D x) /\
    (0 < item int_b ->
     forall k x i, (k < K)%nat -> (i < D)%nat -> x i <> 0 ->
       0 < quadratic_form covs' k D x).
Proof.
  intros E0 Elt Hint Hs Hb Hc Hpsd.
  rewrite (@transform_scalar_time R Scalar_R _ st sde t int_b K D Hint Hs Hc).
  do 2 eexists. split; [reflexivity|].
  set (a := alpha_of (item int_b)).
  assert (Ha : 0 <= a * a) by nra.
  assert (Hv : 0 <= variance_noise_of (item int_b)).
  { unfold variance_noise_of. cbn [f_sub f_one f_neg Scalar_R].
    destruct (Req_dec (item int_b) 0) as [Z|NZ].
    - rewrite Z, Ropp_0, E0. lra.
    - assert (f_exp (- item int_b) < 1) by (apply Elt; lra). lra. }
  split.
  - intros k x Hk.
    rewrite (@quadratic_form_transformed (cov st) (a * a) _ K D k x Hk).
    assert (0 <= quadratic_form (cov st) k D x) by now apply Hpsd.
    assert (0 <= fsum (map (fun i => x i * x i) (seq 0 D)))
      by (apply fsum_nonneg; intros; nra).
    nra.
  - intros Hpos k x i Hk Hi Hx.
    rewrite (@quadratic_form_transformed (cov st) (a * a) _ K D k x Hk).
    assert (0 <= quadratic_form (cov st) k D x) by now apply Hpsd.
    assert (0 < fsum (map (fun i => x i * x i) (seq 0 D)))
      by (apply fsum_squares_pos with (i := i); assumption).
    assert (0 < variance_noise_of (item int_b)).
    { unfold variance_noise_of. cbn [f_sub f_one f_neg Scalar_R].
      assert (f_exp (- item int_b) < 1) by (apply Elt; lra). lra. }
    nra.
Qed.
End TransformPositive.

Lemma exp_below_one (x : R) : (x < 0)%R -> (exp x < 1)%R.
Proof. intros Hx. rewrite <- exp_0. now apply exp_increasing. Qed.

Lemma two_by_two_state_positive (k : nat) (x : nat -> R) :
  k < 2 -> (0 <= quadratic_form (cov two_by_two_state) k 2 x)%R.
Proof.
  intros Hk. destruct k as [|[|k]]; [| |lia];
    unfold quadratic_form; cbn [seq map]; rewrite !fsum_cons, !fsum_nil;
    cbn; nra.
Qed.

Lemma transform_mixture_params_keeps_positive_witness :
  exists means' covs',
    transform_mixture_params two_by_two_state unit_sde (scalar 1%R)
      = Ok (means', covs', mix_weights two_by_two_state) /\
    (forall k x, k < 2 -> (0 <= quadratic_form covs' k 2 x)%R) /\
    ((0 < item (scalar (1 - 0)%R))%R ->
     forall k x i, k < 2 -> i < 2 -> x i <> 0%R ->
       (0 < quadratic_form covs' k 2 x)%R).
Proof.
  apply (@transform_mixture_params_keeps_positive ExpFn_R two_by_two_state unit_sde
           (scalar 1%R) (scalar (1 - 0)%R) 2 2); try reflexivity.
  - exact exp_0.
  - exact exp_below_one.
  - cbn. lra.
  - intros k x Hk. now apply two_by_two_state_positive.
Defined.

(* ================================================================== *)
(** * More on the distribution function *)


Section CdfRange.
Context `{NormalCdf R}.
Local Open Scope R_scope.


End CdfRange.



(* ================================================================== *)
(** * The density and the distribution function at a time of no noise *)

Section TimeZero.
Context `{ExpFn R} `{NormalCdf R} `{NormalPdf R}.
Local Open Scope R_scope.

(** Where the schedule integral vanishes the transform returns its input. *)
Lemma transform_without_noise (st : MixState R) (sde : SDE R) (t int_b : ndarray R)
    (K D : nat) :
  f_exp 0 = 1 ->
  integrate (beta sde) t (scalar 0) = Ok int_b ->
  shape int_b = [] ->
  item int_b = 0 ->
  wf (means st) ->
  wf (cov st) ->
  shape (cov st) = [K; D; D] ->
  transform_mixture_params st sde t = Ok (means st, cov st, mix_weights st).
Proof.
  intros Hexp Hint Hs Hz Hwm Hwc Hc.
  rewrite (@transform_scalar_time R Scalar_R _ st sde t int_b K D Hint Hs Hc).
  rewrite Hz.
  assert (Ha : alpha_of 0 = 1).
  { unfold alpha_of; simpl. now rewrite Rmult_0_r. }
  assert (Hv : variance_noise_of 0 = 0).
  { unfold variance_noise_of; simpl. rewrite Ropp_0, Hexp. lra. }
  rewrite Ha, Hv. f_equal. f_equal. f_equal.
  - etransitivity; [|exact (build_get_id Hwm)]. apply build_ext.
    intros idx _. simpl. lra.
  - etransitivity; [|exact (build_get_id Hwc)]. rewrite Hc. apply build_ext.
    intros idx _. simpl. lra.
Qed.

(** X10. In exact arithmetic, with a library exponential that maps 0 to 1,
    at a scalar time where the schedule integral is 0 (the time 0 of a
    schedule that integrates to 0 over an empty interval), [rho_t] is
    [pdf_mixtr] and [cdf_t] is [cdf_mixtr] of the initial state, at every
    query point, errors included. *)
Theorem rho_t_cdf_t_without_noise (x t int_b : ndarray R) (st : MixState R)
    (sde : SDE R) (K D : nat) :
  f_exp 0 = 1 ->
  integrate (beta sde) t (scalar 0) = Ok int_b ->
  shape int_b = [] ->
  item int_b = 0 ->
  wf (means st) ->
  wf (cov st) ->
  shape (cov st) = [K; D; D] ->
  rho_t x t st sde = pdf_mixtr st x /\ cdf_t x t st sde = cdf_mixtr st x.
Proof.
  intros Hexp Hint Hs Hz Hwm Hwc Hc. unfold rho_t, cdf_t.
  rewrite (transform_without_noise st sde t Hexp Hint Hs Hz Hwm Hwc Hc).
  cbn [bind]. destruct st; split; reflexivity.
Qed.
End TimeZero.

Lemma rho_t_cdf_t_without_noise_witness :
  rho_t (mk_nd [1] [0%R]) (scalar 0%R) standard_state unit_sde
    = pdf_mixtr standard_state (mk_nd [1] [0%R]) /\
  cdf_t (mk_nd [1] [0%R]) (scalar 0%R) standard_state unit_sde
    = cdf_mixtr standard_state (mk_nd [1] [0%R]).
Proof.
  apply (@rho_t_cdf_t_without_noise ExpFn_R NormalCdf_R NormalPdf_R
           (mk_nd [1] [0%R]) (scalar 0%R) (scalar (0 - 0)%R) standard_state unit_sde 1 1);
    try reflexivity.
  - exact exp_0.
  - cbn. lra.
Defined.

(* ================================================================== *)
(** * The distribution function on a multivariate state *)

Lemma broadcast_shapes_row (d : nat) : broadcast_shapes [d] [d; d] = Some [d; d].
Proof. unfold broadcast_shapes, pad; cbn. now rewrite bdim_1_l, bdim_refl. Qed.

Lemma bidx_row (d i j : nat) : j < d -> bidx [d] [i; j] = [j].
Proof.
  intros Hj. unfold bidx; cbn.
  destruct (Nat.eqb_spec d 1); [f_equal; lia | reflexivity].
Qed.

Section CdfMultivariate.
Context {F : Type} `{Scalar F} `{NormalCdf F}.

(** One component in dimension [D]: the point and the mean are rows, which
    the division broadcasts against the [D x D] matrix of deviations. *)
Lemma single_cdf_matrix (x mean std weight : ndarray F) (D : nat) :
  shape x = [D] -> shape mean = [D] -> shape std = [D; D] -> shape weight = [] ->
  single_cdf x mean std weight =
    Ok (build [D; D] (fun idx =>
          match idx with
          | [i; j] =>
              f_mul (item weight)
                    (norm_cdf (f_div (f_sub (get x [j]) (get mean [j])) (get std [i; j])))
          | _ => f_zero
          end)).
Proof.
  intros Hx Hm Hs Hw. unfold single_cdf, nd_sub, nd_div, nd_mul.
  rewrite (nd_map2_same f_sub x mean) by now rewrite Hx, Hm.
  cbn [bind]. rewrite Hx.
  rewrite (@nd_map2_build_l _ _ f_div [D] [D; D] _ std)
    by (rewrite Hs; apply broadcast_shapes_row).
  cbn [bind]. rewrite (nd_map2_scalar_l f_mul weight _ Hw).
  unfold nd_map. cbn [shape build]. f_equal. apply build_ext. intros idx Hv.
  rewrite !(get_build _ Hv).
  inversion Hv as [|i n idx1 s1 Hi Hv1]; subst.
  inversion Hv1 as [|j n2 idx2 s2 Hj Hv2]; subst.
  inversion Hv2; subst.
  rewrite Hs, (bidx_row i Hj), (bidx_self (s := [D; D]) (idx := [i; j])) by in_shape_tac.
  reflexivity.
Qed.

(** X11. On a state in the layout of dimension [D >= 2] (means of shape
    [[K; D]], covariances of shape [[K; D; D]], [K] weights) and a point of
    [D] coordinates, [cdf_mixtr] raises nothing and returns no probability:
    it returns a [D x D] array whose entry [(i, j)] is the weighted sum of
    the normal distribution function at
    [(x_j - mean_kj) / sqrt(covariance_kij)]. *)
Theorem cdf_mixtr_on_multivariate_state (st : MixState F) (x : ndarray F) (K D : nat) :
  2 <= D ->
  shape (means st) = [K; D] ->
  shape (cov st) = [K; D; D] ->
  shape (mix_weights st) = [K] ->
  shape x = [D] ->
  exists r,
    cdf_mixtr st x = Ok r /\
    shape r = [D; D] /\
    forall i j, i < D -> j < D ->
      get r [i; j] =
        mixture_cdf (fun k => get (mix_weights st) [k])
                    (fun k => get (means st) [k; j])
                    (fun k => get (cov st) [k; i; j]) K (get x [j]).
Proof.
  destruct st as [mu cv w]; cbn [means cov mix_weights]. intros HD Hm Hc Hw Hx.
  unfold cdf_mixtr, vmap3, axis0, nd_sqrt, nd_map.
  cbn [shape build]. rewrite Hm, Hc, Hw. cbn [bind]. rewrite !Nat.eqb_refl. cbn [andb].
  erewrite stacked_ok with (s := [D; D]).
  2:{ intros i. apply single_cdf_matrix with (D := D).
      - exact Hx.
      - unfold slice0. now rewrite Hm.
      - reflexivity.
      - unfold slice0. now rewrite Hw. }
  2:{ intros i. reflexivity. }
  cbn [bind]. rewrite nd_sum0_build. cbn [bind].
  eexists. split; [reflexivity|]. split.
  - unfold squeeze, build; cbn [shape filter].
    destruct (Nat.eqb_spec D 1); [lia | reflexivity].
  - intros i j Hi Hj.
    assert (Hsq : forall g, get (squeeze (build [D; D] g)) [i; j] = g [i; j] :> F).
    { intros g. rewrite <- (get_build g (s := [D; D]) (idx := [i; j])) by in_shape_tac.
      unfold squeeze, get, build; cbn [shape data filter].
      destruct (Nat.eqb_spec D 1); [lia | reflexivity]. }
    rewrite Hsq. unfold mixture_cdf. f_equal.
    apply map_ext_in. intros k Hk. apply in_seq in Hk.
    rewrite get_build by in_shape_tac.
    unfold slice0. rewrite Hm, Hw. cbn [tl shape build].
    rewrite !get_build by in_shape_tac.
    unfold item. rewrite get_build by in_shape_tac. reflexivity.
Qed.
End CdfMultivariate.

Lemma cdf_mixtr_on_multivariate_state_witness :
  exists r,
    cdf_mixtr two_by_two_state (mk_nd [2] [0; 1]%R) = Ok r /\
    shape r = [2; 2] /\
    forall i j, i < 2 -> j < 2 ->
      get r [i; j] =
        mixture_cdf (fun k => get (mix_weights two_by_two_state) [k])
                    (fun k => get (means two_by_two_state) [k; j])
                    (fun k => get (cov two_by_two_state) [k; i; j]) 2
                    (get (mk_nd [2] [0; 1]%R) [j]).
Proof.
  apply (@cdf_mixtr_on_multivariate_state R Scalar_R NormalCdf_R two_by_two_state
           (mk_nd [2] [0; 1]%R) 2 2); (reflexivity || lia).
Defined.

(* ================================================================== *)
(** * The density at a batch of points *)

Section PdfBatch.
Context {F : Type} `{Scalar F} `{NormalPdf F}.

(** [a @ b] for a vector and a matrix. *)
Lemma matmul_row_matrix (a b : ndarray F) (k n : nat) :
  shape a = [k] -> shape b = [k; n] ->
  matmul a b =
    Ok (build [n] (fun idx =>
          fsum (map (fun l => f_mul (get a [l]) (get b (l :: idx))) (seq 0 k)))).
Proof.
  intros Ha Hb. unfold matmul, ndim. rewrite Ha, Hb. cbn.
  rewrite Nat.eqb_refl. f_equal. apply build_ext. intros idx Hv.
  inversion Hv as [|j ? idx1 ? Hj Hv1]; subst. inversion Hv1; subst.
  reflexivity.
Qed.

(** The density of a mixture where the library returns, for each
    component, one density per query point. *)
Lemma pdf_mixtr_vectors (st : MixState F) (x : ndarray F) (K N : nat) (sm sc : list nat)
    (p : nat -> ndarray F) :
  0 < K ->
  shape (means st) = K :: sm ->
  shape (cov st) = K :: sc ->
  shape (mix_weights st) = [K] ->
  (forall k, k < K ->
     mvn_pdf x (slice0 (means st) k) (slice0 (cov st) k) = Ok (p k)) ->
  (forall k, k < K -> shape (p k) = [N]) ->
  pdf_mixtr st x =
    Ok (build [N] (fun idx =>
          fsum (map (fun k => f_mul (get (mix_weights st) [k]) (get (p k) idx))
                    (seq 0 K)))).
Proof.
  destruct st as [mu cv w]; cbn [means cov mix_weights].
  intros HK Hm Hc Hw Hp Hs.
  unfold pdf_mixtr, vmap2, axis0, pdf_multivariate_normal.
  rewrite Hm, Hc. cbn [bind]. rewrite Nat.eqb_refl.
  rewrite (stacked_ok_pos (s := [N]) _ p HK Hp Hs).
  cbn [bind]. erewrite (matmul_row_matrix (k := K) (n := N) w _ Hw) by reflexivity.
  f_equal. apply build_ext. intros idx Hv. f_equal.
  apply map_ext_in. intros k Hk. apply in_seq in Hk.
  rewrite get_build by (constructor; [lia | exact Hv]). reflexivity.
Qed.

(** X12. At a batch of [N] query points, for which the library's density
    returns [N] values for each of the [K >= 1] components, [pdf_mixtr]
    returns [N] values: at each point the sum of the component densities
    at that point, weighted by the mixture weights. *)
Theorem pdf_mixtr_at_a_batch (st : MixState F) (x : ndarray F) (K D N : nat)
    (density : nat -> ndarray F) :
  0 < K ->
  shape (means st) = [K; D] ->
  shape (cov st) = [K; D; D] ->
  shape (mix_weights st) = [K] ->
  shape x = [N; D] ->
  (forall k, k < K ->
     mvn_pdf x (slice0 (means st) k) (slice0 (cov st) k) = Ok (density k)) ->
  (forall k, k < K -> shape (density k) = [N]) ->
  exists r,
    pdf_mixtr st x = Ok r /\
    shape r = [N] /\
    forall n, n < N ->
      get r [n] =
        fsum (map (fun k => f_mul (get (mix_weights st) [k]) (get (density k) [n]))
                  (seq 0 K)).
Proof.
  intros HK Hm Hc Hw _ Hp Hs.
  rewrite (@pdf_mixtr_vectors st x K N [D] [D; D] density HK Hm Hc Hw Hp Hs).
  eexists. split; [reflexivity|]. split; [reflexivity|].
  intros n Hn. now rewrite get_build by in_shape_tac.
Qed.
End PdfBatch.

Section PdfBounds.
Context `{NormalPdf R}.
Local Open Scope R_scope.

Lemma fsum_scale_r (A : Type) (f : A -> R) (c : R) (l : list A) :
  fsum (map (fun k => f k * c) l) = fsum (map f l) * c.
Proof.
  induction l as [|k l IH]; cbn [map].
  - rewrite fsum_nil. lra.
  - rewrite !fsum_cons, IH. lra.
Qed.

(** X13. In exact arithmetic, with non-negative weights of sum 1, the
    density [pdf_mixtr] returns at each point of a batch lies between any
    two bounds of the component densities at that point; it is not
    negative when no component density is. *)
Theorem pdf_mixtr_between_component_densities (st : MixState R) (x : ndarray R)
    (K N : nat) (sm sc : list nat) (density : nat -> ndarray R) (lo hi : nat -> R) :
  (0 < K)%nat ->
  shape (means st) = K :: sm ->
  shape (cov st) = K :: sc ->
  shape (mix_weights st) = [K] ->
  (forall k, (k < K)%nat ->
     mvn_pdf x (slice0 (means st) k) (slice0 (cov st) k) = Ok (density k)) ->
  (forall k, (k < K)%nat -> shape (density k) = [N]) ->
  (forall k, (k < K)%nat -> 0 <= get (mix_weights st) [k]) ->
  fsum (map (fun k => get (mix_weights st) [k]) (seq 0 K)) = 1 ->
  (forall k n, (k < K)%nat -> (n < N)%nat -> lo n <= get (density k) [n] <= hi n) ->
  exists r,
    pdf_mixtr st x = Ok r /\
    shape r = [N] /\
    forall n, (n < N)%nat -> lo n <= get r [n] <= hi n.
Proof.
  intros HK Hm Hc Hw Hp Hs Hpos Hsum Hb.
  rewrite (@pdf_mixtr_vectors R Scalar_R _ st x K N sm sc density HK Hm Hc Hw Hp Hs).
  eexists. split; [reflexivity|]. split; [reflexivity|].
  intros n Hn. rewrite get_build by in_shape_tac. split.
  - replace (lo n) with (fsum (map (fun k => get (mix_weights st) [k]) (seq 0 K)) * lo n)
      by (rewrite Hsum; lra).
    rewrite <- fsum_scale_r. apply fsum_le. intros k Hk. apply in_seq in Hk. cbn.
    apply Rmult_le_compat_l; [apply Hpos; lia | apply Hb; lia].
  - replace (hi n) with (fsum (map (fun k => get (mix_weights st) [k]) (seq 0 K)) * hi n)
      by (rewrite Hsum; lra).
    rewrite <- fsum_scale_r. apply fsum_le. intros k Hk. apply in_seq in Hk. cbn.
    apply Rmult_le_compat_l; [apply Hpos; lia | apply Hb; lia].
Qed.
End PdfBounds.

Lemma normal_pdf_nonneg (x m v : R) : (0 <= normal_pdf x m v)%R.
Proof.
  unfold normal_pdf, Rdiv.
  apply Rmult_le_pos; [left; apply exp_pos|].
  destruct (Req_dec (R_sqrt.sqrt (2 * PI * v)) 0) as [E|E].
  - rewrite E, Rinv_0. lra.
  - left. apply Rinv_0_lt_compat.
    pose proof (sqrt_pos (2 * PI * v)). lra.
Qed.

Lemma pdf_mixtr_at_a_batch_witness :
  exists r,
    @pdf_mixtr R Scalar_R NormalPdf_batch two_component_state (mk_nd [3; 1] [-1; 0; 1]%R)
      = Ok r /\
    shape r = [3] /\
    forall n, n < 3 ->
      get r [n] =
        fsum (map (fun k =>
                f_mul (get (mix_weights two_component_state) [k])
                      (get (build [3] (fun idx =>
                              normal_pdf (get (mk_nd [3; 1] [-1; 0; 1]%R) (idx ++ [0]))
                                         (get (means two_component_state) [k; 0])
                                         (get (cov two_component_state) [k; 0; 0])))
                           [n]))
              (seq 0 2)).
Proof.
  apply (@pdf_mixtr_at_a_batch R Scalar_R NormalPdf_batch two_component_state
           (mk_nd [3; 1] [-1; 0; 1]%R) 2 1 3
           (fun k => build [3] (fun idx =>
              normal_pdf (get (mk_nd [3; 1] [-1; 0; 1]%R) (idx ++ [0]))
                         (get (means two_component_state) [k; 0])
                         (get (cov two_component_state) [k; 0; 0]))));
    (reflexivity || lia).
Defined.

Lemma pdf_mixtr_between_component_densities_witness :
  exists r,
    @pdf_mixtr R Scalar_R NormalPdf_batch two_component_state (mk_nd [3; 1] [-1; 0; 1]%R)
      = Ok r /\
    shape r = [3] /\
    forall n, n < 3 ->
      Rle 0 (get r [n]) /\
      Rle (get r [n])
          (Rplus (normal_pdf (get (mk_nd [3; 1] [-1; 0; 1]%R) [n; 0]) 0 1)
                 (normal_pdf (get (mk_nd [3; 1] [-1; 0; 1]%R) [n; 0]) 1 4)).
Proof.
  apply (@pdf_mixtr_between_component_densities NormalPdf_batch two_component_state
           (mk_nd [3; 1] [-1; 0; 1]%R) 2 3 [1] [1; 1]
           (fun k => build [3] (fun idx =>
              normal_pdf (get (mk_nd [3; 1] [-1; 0; 1]%R) (idx ++ [0]))
                         (get (means two_component_state) [k; 0])
                         (get (cov two_component_state) [k; 0; 0])))
           (fun _ => 0%R)
           (fun n => Rplus (normal_pdf (get (mk_nd [3; 1] [-1; 0; 1]%R) [n; 0]) 0 1)
                           (normal_pdf (get (mk_nd [3; 1] [-1; 0; 1]%R) [n; 0]) 1 4)));
    try reflexivity; try lia.
  - intros k Hk. destruct k as [|[|k]]; [cbn; lra | cbn; lra | lia].
  - cbn. lra.
  - intros k n Hk Hn. rewrite get_build by (constructor; [exact Hn | constructor]).
    pose proof (normal_pdf_nonneg (get (mk_nd [3; 1] [-1; 0; 1]%R) [n; 0]) 0 1).
    pose proof (normal_pdf_nonneg (get (mk_nd [3; 1] [-1; 0; 1]%R) [n; 0]) 1 4).
    destruct k as [|[|k]]; [| |lia]; cbn [app]; cbn [means cov two_component_state];
      change (get (mk_nd [2; 1] [0; 1]%R) [0; 0]) with 0%R;
      change (get (mk_nd [2; 1] [0; 1]%R) [1; 0]) with 1%R;
      change (get (mk_nd [2; 1; 1] [1; 4]%R) [0; 0; 0]) with 1%R;
      change (get (mk_nd [2; 1; 1] [1; 4]%R) [1; 0; 0]) with 4%R; lra.
Defined.

(* ================================================================== *)
(** * The sampler on diagonal covariances and on crossed dimensions *)

Section SumOfOneTerm.
Local Open Scope R_scope.

Lemma fsum_only (f : nat -> R) (D j : nat) :
  (j < D)%nat ->
  (forall r, (r < D)%nat -> r <> j -> f r = 0) ->
  fsum (map f (seq 0 D)) = f j.
Proof.
  intros Hj Hz. replace D with (j + S (D - S j))%nat by lia.
  rewrite seq_app, map_app, fsum_app. cbn [seq map Nat.add]. rewrite fsum_cons.
  rewrite !fsum_zero.
  - lra.
  - intros r Hr. apply in_seq in Hr. apply Hz; lia.
  - intros r Hr. apply in_seq in Hr. apply Hz; lia.
Qed.

(** The Cholesky factor of a diagonal matrix is diagonal. *)
Lemma cholesky_of_diagonal (l a : ndarray R) (k D : nat) :
  cholesky_of l a k D ->
  (forall i j, (i < D)%nat -> (j < D)%nat -> i <> j -> get a [k; i; j] = 0) ->
  forall i j, (i < D)%nat -> (j < D)%nat -> i <> j -> get l [k; i; j] = 0.
Proof.
  intros (Hup & Hpos & Hprod) Hdiag.
  assert (Hlow : forall j i, (j < i)%nat -> (i < D)%nat -> get l [k; i; j] = 0).
  { induction j as [j IH] using lt_wf_ind. intros i Hji Hi.
    pose proof (Hprod i j Hi ltac:(lia)) as E.
    rewrite (Hdiag i j Hi ltac:(lia) ltac:(lia)) in E.
    rewrite (fsum_only (fun r => get l [k; i; r] * get l [k; j; r]) (D := D) (j := j))
      in E.
    - pose proof (Hpos j ltac:(lia)). nra.
    - lia.
    - intros r Hr Hne. destruct (Nat.lt_ge_cases r j) as [Hlt|Hge].
      + rewrite (IH r Hlt i) by lia. lra.
      + rewrite (Hup j r) by lia. lra. }
  intros i j Hi Hj Hne. destruct (Nat.lt_ge_cases i j) as [Hlt|Hge].
  - now apply Hup.
  - apply Hlow; lia.
Qed.
End SumOfOneTerm.

Section SamplerDiagonal.
Context {key : Type} `{Factor R} `{Random R key}.
Local Open Scope R_scope.

(** X14. In exact arithmetic, on covariance matrices that are diagonal
    (independent coordinates), when the library returns their Cholesky
    factors, every sample is [mean_k + L_k @ noise_n] for the component
    [k = idx[n]], as specified: the transposition of the factor by the
    einsum has no effect there. *)
Theorem sampler_mixtr_on_diagonal_covariances (k k1 k2 : key) (st : MixState R)
    (N D K : nat) (idx : ndarray nat) (noise L : ndarray R) :
  shape (means st) = [K; D] ->
  shape (mix_weights st) = [K] ->
  random_split k = (k1, k2) ->
  random_choice k1 (arange K) [N] (mix_weights st) = Ok idx ->
  shape idx = [N] ->
  (forall n, (n < N)%nat -> (get idx [n] < K)%nat) ->
  random_normal k2 [N; D] = Ok noise ->
  shape noise = [N; D] ->
  cholesky (cov st) = Ok L ->
  shape L = [K; D; D] ->
  (forall c, (c < K)%nat -> cholesky_of L (cov st) c D) ->
  (forall c i j, (c < K)%nat -> (i < D)%nat -> (j < D)%nat -> i <> j ->
     get (cov st) [c; i; j] = 0) ->
  exists out,
    sampler_mixtr k st N = Ok out /\
    shape out = [N; D] /\
    forall n j, (n < N)%nat -> (j < D)%nat ->
      get out [n; j] = specified_sample (means st) L noise idx D n j.
Proof.
  intros Hm Hw Hsplit Hidx Hsi Hrange Hnoise Hsn Hchol HsL Hfac Hdiag.
  rewrite (sampler_mixtr_entries k st Hm Hw Hsplit Hidx Hsi Hnoise Hsn Hchol HsL).
  eexists. split; [reflexivity|]. split; [reflexivity|].
  intros n j Hn Hj. rewrite get_build by in_shape_tac. cbn [nth].
  pose proof (Hrange n Hn) as Hc.
  rewrite Nat.min_l by lia. unfold specified_sample. f_equal.
  assert (Hl : forall i j, (i < D)%nat -> (j < D)%nat -> i <> j ->
                 get L [get idx [n]; i; j] = 0).
  { apply cholesky_of_diagonal with (a := cov st); [now apply Hfac|].
    intros i0 j0 Hi0 Hj0. now apply Hdiag. }
  rewrite (fsum_only (fun r => f_mul (get L [get idx [n]; r; j]) (get noise [n; r]))
             (D := D) (j := j)); [|exact Hj|].
  - rewrite (fsum_only (fun i => f_mul (get L [get idx [n]; j; i]) (get noise [n; i]))
               (D := D) (j := j)); [reflexivity | exact Hj |].
    intros r Hr Hne. cbv beta. rewrite (Hl j r) by lia. apply Rmult_0_l.
  - intros r Hr Hne. cbv beta. rewrite (Hl r j) by lia. apply Rmult_0_l.
Qed.
End SamplerDiagonal.

Section SamplerCrossed.
Context {F key : Type} `{Scalar F} `{Factor F} `{Random F key}.

(** X15. When the means are in dimension [D] and the Cholesky factors are
    [E x E] matrices with [E] different from [D] and neither equal to 1,
    the sampler fails in the contraction of the factors with the noise,
    after all the library calls have succeeded. *)
Theorem sampler_mixtr_crossed_dimensions (k k1 k2 : key) (st : MixState F)
    (N D E K1 K2 K3 : nat) (sw : list nat) (idx : ndarray nat) (noise L : ndarray F) :
  shape (means st) = [K1; D] ->
  shape (mix_weights st) = K3 :: sw ->
  random_split k = (k1, k2) ->
  random_choice k1 (arange K3) [N] (mix_weights st) = Ok idx ->
  shape idx = [N] ->
  random_normal k2 [N; D] = Ok noise ->
  shape noise = [N; D] ->
  cholesky (cov st) = Ok L ->
  shape L = [K2; E; E] ->
  E <> D -> E <> 1 -> D <> 1 ->
  sampler_mixtr k st N = Err ContractionError.
Proof.
  destruct st as [mu sg w]; cbn [means cov mix_weights].
  intros Hm Hw Hsplit Hidx Hsi Hnoise Hsn Hchol HsL HED HE HD.
  unfold sampler_mixtr, last_dim, len. rewrite Hm, Hw. cbn [rev app bind].
  rewrite Hsplit, Hidx. cbn [bind]. rewrite Hnoise. cbn [bind].
  rewrite Hchol. cbn [bind]. unfold take, ndim. rewrite HsL, Hsi.
  cbn [bind app length]. unfold einsum_nij_ni_nj. cbn [shape build].
  rewrite Hsn, bdim_refl. unfold bdim.
  destruct (Nat.eqb_spec E D); [contradiction|].
  destruct (Nat.eqb_spec E 1); [contradiction|].
  destruct (Nat.eqb_spec D 1); [contradiction|]. reflexivity.
Qed.
End SamplerCrossed.

(** The reference library on [diagonal_state], with the key 0. *)
Lemma diagonal_state_evaluation :
  @random_split R nat _ 0 = (1, 2) /\
  random_choice 1 (arange 1) [1] (mix_weights diagonal_state) = Ok (mk_nd [1] [0]) /\
  @random_normal R nat _ 2 [1; 2] = Ok (mk_nd [1; 2] [3; 4]%R) /\
  cholesky (cov diagonal_state) = Ok (mk_nd [1; 2; 2] [1; 0; 0; 1]%R).
Proof.
  split; [reflexivity|]. split; [reflexivity|]. split.
  { cbn. unfold counter_normal, build. cbn. do 2 f_equal. repeat (f_equal; try lra). }
  cbn. unfold build. cbn. unfold fsum, dot_prefix, get. cbn.
  rewrite !sqrt_one_minus_zero.
  replace (1 - (0 + (0 - 0) / 1 * ((0 - 0) / 1)))%R with 1%R by lra.
  rewrite sqrt_1. do 2 f_equal. repeat (f_equal; try lra).
Qed.

Lemma cholesky_of_diagonal_state :
  cholesky_of (mk_nd [1; 2; 2] [1; 0; 0; 1]%R) (cov diagonal_state) 0 2.
Proof.
  split; [|split].
  - intros i j Hi Hj Hij. destruct i as [|[|i]], j as [|[|j]]; try lia. reflexivity.
  - intros i Hi. destruct i as [|[|i]]; [cbn; lra | cbn; lra | lia].
  - intros i j Hi Hj.
    destruct i as [|[|i]], j as [|[|j]]; try lia;
      cbn [seq map]; rewrite !fsum_cons, fsum_nil; cbn; lra.
Qed.

Lemma sampler_mixtr_on_diagonal_covariances_witness :
  exists out,
    sampler_mixtr 0 diagonal_state 1 = Ok out /\
    shape out = [1; 2] /\
    forall n j, n < 1 -> j < 2 ->
      get out [n; j]
      = specified_sample (means diagonal_state) (mk_nd [1; 2; 2] [1; 0; 0; 1]%R)
          (mk_nd [1; 2] [3; 4]%R) (mk_nd [1] [0]) 2 n j.
Proof.
  destruct diagonal_state_evaluation as (Hsplit & Hidx & Hnoise & Hchol).
  apply (@sampler_mixtr_on_diagonal_covariances nat Factor_R Random_R 0 1 2
           diagonal_state 1 2 1
           (mk_nd [1] [0]) (mk_nd [1; 2] [3; 4]%R) (mk_nd [1; 2; 2] [1; 0; 0; 1]%R));
    try reflexivity; try assumption.
  - intros n Hn. destruct n as [|n]; [cbn; lia | lia].
  - intros c Hc. destruct c as [|c]; [exact cholesky_of_diagonal_state | lia].
  - intros c i j Hc Hi Hj Hij.
    destruct c as [|c], i as [|[|i]], j as [|[|j]]; try lia; reflexivity.
Defined.

Lemma sampler_mixtr_crossed_dimensions_witness :
  sampler_mixtr 0 crossed_state 1 = Err ContractionError.
Proof.
  destruct diagonal_state_evaluation as (Hsplit & Hidx & _ & Hchol).
  apply (@sampler_mixtr_crossed_dimensions R nat Scalar_R Factor_R Random_R 0 1 2
           crossed_state 1 3 2 1 1 1 []
           (mk_nd [1] [0]) (build [1; 3] (fun idx => INR (S (2 + ravel [1; 3] idx))))
           (mk_nd [1; 2; 2] [1; 0; 0; 1]%R));
    try reflexivity; try assumption; lia.
Defined.

(* ================================================================== *)
(** * The initial mixture *)

Ltac index_tac :=
  unfold in_shape;
  repeat (apply Forall2_cons; [first [assumption | lia] |]); apply Forall2_nil.

Section InitMixtureProperties.
Context {F key : Type} `{Scalar F} `{Tenth F} `{Random F key} `{RandomInit F key}.

(** [a @ b] for two batches of matrices. *)
Lemma matmul_batched (a b : ndarray F) (k m l n : nat) :
  shape a = [k; m; l] -> shape b = [k; l; n] ->
  matmul a b =
    Ok (build [k; m; n] (fun idx =>
          match idx with
          | [p; i; j] =>
              fsum (map (fun r => f_mul (get a [p; i; r]) (get b [p; r; j])) (seq 0 l))
          | _ => f_zero
          end)).
Proof.
  intros Ha Hb. unfold matmul, ndim. rewrite Ha, Hb. cbn.
  rewrite bdim_refl, Nat.eqb_refl. cbn [length app].
  f_equal. apply build_ext. intros idx Hv.
  inversion Hv as [|p ? idx1 ? Hp Hv1]; subst.
  inversion Hv1 as [|i ? idx2 ? Hi Hv2]; subst.
  inversion Hv2 as [|j ? idx3 ? Hj Hv3]; subst. inversion Hv3; subst.
  cbn [firstn skipn hd last length Nat.sub app].
  destruct (Nat.eqb_spec k 1) as [E|E]; [|reflexivity].
  assert (p = 0) by lia. subst p. reflexivity.
Qed.

(** What [init_mixture] returns when the generator returns arrays of the
    shapes it is asked for. *)
Lemma init_mixture_entries (k : key) (d : nat) (m c w : ndarray F) :
  random_uniform k [3; d] (-3)%Z 3%Z = Ok m ->
  random_normal (key_add k 1) [3; d; d] = Ok c ->
  shape c = [3; d; d] ->
  random_uniform (key_add k 2) [3] 0%Z 1%Z = Ok w ->
  shape w = [3] ->
  init_mixture k d =
    Ok (Build_MixState m
          (build [3; d; d] (fun idx =>
             match idx with
             | [p; i; j] =>
                 f_mul f_tenth
                       (fsum (map (fun r => f_mul (get c [p; i; r]) (get c [p; j; r]))
                                  (seq 0 d)))
             | _ => f_zero
             end))
          (build [3] (fun idx => f_div (get w idx) (fsum (data w))))).
Proof.
  intros Hm Hc Hsc Hw Hsw. unfold init_mixture.
  rewrite Hm. cbn [bind]. rewrite Hc. cbn [bind].
  unfold transpose_021. rewrite Hsc. cbn [bind].
  erewrite (matmul_batched (k := 3) (m := d) (l := d) (n := d) c _ Hsc) by reflexivity.
  cbn [bind]. unfold nd_mul. rewrite (nd_map2_scalar_l f_mul (scalar f_tenth) _ eq_refl).
  cbn [bind shape build]. rewrite Hw. cbn [bind].
  unfold nd_div, nd_sum. rewrite (nd_map2_scalar_r f_div w (scalar _) eq_refl).
  cbn [bind]. rewrite Hsw, !item_scalar. f_equal. f_equal.
  apply build_ext. intros idx Hv. rewrite (get_build _ Hv).
  inversion Hv as [|p ? idx1 ? Hp Hv1]; subst.
  inversion Hv1 as [|i ? idx2 ? Hi Hv2]; subst.
  inversion Hv2 as [|j ? idx3 ? Hj Hv3]; subst. inversion Hv3; subst.
  f_equal. f_equal. apply map_ext_in. intros r Hr. apply in_seq in Hr.
  rewrite get_build by index_tac. reflexivity.
Qed.

(** X16. When the generator returns arrays of the shapes it is asked for,
    [init_mixture(key, d)] returns a state of 3 components in dimension
    [d] whose arrays have consistent shapes ([[3; d]], [[3; d; d]], [[3]]);
    its means are the first draw, and covariance [k] is the symmetric
    matrix [0.1 * C_k @ C_k^T] of the normal draw [C_k], when the
    multiplication of scalars is commutative. *)
Theorem init_mixture_consistent_symmetric (k : key) (d : nat) (m c w : ndarray F) :
  (forall a b : F, f_mul a b = f_mul b a) ->
  random_uniform k [3; d] (-3)%Z 3%Z = Ok m ->
  shape m = [3; d] ->
  random_normal (key_add k 1) [3; d; d] = Ok c ->
  shape c = [3; d; d] ->
  random_uniform (key_add k 2) [3] 0%Z 1%Z = Ok w ->
  shape w = [3] ->
  exists st,
    init_mixture k d = Ok st /\
    consistent_shapes st /\
    means st = m /\
    (forall p i j, p < 3 -> i < d -> j < d ->
       get (cov st) [p; i; j] =
         f_mul f_tenth
               (fsum (map (fun r => f_mul (get c [p; i; r]) (get c [p; j; r])) (seq 0 d)))) /\
    (forall p i j, p < 3 -> i < d -> j < d ->
       get (cov st) [p; i; j] = get (cov st) [p; j; i]).
Proof.
  intros Hcomm Hm Hsm Hc Hsc Hw Hsw.
  rewrite (@init_mixture_entries k d m c w Hm Hc Hsc Hw Hsw).
  eexists. split; [reflexivity|]. cbn [means cov mix_weights].
  split; [exists 3, d; cbn [means cov mix_weights]; now rewrite Hsm|].
  split; [reflexivity|]. split.
  - intros p i j Hp Hi Hj. now rewrite get_build by index_tac.
  - intros p i j Hp Hi Hj. rewrite !get_build by index_tac.
    f_equal. f_equal. apply map_ext. intros r. apply Hcomm.
Qed.
End InitMixtureProperties.

Lemma init_mixture_consistent_symmetric_witness :
  exists st,
    init_mixture 0 2 = Ok st /\
    consistent_shapes st /\
    means st = uniform_draw 0 [3; 2] (-3) 3 /\
    (forall p i j, p < 3 -> i < 2 -> j < 2 ->
       get (cov st) [p; i; j] =
         f_mul f_tenth
               (fsum (map (fun r => f_mul (get (normal_draw 1 [3; 2; 2]) [p; i; r])
                                          (get (normal_draw 1 [3; 2; 2]) [p; j; r]))
                          (seq 0 2)))) /\
    (forall p i j, p < 3 -> i < 2 -> j < 2 ->
       get (cov st) [p; i; j] = get (cov st) [p; j; i]).
Proof.
  apply (@init_mixture_consistent_symmetric R nat Scalar_R Tenth_R Random_R RandomInit_R
           0 2 (uniform_draw 0 [3; 2] (-3) 3) (normal_draw 1 [3; 2; 2])
           (uniform_draw 2 [3] 0 1));
    try reflexivity.
  exact Rmult_comm.
Defined.

Section GramSums.
Local Open Scope R_scope.

Lemma fsum_scale_l (A : Type) (c : R) (f : A -> R) (l : list A) :
  fsum (map (fun k => c * f k) l) = c * fsum (map f l).
Proof.
  induction l as [|k l IH]; cbn [map].
  - rewrite fsum_nil. lra.
  - rewrite !fsum_cons, IH. lra.
Qed.

Lemma fsum_plus (A : Type) (f g : A -> R) (l : list A) :
  fsum (map (fun k => f k + g k) l) = fsum (map f l) + fsum (map g l).
Proof.
  induction l as [|k l IH]; cbn [map].
  - rewrite fsum_nil. lra.
  - rewrite !fsum_cons, IH. lra.
Qed.

Lemma fsum_swap (A B : Type) (f : A -> B -> R) (l1 : list A) (l2 : list B) :
  fsum (map (fun i => fsum (map (fun j => f i j) l2)) l1)
  = fsum (map (fun j => fsum (map (fun i => f i j) l1)) l2).
Proof.
  induction l1 as [|i l1 IH]; cbn [map].
  - rewrite fsum_nil. symmetry. apply fsum_zero. intros; apply fsum_nil.
  - rewrite fsum_cons, IH, <- fsum_plus. apply fsum_ext. intros j _.
    now rewrite fsum_cons.
Qed.

Lemma fsum_product (A B : Type) (a : A -> R) (b : B -> R) (l1 : list A) (l2 : list B) :
  fsum (map a l1) * fsum (map b l2)
  = fsum (map (fun i => fsum (map (fun j => a i * b j) l2)) l1).
Proof.
  rewrite Rmult_comm, <- fsum_scale_l. apply fsum_ext. intros i _.
  rewrite fsum_scale_l. lra.
Qed.

(** The quadratic form of [t * C @ C^T] is [t] times a sum of squares. *)
Lemma quadratic_form_gram (c : ndarray R) (t : R) (K d p : nat) (x : nat -> R) :
  (p < K)%nat ->
  quadratic_form
    (build [K; d; d] (fun idx =>
       match idx with
       | [q; i; j] =>
           t * fsum (map (fun r => get c [q; i; r] * get c [q; j; r]) (seq 0 d))
       | _ => 0
       end)) p d x
  = t * fsum (map (fun r =>
                fsum (map (fun i => x i * get c [p; i; r]) (seq 0 d))
                * fsum (map (fun i => x i * get c [p; i; r]) (seq 0 d)))
              (seq 0 d)).
Proof.
  intros Hp. unfold quadratic_form.
  transitivity
    (fsum (map (fun i => fsum (map (fun j => fsum (map (fun r =>
       t * ((x i * get c [p; i; r]) * (x j * get c [p; j; r])))
       (seq 0 d))) (seq 0 d))) (seq 0 d))).
  - apply fsum_ext. intros i Hi. apply in_seq in Hi.
    apply fsum_ext. intros j Hj. apply in_seq in Hj.
    rewrite get_build by index_tac.
    transitivity ((x i * t * x j)
                  * fsum (map (fun r => get c [p; i; r] * get c [p; j; r]) (seq 0 d)));
      [lra|].
    rewrite <- fsum_scale_l. apply fsum_ext. intros r _. lra.
  - rewrite <- fsum_scale_l.
    transitivity
      (fsum (map (fun i => fsum (map (fun r => fsum (map (fun j =>
         t * ((x i * get c [p; i; r]) * (x j * get c [p; j; r])))
         (seq 0 d))) (seq 0 d))) (seq 0 d))).
    { apply fsum_ext. intros i _. apply fsum_swap. }
    rewrite fsum_swap. apply fsum_ext. intros r _.
    rewrite fsum_product, <- fsum_scale_l. apply fsum_ext. intros i _.
    now rewrite fsum_scale_l.
Qed.
End GramSums.

Section InitMixtureReal.
Context {key : Type} `{Random R key} `{RandomInit R key}.

(** X17. In exact arithmetic, every covariance matrix that [init_mixture]
    returns is positive semi-definite: its quadratic form is [0.1] times a
    sum of squares. *)
Theorem init_mixture_covariances_positive (k : key) (d : nat) (m c w : ndarray R) :
  random_uniform k [3; d] (-3)%Z 3%Z = Ok m ->
  random_normal (key_add k 1) [3; d; d] = Ok c ->
  shape c = [3; d; d] ->
  random_uniform (key_add k 2) [3] 0%Z 1%Z = Ok w ->
  shape w = [3] ->
  exists st,
    init_mixture k d = Ok st /\
    shape (cov st) = [3; d; d] /\
    forall p x, p < 3 -> (0 <= quadratic_form (cov st) p d x)%R.
Proof.
  intros Hm Hc Hsc Hw Hsw.
  rewrite (@init_mixture_entries R key Scalar_R Tenth_R _ _ k d m c w Hm Hc Hsc Hw Hsw).
  eexists. split; [reflexivity|]. cbn [cov]. split; [reflexivity|].
  intros p x Hp.
  rewrite (@quadratic_form_gram c f_tenth 3 d p x Hp).
  apply Rmult_le_pos; [unfold f_tenth, Tenth_R; lra|].
  apply fsum_nonneg. intros r _. nra.
Qed.

(** X18. In exact arithmetic, when the uniform draws for the weights are
    not negative and not all zero, the weights that [init_mixture]
    returns are not negative and sum to 1. *)
Theorem init_mixture_weights_normalised (k : key) (d : nat) (m c w : ndarray R) :
  random_uniform k [3; d] (-3)%Z 3%Z = Ok m ->
  random_normal (key_add k 1) [3; d; d] = Ok c ->
  shape c = [3; d; d] ->
  random_uniform (key_add k 2) [3] 0%Z 1%Z = Ok w ->
  shape w = [3] ->
  wf w ->
  (forall i, i < 3 -> (0 <= get w [i])%R) ->
  (exists i, i < 3 /\ get w [i] <> 0%R) ->
  exists st,
    init_mixture k d = Ok st /\
    shape (mix_weights st) = [3] /\
    (forall i, i < 3 -> (0 <= get (mix_weights st) [i])%R) /\
    fsum (map (fun i => get (mix_weights st) [i]) (seq 0 3)) = 1%R.
Proof.
  intros Hm Hc Hsc Hw Hsw Hwf Hpos [i0 [Hi0 Hnz]].
  rewrite (@init_mixture_entries R key Scalar_R Tenth_R _ _ k d m c w Hm Hc Hsc Hw Hsw).
  eexists. split; [reflexivity|]. cbn [mix_weights]. split; [reflexivity|].
  assert (Hdata : fsum (data w) = Rplus (Rplus (get w [0]) (get w [1])) (get w [2])).
  { destruct w as [sh dt]. cbn [shape] in Hsw. subst sh.
    unfold wf in Hwf. cbn in Hwf.
    destruct dt as [|a [|b [|e [|? ?]]]]; try discriminate.
    cbn [data]. rewrite !fsum_cons, fsum_nil. unfold get. cbn. lra. }
  pose proof (Hpos 0 ltac:(lia)) as P0.
  pose proof (Hpos 1 ltac:(lia)) as P1.
  pose proof (Hpos 2 ltac:(lia)) as P2.
  assert (Hs : (0 < fsum (data w))%R).
  { rewrite Hdata. destruct i0 as [|[|[|i0]]]; [| | |lia]; lra. }
  split.
  - intros i Hi. rewrite get_build by index_tac. cbn.
    apply Rmult_le_pos; [now apply Hpos|]. left. now apply Rinv_0_lt_compat.
  - cbn [seq map]. rewrite !get_build by index_tac.
    rewrite !fsum_cons, fsum_nil. cbn [f_div Scalar_R].
    pose proof (Rinv_r (fsum (data w)) (Rgt_not_eq _ _ Hs)) as Hinv.
    rewrite Hdata in Hinv at 1. unfold Rdiv. nra.
Qed.
End InitMixtureReal.

Lemma init_mixture_covariances_positive_witness :
  exists st,
    init_mixture 0 2 = Ok st /\
    shape (cov st) = [3; 2; 2] /\
    forall p x, p < 3 -> (0 <= quadratic_form (cov st) p 2 x)%R.
Proof.
  apply (@init_mixture_covariances_positive nat Random_R RandomInit_R
           0 2 (uniform_draw 0 [3; 2] (-3) 3) (normal_draw 1 [3; 2; 2])
           (uniform_draw 2 [3] 0 1));
    reflexivity.
Defined.

Lemma uniform_draw_weights (i : nat) :
  i < 3 -> Rlt 0 (get (uniform_draw 2 [3] 0 1) [i]).
Proof.
  intros Hi. unfold uniform_draw. rewrite get_build by index_tac.
  destruct i as [|[|[|i]]]; [| | |lia]; cbn; lra.
Qed.

Lemma init_mixture_weights_normalised_witness :
  exists st,
    init_mixture 0 2 = Ok st /\
    shape (mix_weights st) = [3] /\
    (forall i, i < 3 -> (0 <= get (mix_weights st) [i])%R) /\
    fsum (map (fun i => get (mix_weights st) [i]) (seq 0 3)) = 1%R.
Proof.
  apply (@init_mixture_weights_normalised nat Random_R RandomInit_R
           0 2 (uniform_draw 0 [3; 2] (-3) 3) (normal_draw 1 [3; 2; 2])
           (uniform_draw 2 [3] 0 1));
    try reflexivity.
  - intros i Hi. left. now apply uniform_draw_weights.
  - exists 0. split; [lia|]. apply Rgt_not_eq. apply uniform_draw_weights. lia.
Defined.

(* ================================================================== *)
(** * Variance preservation *)

Section VariancePreserving.
Context `{ExpFn R}.

(** X19. The transform is variance preserving: in exact arithmetic, with
    an exponential that turns sums into products, the deviation of every
    covariance matrix from the identity is multiplied by [exp(-int_b)],
    [covs' - Identity = exp(-int_b) * (covs - Identity)] entry by entry; a
    component of identity covariance keeps it at every time. *)
Theorem transform_mixture_params_variance_preserving (st : MixState R) (sde : SDE R)
    (t int_b : ndarray R) (K D : nat) :
  (forall x y : R, f_exp (x + y)%R = (f_exp x * f_exp y)%R) ->
  integrate (beta sde) t (scalar 0%R) = Ok int_b ->
  shape int_b = [] ->
  shape (cov st) = [K; D; D] ->
  exists means' covs',
    transform_mixture_params st sde t = Ok (means', covs', mix_weights st) /\
    (forall k i j, k < K -> i < D -> j < D ->
       (get covs' [k; i; j] - identity_entry i j
        = f_exp (- item int_b) * (get (cov st) [k; i; j] - identity_entry i j))%R) /\
    (forall k, k < K ->
       (forall i j, i < D -> j < D -> get (cov st) [k; i; j] = identity_entry i j) ->
       forall i j, i < D -> j < D -> get covs' [k; i; j] = identity_entry i j).
Proof.
  intros Hexp Hint Hs Hc.
  rewrite (@transform_scalar_time R Scalar_R _ st sde t int_b K D Hint Hs Hc).
  do 2 eexists. split; [reflexivity|].
  pose proof (alpha_of_square (item int_b) Hexp) as Q.
  assert (E : forall k i j, k < K -> i < D -> j < D ->
            (get (build [K; D; D] (fun idx =>
                    f_add (f_mul (f_mul (alpha_of (item int_b)) (alpha_of (item int_b)))
                                 (get (cov st) idx))
                          (f_mul (variance_noise_of (item int_b))
                                 (get (eye D) (bidx [D; D] idx))))) [k; i; j]
             - identity_entry i j
             = f_exp (- item int_b) * (get (cov st) [k; i; j] - identity_entry i j))%R).
  { intros k i j Hk Hi Hj.
    rewrite (@transformed_covariance_entry R Scalar_R (cov st) _ _ K D k i j Hk Hi Hj).
    unfold variance_noise_of. cbn [f_add f_mul f_sub f_one f_neg Scalar_R].
    rewrite Q. lra. }
  split; [exact E|].
  intros k Hk Hid i j Hi Hj.
  pose proof (E k i j Hk Hi Hj) as Ek. rewrite (Hid i j Hi Hj) in Ek.
  rewrite Rminus_diag, Rmult_0_r in Ek. lra.
Qed.
End VariancePreserving.

Lemma transform_mixture_params_variance_preserving_witness :
  exists means' covs',
    transform_mixture_params two_by_two_state unit_sde (scalar 1%R)
      = Ok (means', covs', mix_weights two_by_two_state) /\
    (forall k i j, k < 2 -> i < 2 -> j < 2 ->
       Rminus (get covs' [k; i; j]) (identity_entry i j)
       = Rmult (f_exp (Ropp (item (scalar (1 - 0)%R))))
               (Rminus (get (cov two_by_two_state) [k; i; j]) (identity_entry i j))) /\
    (forall k, k < 2 ->
       (forall i j, i < 2 -> j < 2 ->
          get (cov two_by_two_state) [k; i; j] = identity_entry i j) ->
       forall i j, i < 2 -> j < 2 -> get covs' [k; i; j] = identity_entry i j).
Proof.
  apply (@transform_mixture_params_variance_preserving ExpFn_R two_by_two_state
           unit_sde (scalar 1%R) (scalar (1 - 0)%R) 2 2); try reflexivity.
  exact exp_plus.
Defined.

(* ================================================================== *)
(** * The density at a diffusion time *)

Section RhoTime.
Context {F : Type} `{Scalar F} `{ExpFn F} `{NormalPdf F}.

Lemma slice0_build (K : nat) (s : list nat) (g : list nat -> F) (k : nat) :
  k < K -> slice0 (build (K :: s) g) k = build s (fun idx => g (k :: idx)).
Proof.
  intros Hk. unfold slice0. cbn [shape build tl]. apply build_ext. intros idx Hv.
  apply get_build. constructor; assumption.
Qed.

(** X20. For [K >= 1] components in dimension [D] and a scalar time,
    [rho_t] returns [sum_k weight_k * density_k], where [density_k] is what
    the library's density returns for the mean [alpha * mean_k] and the
    covariance [alpha^2 * covariance_k + variance_noise * Identity(D)]: the
    density of the mixture of the transformed components, under the
    weights of the initial state. *)
Theorem rho_t_weighted_sum (x t int_b : ndarray F) (st : MixState F) (sde : SDE F)
    (K D : nat) (density : nat -> F) :
  0 < K ->
  shape (means st) = [K; D] ->
  shape (cov st) = [K; D; D] ->
  shape (mix_weights st) = [K] ->
  integrate (beta sde) t (scalar f_zero) = Ok int_b ->
  shape int_b = [] ->
  (forall k, k < K ->
     mvn_pdf x
       (build [D] (fun idx => f_mul (alpha_of (item int_b)) (get (means st) (k :: idx))))
       (build [D; D] (fun idx =>
          f_add (f_mul (f_mul (alpha_of (item int_b)) (alpha_of (item int_b)))
                       (get (cov st) (k :: idx)))
                (f_mul (variance_noise_of (item int_b))
                       (identity_entry (nth 0 idx 0) (nth 1 idx 0)))))
     = Ok (scalar (density k))) ->
  rho_t x t st sde =
    Ok (scalar (fsum (map (fun k => f_mul (get (mix_weights st) [k]) (density k))
                          (seq 0 K)))).
Proof.
  intros HK Hm Hc Hw Hint Hs Hp. unfold rho_t.
  rewrite (transform_scalar_time st sde t Hint Hs Hc), Hm. cbn [bind].
  apply (@pdf_mixtr_scalars F _ _ (Build_MixState _ _ _) x K [D] [D; D] density HK);
    [reflexivity | reflexivity | exact Hw |].
  intros k Hk. cbn [means cov]. rewrite !(slice0_build _ _ Hk).
  rewrite <- (Hp k Hk). f_equal. apply build_ext. intros idx Hv.
  inversion Hv as [|i ? idx1 ? Hi Hv1]; subst.
  inversion Hv1 as [|j ? idx2 ? Hj Hv2]; subst. inversion Hv2; subst.
  rewrite bidx_batch by assumption. unfold eye.
  rewrite get_build by in_shape_tac. reflexivity.
Qed.
End RhoTime.

Lemma rho_t_weighted_sum_witness :
  rho_t (mk_nd [1] [0%R]) (scalar 1%R) standard_state unit_sde =
    Ok (scalar (fsum (map (fun k =>
          f_mul (get (mix_weights standard_state) [k])
                (normal_pdf 0
                   (f_mul (alpha_of (item (scalar (1 - 0)%R)))
                          (get (means standard_state) [k; 0]))
                   (f_add (f_mul (f_mul (alpha_of (item (scalar (1 - 0)%R)))
                                        (alpha_of (item (scalar (1 - 0)%R))))
                                 (get (cov standard_state) [k; 0; 0]))
                          (f_mul (variance_noise_of (item (scalar (1 - 0)%R)))
                                 (identity_entry 0 0)))))
        (seq 0 1)))).
Proof.
  apply (@rho_t_weighted_sum R Scalar_R ExpFn_R NormalPdf_R
           (mk_nd [1] [0%R]) (scalar 1%R) (scalar (1 - 0)%R) standard_state unit_sde 1 1);
    try reflexivity. lia.
Defined.

(* ================================================================== *)
(** * A vector of times *)

Lemma broadcast_shapes_last (k d : nat) : broadcast_shapes [d] [k; d] = Some [k; d].
Proof. unfold broadcast_shapes, pad; cbn. now rewrite bdim_1_l, bdim_refl. Qed.

Lemma broadcast_shapes_last3 (k d : nat) :
  broadcast_shapes [d] [k; d; d] = Some [k; d; d].
Proof. unfold broadcast_shapes, pad; cbn. now rewrite !bdim_1_l, bdim_refl. Qed.

Lemma bidx_last3 (d k i j : nat) : j < d -> bidx [d] [k; i; j] = [j].
Proof.
  intros Hj. unfold bidx; cbn.
  destruct (Nat.eqb_spec d 1); [f_equal; lia | reflexivity].
Qed.

Section VectorTime.
Context {F : Type} `{Scalar F} `{ExpFn F}.

(** X21. A vector of times is not mapped over.  When the schedule
    integral is a vector of [T] values and the means have shape [[K; D]]:
    for [T] different from [D], neither equal to 1, the transform fails at
    [alpha * means]; for [T = D] it raises nothing and pairs the time [j]
    with the coordinate [j]: mean [(k, j)] is scaled by [alpha_j], and
    covariance [(k, i, j)] becomes
    [alpha_j^2 * covariance_kij + variance_noise_j * Identity(D)(i, j)]. *)
Theorem transform_mixture_params_vector_time (st : MixState F) (sde : SDE F)
    (t int_b : ndarray F) (T K D : nat) :
  integrate (beta sde) t (scalar f_zero) = Ok int_b ->
  shape int_b = [T] ->
  shape (means st) = [K; D] ->
  (T <> D -> T <> 1 -> D <> 1 ->
   transform_mixture_params st sde t = Err BroadcastError) /\
  (T = D -> shape (cov st) = [K; D; D] ->
   exists means' covs',
     transform_mixture_params st sde t = Ok (means', covs', mix_weights st) /\
     shape means' = [K; D] /\
     shape covs' = [K; D; D] /\
     (forall k j, k < K -> j < D ->
        get means' [k; j] = f_mul (alpha_of (get int_b [j])) (get (means st) [k; j])) /\
     (forall k i j, k < K -> i < D -> j < D ->
        get covs' [k; i; j] =
          f_add (f_mul (f_mul (alpha_of (get int_b [j])) (alpha_of (get int_b [j])))
                       (get (cov st) [k; i; j]))
                (f_mul (variance_noise_of (get int_b [j])) (identity_entry i j)))).
Proof.
  intros Hint Hs Hm. destruct st as [mu cv w]; cbn [means cov mix_weights] in *.
  assert (Hpre : transform_mixture_params (Build_MixState mu cv w) sde t =
    (means' <- nd_mul (build [T] (fun idx => alpha_of (get int_b idx))) mu ;;
     c1 <- nd_mul (build [T] (fun idx =>
                     f_mul (alpha_of (get int_b idx)) (alpha_of (get int_b idx)))) cv ;;
     d <- last_dim cv ;;
     c2 <- nd_mul (build [T] (fun idx => variance_noise_of (get int_b idx))) (eye d) ;;
     covs' <- nd_add c1 c2 ;;
     Ok (means', covs', w))).
  { unfold transform_mixture_params. rewrite Hint. cbn [bind].
    unfold nd_mul at 1.
    rewrite (nd_map2_scalar_l _ (scalar (f_neg f_half)) int_b eq_refl).
    cbn [bind]. unfold nd_neg, nd_sub, nd_square, nd_map. cbn [shape build].
    rewrite (nd_map2_scalar_l _ (scalar f_one) _ eq_refl).
    cbn [bind shape build]. rewrite Hs, !item_scalar.
    assert (Ea : build [T] (fun idx =>
                   f_exp (get (build [T] (fun idx0 =>
                                 f_mul (f_neg f_half) (get int_b idx0))) idx))
                 = build [T] (fun idx => alpha_of (get int_b idx))).
    { apply build_ext. intros idx Hv. now rewrite (get_build _ Hv). }
    rewrite Ea.
    assert (Eq : build [T] (fun idx =>
                   f_mul (get (build [T] (fun idx0 => alpha_of (get int_b idx0))) idx)
                         (get (build [T] (fun idx0 => alpha_of (get int_b idx0))) idx))
                 = build [T] (fun idx =>
                     f_mul (alpha_of (get int_b idx)) (alpha_of (get int_b idx)))).
    { apply build_ext. intros idx Hv. now rewrite (get_build _ Hv). }
    rewrite Eq.
    assert (Eb : build [T] (fun idx =>
                   f_sub f_one
                     (get (build [T] (fun idx0 =>
                             f_exp (get (build [T] (fun idx1 => f_neg (get int_b idx1)))
                                        idx0))) idx))
                 = build [T] (fun idx => variance_noise_of (get int_b idx))).
    { apply build_ext. intros idx Hv. now rewrite !(get_build _ Hv). }
    rewrite Eb. reflexivity. }
  rewrite Hpre. split.
  - intros HTD HT HD. unfold nd_mul at 1, nd_map2. cbn [shape build]. rewrite Hm.
    unfold broadcast_shapes, pad; cbn. rewrite bdim_1_l. unfold bdim.
    destruct (Nat.eqb_spec T D); [contradiction|].
    destruct (Nat.eqb_spec T 1); [contradiction|].
    destruct (Nat.eqb_spec D 1); [contradiction|]. reflexivity.
  - intros -> Hc. unfold nd_mul, nd_add.
    rewrite (@nd_map2_build_l _ _ f_mul [D] [K; D] _ mu)
      by (rewrite Hm; apply broadcast_shapes_last).
    cbn [bind].
    rewrite (@nd_map2_build_l _ _ f_mul [D] [K; D; D] _ cv)
      by (rewrite Hc; apply broadcast_shapes_last3).
    cbn [bind]. unfold last_dim. rewrite Hc. cbn [rev app bind].
    unfold eye at 1.
    rewrite (@nd_map2_build _ _ f_mul [D] [D; D] [D; D] _ _ (broadcast_shapes_row D)).
    cbn [bind].
    rewrite (@nd_map2_build _ _ f_add [K; D; D] [D; D] [K; D; D] _ _
               (broadcast_shapes_batch K D)).
    do 2 eexists. split; [reflexivity|]. split; [reflexivity|]. split; [reflexivity|].
    split.
    + intros k j Hk Hj. rewrite get_build by in_shape_tac.
      rewrite Hm, (bidx_row k Hj), (bidx_self (s := [K; D]) (idx := [k; j]))
        by in_shape_tac.
      reflexivity.
    + intros k i j Hk Hi Hj. rewrite get_build by in_shape_tac.
      rewrite (bidx_self (s := [K; D; D]) (idx := [k; i; j])) by in_shape_tac.
      rewrite (bidx_batch k Hi Hj), (bidx_last3 k i Hj), (bidx_row i Hj).
      rewrite (bidx_self (s := [D; D]) (idx := [i; j])) by in_shape_tac.
      rewrite (bidx_self (s := [K; D; D]) (idx := [k; i; j])) by in_shape_tac.
      reflexivity.
Qed.
End VectorTime.

Lemma transform_mixture_params_vector_time_witness :
  transform_mixture_params two_by_two_state unit_sde (mk_nd [3] [1; 2; 3]%R)
    = Err BroadcastError /\
  exists means' covs',
    transform_mixture_params two_by_two_state unit_sde (mk_nd [2] [1; 2]%R)
      = Ok (means', covs', mix_weights two_by_two_state) /\
    shape means' = [2; 2] /\
    shape covs' = [2; 2; 2] /\
    (forall k j, k < 2 -> j < 2 ->
       get means' [k; j]
       = f_mul (alpha_of (get (mk_nd [2] [1 - 0; 2 - 0]%R) [j]))
               (get (means two_by_two_state) [k; j])) /\
    (forall k i j, k < 2 -> i < 2 -> j < 2 ->
       get covs' [k; i; j] =
         f_add (f_mul (f_mul (alpha_of (get (mk_nd [2] [1 - 0; 2 - 0]%R) [j]))
                             (alpha_of (get (mk_nd [2] [1 - 0; 2 - 0]%R) [j])))
                      (get (cov two_by_two_state) [k; i; j]))
               (f_mul (variance_noise_of (get (mk_nd [2] [1 - 0; 2 - 0]%R) [j]))
                      (identity_entry i j))).
Proof.
  split.
  - apply (proj1 (@transform_mixture_params_vector_time R Scalar_R ExpFn_R
             two_by_two_state unit_sde (mk_nd [3] [1; 2; 3]%R)
             (mk_nd [3] [1 - 0; 2 - 0; 3 - 0]%R) 3 2 2 eq_refl eq_refl eq_refl)); lia.
  - apply (proj2 (@transform_mixture_params_vector_time R Scalar_R ExpFn_R
             two_by_two_state unit_sde (mk_nd [2] [1; 2]%R)
             (mk_nd [2] [1 - 0; 2 - 0]%R) 2 2 2 eq_refl eq_refl eq_refl));
      reflexivity.
Defined.

(* ================================================================== *)
(** * Plotting the trajectories *)

Section DisplayTrajectoriesProperties.
Context {F : Type} `{Plotting F}.

(** The colour and style of line [i] among [m]. *)
Lemma plot_lines_all (Y : ndarray F) (m : Z) (I' : ndarray Z) (rows : nat -> ndarray F)
    (n a : nat) (plotted : list (plot_call F)) :
  m <> 1%Z ->
  (forall i, a <= i < a + n -> row_of Y (slice0 I' i) = Ok (rows i)) ->
  plot_lines Y m (map (slice0 I') (seq a n)) (Z.of_nat a) plotted =
    (plotted ++
     map (fun i =>
            {| line := rows i;
               red := PrimFloat.div (py_float (Z.of_nat i)) (py_float (m - 1));
               green := 0;
               blue := PrimFloat.sub 1 (PrimFloat.div (py_float (Z.of_nat i))
                                                      (py_float (m - 1)));
               line_alpha := 0x1.3333333333333p-2;
               linewidth := 0.5 |})
         (seq a n),
     None).
Proof.
  intros Hm. revert a plotted. induction n as [|n IH]; intros a plotted Hrows.
  - cbn [seq map plot_lines]. now rewrite app_nil_r.
  - cbn [seq map plot_lines]. unfold true_div.
    destruct (Z.eqb_spec (m - 1) 0) as [E|E]; [lia|].
    rewrite (Hrows a) by lia.
    replace (Z.of_nat a + 1)%Z with (Z.of_nat (S a)) by lia.
    rewrite IH by (intros i Hi; apply Hrows; lia).
    now rewrite <- app_assoc.
Qed.

(** X22. [display_trajectories(Y, 1)] plots nothing and raises
    [ZeroDivisionError]: when the library calls before the loop succeed
    and select at least one trajectory, the first pass through the loop
    divides by [m - 1 = 0] before it plots. *)
Theorem display_trajectories_one_trajectory (Y : ndarray F) (plotted : list (plot_call F))
    (P N n : nat) (s : list nat) (idxs sorted_idx I' : ndarray Z) :
  shape Y = [P; N] ->
  linspace_indices 0 (Z.of_nat P - 1) 1 = Ok idxs ->
  column_argsort Y = Ok sorted_idx ->
  index_gather sorted_idx idxs = Ok I' ->
  shape I' = n :: s ->
  0 < n ->
  display_trajectories Y 1 plotted = (plotted, Some ZeroDivisionError).
Proof.
  intros HY Hl Ha Hg HI Hn. unfold display_trajectories.
  rewrite HY, Hl, Ha, Hg, HI.
  destruct n as [|n]; [lia|]. reflexivity.
Qed.

(** X23. For [m] other than 1, when the library calls succeed and select
    [n] trajectories, [display_trajectories(Y, m)] raises nothing and adds
    exactly [n] lines to the plot, in the order of the selection: line [i]
    is the row [Y[I[i], :]] in the colour [[i / (m - 1), 0, 1 - i / (m - 1)]],
    with [alpha = 0.3] and [linewidth = 0.5]; what was plotted before is
    kept. *)
Theorem display_trajectories_lines (Y : ndarray F) (m : Z) (plotted : list (plot_call F))
    (P N n : nat) (s : list nat) (idxs sorted_idx I' : ndarray Z)
    (rows : nat -> ndarray F) :
  m <> 1%Z ->
  shape Y = [P; N] ->
  linspace_indices 0 (Z.of_nat P - 1) m = Ok idxs ->
  column_argsort Y = Ok sorted_idx ->
  index_gather sorted_idx idxs = Ok I' ->
  shape I' = n :: s ->
  (forall i, i < n -> row_of Y (slice0 I' i) = Ok (rows i)) ->
  display_trajectories Y m plotted =
    (plotted ++
     map (fun i =>
            {| line := rows i;
               red := PrimFloat.div (py_float (Z.of_nat i)) (py_float (m - 1));
               green := 0;
               blue := PrimFloat.sub 1 (PrimFloat.div (py_float (Z.of_nat i))
                                                      (py_float (m - 1)));
               line_alpha := 0x1.3333333333333p-2;
               linewidth := 0.5 |})
         (seq 0 n),
     None).
Proof.
  intros Hm HY Hl Ha Hg HI Hrows. unfold display_trajectories.
  rewrite HY, Hl, Ha, Hg, HI.
  apply (@plot_lines_all Y m I' rows n 0 plotted Hm).
  intros i Hi. apply Hrows. lia.
Qed.
End DisplayTrajectoriesProperties.

Lemma display_trajectories_one_trajectory_witness :
  display_trajectories two_trajectories 1 [] = ([], Some ZeroDivisionError).
Proof.
  apply (@display_trajectories_one_trajectory R Plotting_R two_trajectories [] 2 2 1 []
           (mk_nd [1] [0%Z])
           (build [2] (fun idx => Z.of_nat (hd 0 idx)))
           (build [1] (fun i =>
              get (build [2] (fun idx => Z.of_nat (hd 0 idx)))
                  [Z.to_nat (get (mk_nd [1] [0%Z]) i)])));
    (reflexivity || lia).
Defined.

Lemma display_trajectories_lines_witness :
  display_trajectories two_trajectories 2 [] =
    ([] ++
     map (fun i =>
            {| line := build [2] (fun j => get two_trajectories (0 :: j));
               red := PrimFloat.div (py_float (Z.of_nat i)) (py_float (2 - 1));
               green := 0;
               blue := PrimFloat.sub 1 (PrimFloat.div (py_float (Z.of_nat i))
                                                      (py_float (2 - 1)));
               line_alpha := 0x1.3333333333333p-2;
               linewidth := 0.5 |})
         (seq 0 2),
     None).
Proof.
  apply (@display_trajectories_lines R Plotting_R two_trajectories 2 [] 2 2 2 []
           (mk_nd [2] [0%Z; 0%Z])
           (build [2] (fun idx => Z.of_nat (hd 0 idx)))
           (build [2] (fun i =>
              get (build [2] (fun idx => Z.of_nat (hd 0 idx)))
                  [Z.to_nat (get (mk_nd [2] [0%Z; 0%Z]) i)]))
           (fun _ => build [2] (fun j => get two_trajectories (0 :: j))));
    try reflexivity; try lia.
  intros i Hi. destruct i as [|[|i]]; [reflexivity | reflexivity | lia].
Defined.

(* ================================================================== *)
(** * Inputs of the wrong size that raise nothing, and one that does *)

Section WrongSizes.
Context {F key : Type} `{Scalar F} `{NormalCdf F} `{Factor F} `{Random F key}.

(** X24. On a state in dimension [D] (means of shape [[K; D]],
    covariances of shape [[K; D; D]]) a vector of [M] query values with
    [M] different from [D], neither equal to 1, makes [cdf_mixtr] fail: the
    difference [x - mean] cannot be broadcast. *)
Theorem cdf_mixtr_point_of_wrong_length (st : MixState F) (x : ndarray F) (K D M : nat) :
  shape (means st) = [K; D] ->
  shape (cov st) = [K; D; D] ->
  shape (mix_weights st) = [K] ->
  shape x = [M] ->
  M <> D -> M <> 1 -> D <> 1 ->
  cdf_mixtr st x = Err BroadcastError.
Proof.
  destruct st as [mu cv w]; cbn [means cov mix_weights]. intros Hm Hc Hw Hx HMD HM HD.
  unfold cdf_mixtr, vmap3, axis0, nd_sqrt, nd_map.
  cbn [shape build]. rewrite Hm, Hc, Hw. cbn [bind]. rewrite !Nat.eqb_refl. cbn [andb].
  unfold stacked, single_cdf, nd_sub, nd_map2 at 1.
  unfold slice0 at 1. rewrite Hm, Hx. cbn [tl shape build].
  unfold broadcast_shapes, pad; cbn. unfold bdim.
  destruct (Nat.eqb_spec M D); [contradiction|].
  destruct (Nat.eqb_spec M 1); [contradiction|].
  destruct (Nat.eqb_spec D 1); [contradiction|]. reflexivity.
Qed.

End WrongSizes.

Lemma cdf_mixtr_point_of_wrong_length_witness :
  cdf_mixtr two_by_two_state (mk_nd [3] [-1; 0; 1]%R) = Err BroadcastError.
Proof.
  apply (@cdf_mixtr_point_of_wrong_length R Scalar_R NormalCdf_R two_by_two_state
           (mk_nd [3] [-1; 0; 1]%R) 2 2 3); (reflexivity || lia).
Defined.

